(** * Remember-This corpus builder: classification and curation pipeline

    A shallow embedding of the corpus builder script (the node script that
    mines per-game summaries into "notable moment" entries) together with the
    properties its specification states about it.

    Modelling conventions.
    - Text is [string]; the regular expressions of the script only look at
      ASCII digits, ASCII letters and punctuation, and are transcribed as
      recursive matchers that return the captured groups.
    - A numeric value is an exact rational [Q]: every number the script
      computes with is the value of a decimal token, or a sum, difference,
      product or quotient of such values.  IEEE rounding is not modelled.
    - A JSON object with a fixed set of fields is a record; a field that may
      be missing (or null, or undefined) has an [option] type, and the
      [x || default] idiom of the script is [orElse] / [orEmpty] below.
    - The object used as the running-average dictionary is a [gmap] keyed by
      the text of the property name.
    - Services of the JavaScript runtime that the script calls but does not
      define (number formatting, date parsing, locale collation, conversion
      of arbitrary text to a number) are the fields of the class [Host].
    - Every field is read at the JSON type the feed gives it (text, number,
      boolean, array, object).  On a summary that is typed otherwise the
      script can throw inside the [try] block of the loop; such summaries
      are outside the model, in which the only exception is a failed fetch.
    - Case mapping and trimming are those of ASCII. *)

From Stdlib Require Import ZArith QArith Qround Ascii String DecimalString.
From Stdlib Require Import List Sorted Permutation Lia Lqa.
From stdpp Require Import gmap strings list.

Local Open Scope Z_scope.

(** ** Text primitives *)

Definition isDigit (c : ascii) : bool :=
  match Ascii.is_nat c with Some _ => true | None => false end.

Definition digitValue (c : ascii) : Z :=
  match Ascii.is_nat c with Some n => Z.of_nat n | None => 0 end.

Definition isEmpty (s : string) : bool :=
  match s with EmptyString => true | String _ _ => false end.

(** [\d*] at the head of [s]: the digits taken and what follows them. *)
Fixpoint takeDigits (s : string) : string * string :=
  match s with
  | EmptyString => (EmptyString, EmptyString)
  | String c r =>
      if isDigit c
      then let '(d, t) := takeDigits r in (String c d, t)
      else (EmptyString, s)
  end.

(** [\d+(?:\.\d+)?] at the head of [s]: the token and what follows it. *)
Definition takeDecimal (s : string) : option (string * string) :=
  let '(int, r1) := takeDigits s in
  if isEmpty int then None
  else match r1 with
       | String "."%char r2 =>
           let '(frac, r3) := takeDigits r2 in
           if isEmpty frac then Some (int, r1)
           else Some (int +:+ String "."%char frac, r3)
       | _ => Some (int, r1)
       end.

(** [String.prototype.match] with [/-?\d+(?:\.\d+)?/]: the leftmost match. *)
Fixpoint matchNumber (s : string) : option string :=
  match s with
  | EmptyString => None
  | String c r =>
      match (if Ascii.eqb c "-" then takeDecimal r else None) with
      | Some (tok, _) => Some (String "-"%char tok)
      | None =>
          match takeDecimal s with
          | Some (tok, _) => Some tok
          | None => matchNumber r
          end
      end
  end.

Fixpoint digitsValue (acc : Z) (s : string) : Z :=
  match s with
  | EmptyString => acc
  | String c r => digitsValue (10 * acc + digitValue c) r
  end.

Definition unsignedValue (tok : string) : Q :=
  let '(int, r) := takeDigits tok in
  match r with
  | String "."%char f =>
      (inject_Z (digitsValue 0 int)
       + inject_Z (digitsValue 0 f) / inject_Z (10 ^ Z.of_nat (String.length f)))%Q
  | _ => inject_Z (digitsValue 0 int)
  end.

(** [Number(tok)] for a token of the shape [-?\d+(?:\.\d+)?], the only shape
    the parsing functions ever convert. *)
Definition NumberOf (tok : string) : Q :=
  match tok with
  | String "-"%char r => (- unsignedValue r)%Q
  | _ => unsignedValue tok
  end.

Definition toUpperChar (c : ascii) : ascii :=
  let n := nat_of_ascii c in
  if ((97 <=? n) && (n <=? 122))%nat then ascii_of_nat (n - 32) else c.

Definition toLowerChar (c : ascii) : ascii :=
  let n := nat_of_ascii c in
  if ((65 <=? n) && (n <=? 90))%nat then ascii_of_nat (n + 32) else c.

Fixpoint mapChars (f : ascii → ascii) (s : string) : string :=
  match s with
  | EmptyString => EmptyString
  | String c r => String (f c) (mapChars f r)
  end.

Definition toUpperCase : string → string := mapChars toUpperChar.
Definition toLowerCase : string → string := mapChars toLowerChar.

Fixpoint trimStart (s : string) : string :=
  match s with
  | String c r => if Ascii.is_space c then trimStart r else s
  | EmptyString => EmptyString
  end.

Fixpoint trimEnd (s : string) : string :=
  match s with
  | EmptyString => EmptyString
  | String c r =>
      let r' := trimEnd r in
      if Ascii.is_space c && isEmpty r' then EmptyString else String c r'
  end.

Definition trim (s : string) : string := trimEnd (trimStart s).

(** [x || d] for a text field: a missing field and the empty text are falsy. *)
Definition orElse (x : option string) (d : string) : string :=
  match x with
  | Some s => if isEmpty s then d else s
  | None => d
  end.

Definition orEmpty (x : option string) : string := orElse x "".

(** [s.includes(t)], also the test of a regular expression that is a plain
    word. *)
Fixpoint includes (t s : string) : bool :=
  String.prefix t s ||
  match s with
  | EmptyString => false
  | String _ r => includes t r
  end.

(** [s.slice(0, n)]. *)
Definition slice0 (n : nat) (s : string) : string := String.substring 0 n s.

(** ** Comparisons on numbers, as booleans *)

Definition Qgeb (x y : Q) : bool := Qle_bool y x.
Definition Qltb (x y : Q) : bool := negb (Qle_bool y x).
Definition Qgtb (x y : Q) : bool := Qltb y x.

(** ** Stat parsing *)

Definition parseNumberFromStat (value : option string) : Q :=
  match value with
  | None => 0%Q
  | Some s =>
      match matchNumber s with
      | Some tok => NumberOf tok
      | None => 0%Q
      end
  end.

(** [^(\d+):(\d{1,2})(?:\.(\d+))?$]; [parseMinutes] uses the same expression
    with the last group not captured. *)
Definition matchColonClock (s : string) : option (string * string * option string) :=
  let '(m, r) := takeDigits s in
  if isEmpty m then None
  else match r with
       | String ":"%char r2 =>
           let '(ss, r3) := takeDigits r2 in
           if ((1 <=? String.length ss) && (String.length ss <=? 2))%nat
           then match r3 with
                | EmptyString => Some (m, ss, None)
                | String "."%char r4 =>
                    let '(f, r5) := takeDigits r4 in
                    if negb (isEmpty f) && isEmpty r5 then Some (m, ss, Some f)
                    else None
                | _ => None
                end
           else None
       | _ => None
       end.

Definition sameLetter (c upper : ascii) : bool := Ascii.eqb (toUpperChar c) upper.

(** [^PT(?:(\d+)M)?(?:(\d+(?:\.\d+)?)S)?$] with the [i] flag. *)
Definition matchIsoDuration (s : string) : option (option string * option string) :=
  match s with
  | String p (String t r) =>
      if sameLetter p "P" && sameLetter t "T" then
        let '(g1, r1) :=
          match takeDigits r with
          | (d, String m r') =>
              if negb (isEmpty d) && sameLetter m "M" then (Some d, r') else (None, r)
          | _ => (None, r)
          end in
        let '(g2, r2) :=
          match takeDecimal r1 with
          | Some (tok, String c r') =>
              if sameLetter c "S" then (Some tok, r') else (None, r1)
          | _ => (None, r1)
          end in
        if isEmpty r2 then Some (g1, g2) else None
      else None
  | _ => None
  end.

Definition numberOrZero (g : option string) : Q :=
  match g with Some tok => NumberOf tok | None => 0%Q end.

Definition parseMinutes (value : option string) : Q :=
  let text := trim (orEmpty value) in
  if isEmpty text then 0%Q
  else match takeDecimal text with
       | Some (_, EmptyString) => NumberOf text
       | _ =>
           match matchColonClock text with
           | Some (m, ss, _) => (NumberOf m + NumberOf ss / 60)%Q
           | None =>
               match matchIsoDuration text with
               | Some (g1, g2) => (numberOrZero g1 + numberOrZero g2 / 60)%Q
               | None => parseNumberFromStat (Some text)
               end
           end
       end.

(** A play of the play-by-play feed: [play.clock.displayValue], [play.text]. *)
Record play := Play {
  clock_displayValue : option string;
  play_text : option string
}.

(** The result of [parseClockToSeconds]: a number of seconds or [Infinity]. *)
Inductive clockSeconds :=
  | Seconds (q : Q)
  | Infinity.

(** The optional [(?:\.(\d+))?] after a match. *)
Definition takeFraction (s : string) : option string :=
  match s with
  | String "."%char r =>
      let '(f, _) := takeDigits r in if isEmpty f then None else Some f
  | _ => None
  end.

(** [/(\d):(\d{2})(?:\.(\d+))?/]: the leftmost match. *)
Fixpoint matchTextClock (s : string) : option (string * string * option string) :=
  match s with
  | EmptyString => None
  | String a r =>
      match r with
      | String ":"%char (String b (String c r')) =>
          if isDigit a && isDigit b && isDigit c
          then Some (String a "", String b (String c ""), takeFraction r')
          else matchTextClock r
      | _ => matchTextClock r
      end
  end.

Definition clockValue (g : string * string * option string) : Q :=
  let '(m, ss, f) := g in
  (NumberOf m * 60 + NumberOf ss
   + match f with Some d => NumberOf ("0." +:+ d) | None => 0 end)%Q.

Definition emptyPlay : play := Play None None.

Definition parseClockToSeconds (p : option play) : clockSeconds :=
  let display := trim (orEmpty (clock_displayValue (default emptyPlay p))) in
  match matchColonClock display with
  | Some g => Seconds (clockValue g)
  | None =>
      let text := toLowerCase (orEmpty (play_text (default emptyPlay p))) in
      match matchTextClock text with
      | Some g => Seconds (clockValue g)
      | None => Infinity
      end
  end.

(** ** Services of the runtime *)

Class Host := {
  (** [String(x)] and template interpolation of a number *)
  numberToString : Q → string;
  (** [x.toFixed(1)] *)
  toFixed1 : Q → string;
  (** the sign of [a.localeCompare(b)] *)
  localeCompare : string → string → comparison;
  (** [new Date(s)]: [getUTCFullYear()] and [getUTCMonth()], [None] for an
      invalid date *)
  utcYearMonth : string → option (Z * Z);
  (** [Number(s)] on arbitrary text, [None] for [NaN] *)
  toNumber : string → option Q
}.

(** [String(z)] for an integer. *)
Definition integerToString (z : Z) : string := NilZero.string_of_int (Z.to_int z).

(** [s.padStart(2, '0')]. *)
Definition padStart2 (s : string) : string :=
  match String.length s with
  | O => "00"
  | S O => "0" +:+ s
  | _ => s
  end.

(** [Math.round]: the nearest integer, halves towards positive infinity. *)
Definition mathRound (x : Q) : Q := inject_Z (Qfloor (x + (1 # 2))).

(** [Math.abs]. *)
Definition mathAbs (x : Q) : Q := if Qle_bool 0 x then x else (- x)%Q.

(** ** The game summary, as far as the script reads it *)

Record logo := Logo {
  logo_href : option string;
  (** [None] when [rel] is not an array *)
  logo_rel : option (list string)
}.

Record teamInfo := TeamInfo {
  team_id : option string;
  team_abbreviation : option string;
  team_logos : list logo;
  team_logo : option string
}.

Record competitor := Competitor {
  comp_team : option teamInfo;
  comp_score : option Q;
  comp_winner : option bool;
  comp_homeAway : option string
}.

Record seriesEntry := SeriesEntry {
  series_type : option string;
  series_summary : option string;
  series_title : option string;
  series_description : option string
}.

Record competition := Competition {
  competitors : list competitor;
  comp_date : option string;
  (** [status.type.detail] *)
  status_detail : option string;
  series : list seriesEntry
}.

Record athleteRow := AthleteRow {
  (** [athlete.displayName] and [athlete.id] *)
  displayName : option string;
  athlete_id : option string;
  stats : list string;
  starter : option bool
}.

Record statGroup := StatGroup {
  labels : list string;
  athletes : list athleteRow
}.

Record playerBlock := PlayerBlock {
  block_team_id : option string;
  block_statistics : list statGroup
}.

Record teamStat := TeamStat {
  stat_name : option string;
  stat_displayName : option string;
  stat_displayValue : option string;
  stat_value : option string
}.

Record teamRow := TeamRow {
  row_team_id : option string;
  row_statistics : list teamStat
}.

Record winProbability := WinProbability {
  homeWinPercentage : option Q;
  homeScore : option Q;
  awayScore : option Q
}.

Record summary := Summary {
  (** [header.competitions] and [header.season.type] *)
  header_competitions : list competition;
  season_type : option Q;
  (** [boxscore.players] and [boxscore.teams] *)
  boxscore_players : list playerBlock;
  boxscore_teams : list teamRow;
  winprobability : list winProbability;
  plays : list play
}.

Definition emptyCompetition : competition := Competition [] None None [].
Definition emptyStatGroup : statGroup := StatGroup [] [].
Definition emptyTeamRow : teamRow := TeamRow None [].
Definition emptyTeamInfo : teamInfo := TeamInfo None None [] None.

(** [Number(x || 0)] for a numeric field. *)
Definition numberOr0 (x : option Q) : Q := default 0%Q x.

(** ** Entries and contexts *)

Record entry := Entry {
  date : string;
  season : string;
  opponent : string;
  homeAway : string;
  result : string;
  playoffs : bool;
  player : string;
  stat_line : string;
  category : string;
  trauma : bool;
  trauma_level : option string;
  why : string;
  image : string
}.

Record context := Context {
  ctx_competition : competition;
  pacersComp : competitor;
  oppComp : competitor;
  pacersScore : Q;
  oppScore : Q;
  won : bool;
  ctx_homeAway : string;
  ctx_opponent : string;
  ctx_result : string;
  ctx_playoffs : bool
}.

Record playerRef := PlayerRef {
  player_name : string;
  player_id : string
}.

Definition PACERS_TEAM_ID : string := "11".
Definition START_SEASON : Q := 1995.
Definition PACERS_LOGO_URL : string :=
  "https://a.espncdn.com/i/teamlogos/nba/500/ind.png".

Definition TEAM_ID_BY_ABBR : list (string * string) :=
  [("ATL", "1"); ("BOS", "2"); ("BKN", "17"); ("CHA", "30"); ("CHI", "4");
   ("CLE", "5"); ("DAL", "6"); ("DEN", "7"); ("DET", "8"); ("GS", "9");
   ("HOU", "10"); ("IND", "11"); ("LAC", "12"); ("LAL", "13"); ("MEM", "29");
   ("MIA", "14"); ("MIL", "15"); ("MIN", "16"); ("NO", "3"); ("NY", "18");
   ("OKC", "25"); ("ORL", "19"); ("PHI", "20"); ("PHX", "21"); ("POR", "22");
   ("SAC", "23"); ("SA", "24"); ("TOR", "28"); ("UTA", "26"); ("WAS", "27")].

Definition teamIdByAbbr (abbr : string) : option string :=
  snd <$> List.find (λ kv, String.eqb (fst kv) abbr) TEAM_ID_BY_ABBR.

(** [competitions[0]], or the empty object. *)
Definition firstCompetition (s : summary) : competition :=
  List.hd emptyCompetition (header_competitions s).

Definition competitorTeam (c : competitor) : teamInfo :=
  default emptyTeamInfo (comp_team c).

Definition competitorTeamId (c : competitor) : string :=
  orEmpty (team_id (competitorTeam c)).

Section WithHost.
Context `{Host}.

Definition seasonLabelFromDate (dateStr : string) : string :=
  match utcYearMonth dateStr with
  | None => "NaN-NaN"
  | Some (year, month0) =>
      let month := month0 + 1 in
      let start := if 7 <=? month then year else year - 1 in
      let end_ := padStart2 (integerToString (Z.rem (start + 1) 100)) in
      integerToString start +:+ "-" +:+ end_
  end.

Definition collectPacersTeamContext (s : summary) : option context :=
  let competition := firstCompetition s in
  let competitors := competitors competition in
  let pacersComp :=
    List.find (λ team, String.eqb (competitorTeamId team) PACERS_TEAM_ID) competitors in
  let oppComp :=
    List.find (λ team, negb (String.eqb (competitorTeamId team) PACERS_TEAM_ID)) competitors in
  match pacersComp, oppComp with
  | Some pacersComp, Some oppComp =>
      let pacersScore := numberOr0 (comp_score pacersComp) in
      let oppScore := numberOr0 (comp_score oppComp) in
      let won := match comp_winner pacersComp with Some true => true | _ => false end in
      Some {|
        ctx_competition := competition;
        pacersComp := pacersComp;
        oppComp := oppComp;
        pacersScore := pacersScore;
        oppScore := oppScore;
        won := won;
        ctx_homeAway :=
          if String.eqb (toUpperCase (orEmpty (comp_homeAway pacersComp))) "HOME"
          then "HOME" else "AWAY";
        ctx_opponent :=
          toUpperCase (orElse (team_abbreviation (competitorTeam oppComp)) "UNK");
        ctx_result :=
          (if won then "W" else "L") +:+ " " +:+ numberToString pacersScore
          +:+ "-" +:+ numberToString oppScore;
        ctx_playoffs := Qeq_bool (numberOr0 (season_type s)) 3
      |}
  | _, _ => None
  end.

(** The object built by [statMapForAthlete]: label [i] is bound to
    [stats[i]], which is undefined ([None]) past the end of [stats]; a label
    that occurs twice keeps its last binding. *)
Fixpoint statMapLoop (stats : list string) (labels : list string) (i : nat)
    (out : gmap string (option string)) : gmap string (option string) :=
  match labels with
  | [] => out
  | label :: rest =>
      statMapLoop stats rest (S i) (<[toUpperCase label := stats !! i]> out)
  end.

Definition statMapForAthlete (row : athleteRow) (labels : list string)
    : gmap string (option string) :=
  statMapLoop (stats row) labels 0 ∅.

(** [statMap.KEY]. *)
Definition statOf (m : gmap string (option string)) (key : string) : option string :=
  mjoin (m !! key).

Definition getOpponentLogo (ctx : context) : string :=
  let oppTeam := competitorTeam (oppComp ctx) in
  let logos := team_logos oppTeam in
  let defaultLogo :=
    List.find (λ l, match logo_rel l with
                    | Some rel => existsb (String.eqb "default") rel
                    | None => false
                    end) logos in
  let bestLogo := match defaultLogo with Some l => Some l | None => List.hd_error logos end in
  let href := match bestLogo with Some l => orEmpty (logo_href l) | None => "" end in
  if negb (isEmpty href) then href
  else if negb (isEmpty (orEmpty (team_logo oppTeam))) then orEmpty (team_logo oppTeam)
  else
    let abbr := toUpperCase (orElse (team_abbreviation oppTeam) (ctx_opponent ctx)) in
    match teamIdByAbbr abbr with
    | Some _ =>
        "https://a.espncdn.com/i/teamlogos/nba/500/" +:+ toLowerCase abbr +:+ ".png"
    | None => PACERS_LOGO_URL
    end.

Definition createBaseEntry (ctx : context) (s : summary) (p : playerRef)
    (statLine category why : string) : entry :=
  let hasPlayerHeadshot :=
    negb (isEmpty (player_id p)) && negb (String.eqb (player_id p) "0") in
  let opponentLogo := getOpponentLogo ctx in
  let rawDate := orEmpty (comp_date (firstCompetition s)) in
  {| date := slice0 10 rawDate;
     season := seasonLabelFromDate rawDate;
     opponent := ctx_opponent ctx;
     homeAway := ctx_homeAway ctx;
     result := ctx_result ctx;
     playoffs := ctx_playoffs ctx;
     player := if isEmpty (player_name p) then "Unknown" else player_name p;
     stat_line := statLine;
     category := category;
     trauma := false;
     trauma_level := None;
     why := why;
     image :=
       if hasPlayerHeadshot
       then "https://a.espncdn.com/i/headshots/nba/players/full/"
            +:+ player_id p +:+ ".png"
       else opponentLogo |}.

Definition traumaify (e : entry) (why : string) : entry :=
  {| date := date e;
     season := season e;
     opponent := opponent e;
     homeAway := homeAway e;
     result := result e;
     playoffs := playoffs e;
     player := player e;
     stat_line := stat_line e;
     category := "TRAUMA";
     trauma := true;
     trauma_level := Some "HIGH";
     why := why;
     image := image e |}.

Definition peakLeadStep (pacersHome : bool) (pacersPeakLead : Q) (wp : winProbability) : Q :=
  let homeWin := numberOr0 (homeWinPercentage wp) in
  let diff := (numberOr0 (homeScore wp) - numberOr0 (awayScore wp))%Q in
  let pacersEdge := if pacersHome then diff else (- diff)%Q in
  let pacersPeakLead := if Qgtb pacersEdge pacersPeakLead then pacersEdge else pacersPeakLead in
  let impliedLead :=
    if pacersHome then mathRound ((homeWin - (1 # 2)) * 40)
    else mathRound (((1 - homeWin) - (1 # 2)) * 40) in
  if Qgtb impliedLead pacersPeakLead then impliedLead else pacersPeakLead.

Definition getPacersPeakLead (s : summary) (ctx : context) : Q :=
  let pacersHome :=
    String.eqb (toLowerCase (orEmpty (comp_homeAway (pacersComp ctx)))) "home" in
  fold_left (peakLeadStep pacersHome) (winprobability s) 0%Q.

End WithHost.

(** ** The running-average store *)

Record average := Average {
  games : Z;
  points : Q
}.

(** [runningAverages[avgKey] || { games: 0, points: 0 }].  Every key the
    script uses contains a colon, so no key is a property inherited from the
    object prototype, and a stored record is always truthy. *)
Definition averageOf (runningAverages : gmap string average) (avgKey : string) : average :=
  default (Average 0 0) (runningAverages !! avgKey).

Definition avgKeyOf (seasonKey name : string) : string :=
  seasonKey +:+ ":" +:+ name.

Definition preGameAverageOf (avg : average) : Q :=
  if 0 <? games avg then (points avg / inject_Z (games avg))%Q else 0%Q.

Definition recordGame (avg : average) (pts : Q) : average :=
  {| games := games avg + 1; points := (points avg + pts)%Q |}.

(** ** Classifiers *)

Section Classifiers.
Context `{Host}.

(** The numbers read off one boxscore row. *)
Record rowLine := RowLine {
  line_name : string;
  line_player : playerRef;
  line_points : Q;
  line_rebounds : Q;
  line_assists : Q;
  line_turnovers : Q;
  line_steals : Q;
  line_blocks : Q;
  line_minutes : Q;
  line_isBench : bool
}.

Definition readRow (row : athleteRow) (labels : list string) : rowLine :=
  let statMap := statMapForAthlete row labels in
  let name := orElse (displayName row) "Unknown" in
  {| line_name := name;
     line_player := PlayerRef name (orElse (athlete_id row) "0");
     line_points := parseNumberFromStat (statOf statMap "PTS");
     line_rebounds := parseNumberFromStat (statOf statMap "REB");
     line_assists := parseNumberFromStat (statOf statMap "AST");
     line_turnovers := parseNumberFromStat (statOf statMap "TO");
     line_steals := parseNumberFromStat (statOf statMap "STL");
     line_blocks := parseNumberFromStat (statOf statMap "BLK");
     line_minutes := parseMinutes (statOf statMap "MIN");
     line_isBench := match starter row with Some false => true | _ => false end |}.

Definition statLineOf (r : rowLine) : string :=
  numberToString (line_points r) +:+ " pts, " +:+ numberToString (line_rebounds r)
  +:+ " reb, " +:+ numberToString (line_assists r) +:+ " ast".

(** The explosion rules: the value of [randomWhy] after the [if] chain. *)
Definition randomWhyOf (r : rowLine) (avg : average) : string :=
  let name := line_name r in
  let points := line_points r in
  let minutes := line_minutes r in
  let preGameAverage := preGameAverageOf avg in
  if line_isBench r && Qgeb points 30 then
    "Bench detonation: " +:+ name +:+ " dropped " +:+ numberToString points
    +:+ " off the bench."
  else if Qgeb points 45 then
    name +:+ " went for " +:+ numberToString points +:+ ". Full orbital launch."
  else if Qgeb points 35 && Qltb preGameAverage 12 && (8 <=? games avg) then
    name +:+ " averaged " +:+ toFixed1 preGameAverage +:+ " then exploded for "
    +:+ numberToString points +:+ "."
  else if Qgeb points 25 && Qgtb minutes 0 && Qltb minutes 25 then
    name +:+ " scored " +:+ numberToString points +:+ " in " +:+ toFixed1 minutes
    +:+ " minutes."
  else "".

(** The chaos rules: the value of [chaosWhy] after the [if] chain. *)
Definition chaosWhyOf (r : rowLine) : string :=
  let name := line_name r in
  let turnovers := line_turnovers r in
  let tripleDoubleBuckets :=
    List.length (List.filter (λ value, Qgeb value 10)
      [line_points r; line_rebounds r; line_assists r; line_steals r; line_blocks r]) in
  if (3 <=? tripleDoubleBuckets)%nat && Qgeb turnovers 7 then
    name +:+ " posted a triple-double and " +:+ numberToString turnovers
    +:+ " turnovers. Maximum volatility."
  else if Qgeb turnovers 10 then
    name +:+ " turned it over " +:+ numberToString turnovers
    +:+ " times and somehow it was still a game."
  else if Qgeb (line_steals r) 6 then
    name +:+ " ripped " +:+ numberToString (line_steals r) +:+ " steals in one night."
  else if Qgeb (line_blocks r) 7 then
    name +:+ " rejected " +:+ numberToString (line_blocks r) +:+ " shots like a bouncer."
  else if Qgeb (line_assists r) 15 && Qeq_bool turnovers 0 then
    name +:+ " posted " +:+ numberToString (line_assists r)
    +:+ " assists with 0 turnovers. Surgical control."
  else "".

(** The entries one row pushes, given the record read from the store. *)
Definition rowEvents (s : summary) (ctx : context) (r : rowLine) (avg : average) : list entry :=
  let randomWhy := randomWhyOf r avg in
  let chaosWhy := chaosWhyOf r in
  (if negb (isEmpty randomWhy)
   then [createBaseEntry ctx s (line_player r) (statLineOf r) "RANDOM_EXPLOSION" randomWhy]
   else [])
  ++ (if negb (isEmpty chaosWhy)
      then [createBaseEntry ctx s (line_player r) (statLineOf r) "CHAOS" chaosWhy]
      else []).

(** One turn of the loop over the athletes: the store is read, the rules
    are evaluated on what was read, and only then the store is written. *)
Definition playerRowStep (s : summary) (ctx : context) (seasonKey : string)
    (labels : list string) (st : list entry * gmap string average) (row : athleteRow)
    : list entry * gmap string average :=
  let '(events, runningAverages) := st in
  let r := readRow row labels in
  let avgKey := avgKeyOf seasonKey (line_name r) in
  let avg := averageOf runningAverages avgKey in
  (events ++ rowEvents s ctx r avg,
   <[avgKey := recordGame avg (line_points r)]> runningAverages).

Definition pacersPlayerBlock (s : summary) : option playerBlock :=
  List.find (λ block, String.eqb (orEmpty (block_team_id block)) PACERS_TEAM_ID)
    (boxscore_players s).

Definition pacersStatGroup (block : playerBlock) : statGroup :=
  List.hd emptyStatGroup (block_statistics block).

Definition detectPlayerMoments (s : summary) (ctx : context)
    (runningAverages : gmap string average) (seasonKey : string)
    : list entry * gmap string average :=
  match pacersPlayerBlock s with
  | None => ([], runningAverages)
  | Some block =>
      let statGroup := pacersStatGroup block in
      let labels := List.map toUpperCase (labels statGroup) in
      fold_left (playerRowStep s ctx seasonKey labels) (athletes statGroup)
        ([], runningAverages)
  end.

Record teamStats := TeamStats {
  fgPct : Q;
  ts_pacersScore : Q;
  ts_oppScore : Q;
  ts_won : bool
}.

Definition findStat (row : teamRow) (key : string) : string :=
  match List.find (λ item, String.eqb (toUpperCase (orEmpty (stat_name item))) key
                           || String.eqb (toUpperCase (orEmpty (stat_displayName item))) key)
                  (row_statistics row) with
  | Some stat => orElse (stat_displayValue stat) (orEmpty (stat_value stat))
  | None => ""
  end.

Definition parseTeamStats (s : summary) (ctx : context) : teamStats :=
  let pacersRow :=
    default emptyTeamRow
      (List.find (λ row, String.eqb (orEmpty (row_team_id row)) PACERS_TEAM_ID)
         (boxscore_teams s)) in
  let first := parseNumberFromStat (Some (findStat pacersRow "FIELD GOAL PCT")) in
  let fgPct :=
    if Qeq_bool first 0 then parseNumberFromStat (Some (findStat pacersRow "FG%"))
    else first in
  {| fgPct := fgPct;
     ts_pacersScore := pacersScore ctx;
     ts_oppScore := oppScore ctx;
     ts_won := won ctx |}.

Definition teamEvent : playerRef := PlayerRef "Team Event" "0".

Definition teamStatLine (ctx : context) : string :=
  numberToString (pacersScore ctx) +:+ " pts, opp " +:+ numberToString (oppScore ctx)
  +:+ " pts".

Definition detectTeamWeirdness (s : summary) (ctx : context) : list entry :=
  let team := parseTeamStats s ctx in
  let statLine := teamStatLine ctx in
  let item := createBaseEntry ctx s teamEvent statLine "TEAM_WEIRDNESS" in
  let pacersPeakLead := getPacersPeakLead s ctx in
  let detail := toLowerCase (orEmpty (status_detail (ctx_competition ctx))) in
  let margin := mathAbs (ts_pacersScore team - ts_oppScore team) in
  (if ts_won team && Qgtb (fgPct team) 0 && Qltb (fgPct team) 35
   then [item ("Pacers won while shooting " +:+ toFixed1 (fgPct team)
               +:+ "%. Basketball is fake.")]
   else [])
  ++ (if negb (ts_won team) && Qgeb (ts_pacersScore team) 130
      then [item "Dropped 130+ and still lost. Defense dissolved completely."]
      else [])
  ++ (if Qgeb (ts_oppScore team) 150
      then [item "Allowed 150+. Historical nonsense occurred."]
      else [])
  ++ (if negb (ts_won team) && Qgeb pacersPeakLead 20
      then [item ("Blew a " +:+ numberToString (mathRound pacersPeakLead)
                  +:+ "-point lead.")]
      else [])
  ++ (if negb (ts_won team) && includes "ot" detail
         && (Qeq_bool margin 1 || Qeq_bool margin 2)
      then [item ("Overtime loss by " +:+ numberToString margin
                  +:+ ". Painfully precise.")]
      else []).

(** The predicate of [plays.some] in the trauma classifier. *)
Definition isLateOpponentBasket (p : play) : bool :=
  let text := toLowerCase (orEmpty (play_text p)) in
  if negb (includes "makes" text || includes "made" text
           || includes "hits" text || includes "hit" text)
  then false
  else match parseClockToSeconds (Some p) with
       | Infinity => false
       | Seconds secondsLeft =>
           if Qgtb secondsLeft 3 then false
           else negb (includes "pacers" text)
       end.

(** The texts the trauma classifier looks at. *)
Definition detailUpperOf (ctx : context) : string :=
  toUpperCase (orEmpty (status_detail (ctx_competition ctx))).

Definition playoffSeriesOf (ctx : context) : option seriesEntry :=
  List.find (λ e, String.eqb (toLowerCase (orEmpty (series_type e))) "playoff")
    (series (ctx_competition ctx)).

Definition summaryTextOf (ctx : context) : string :=
  toUpperCase (orEmpty (playoffSeriesOf ctx ≫= series_summary)).

Definition seriesTitleOf (ctx : context) : string :=
  toUpperCase (orEmpty (playoffSeriesOf ctx ≫= series_title) +:+ " "
               +:+ orEmpty (playoffSeriesOf ctx ≫= series_description)).

(** The conditions of the six [if]s of the trauma classifier, in order. *)
Definition eliminationLoss (ctx : context) : bool :=
  ctx_playoffs ctx && includes "WINS SERIES" (summaryTextOf ctx)
  && negb (includes "IND" (summaryTextOf ctx)).

Definition game7Loss (ctx : context) : bool :=
  ctx_playoffs ctx && includes "GAME 7" (detailUpperOf ctx).

Definition lateRoundLoss (ctx : context) : bool :=
  ctx_playoffs ctx && (includes "CONFERENCE FINALS" (seriesTitleOf ctx)
                       || includes "NBA FINALS" (seriesTitleOf ctx)).

Definition rivalLoss (ctx : context) : bool :=
  ctx_playoffs ctx && existsb (String.eqb (ctx_opponent ctx)) ["NY"; "MIA"].

Definition blownLead (s : summary) (ctx : context) : bool :=
  Qgeb (getPacersPeakLead s ctx) 20.

Definition lateOpponentGameWinner (s : summary) : bool :=
  existsb isLateOpponentBasket (plays s).

(** The list [traumaReasons], in the order the reasons are pushed. *)
Definition traumaReasonsOf (s : summary) (ctx : context) : list string :=
  (if eliminationLoss ctx
   then ["Playoff elimination confirmed. Remote tossed."] else [])
  ++ (if game7Loss ctx
      then ["Game 7 loss. Historic pain tier unlocked."] else [])
  ++ (if lateRoundLoss ctx
      then ["ECF/Finals loss. Banner-adjacent heartbreak."] else [])
  ++ (if rivalLoss ctx
      then [ctx_opponent ctx +:+ " playoff loss. Annual emotional tax paid."] else [])
  ++ (if blownLead s ctx
      then ["Led by " +:+ numberToString (mathRound (getPacersPeakLead s ctx))
            +:+ " and still lost. Hope briefly existed."] else [])
  ++ (if lateOpponentGameWinner s
      then ["Buzzer-beater loss in the final 3 seconds."] else []).

(** The entry [base] of the trauma classifier. *)
Definition traumaBase (s : summary) (ctx : context) : entry :=
  createBaseEntry ctx s teamEvent (teamStatLine ctx) "TRAUMA" "Hope briefly existed.".

Definition detectTrauma (s : summary) (ctx : context) : list entry :=
  if won ctx then []
  else
    match traumaReasonsOf s ctx with
    | reason :: _ => [traumaify (traumaBase s ctx) reason]
    | [] => []
    end.

End Classifiers.

(** ** Curator *)

(** [Array.prototype.sort].  With a consistent comparator the result is the
    stable sort, which the comparator determines; it is computed here by
    insertion.  [cmp a b] is the sign of the comparator's result: [Gt] when
    [a] has to come after [b]. *)
Fixpoint insertBy {A} (cmp : A → A → comparison) (x : A) (l : list A) : list A :=
  match l with
  | [] => [x]
  | y :: l' =>
      match cmp x y with
      | Gt => y :: insertBy cmp x l'
      | _ => x :: l
      end
  end.

Definition sortBy {A} (cmp : A → A → comparison) (l : list A) : list A :=
  foldr (insertBy cmp) [] l.

(** [s.split(sep)[0]]: the text before the first occurrence of [sep]. *)
Fixpoint splitHead (sep s : string) : string :=
  if String.prefix sep s then ""
  else match s with
       | EmptyString => ""
       | String c r => String c (splitHead sep r)
       end.

(** [[date, opponent, player, category, why].join('|')]. *)
Definition entryKey (e : entry) : string :=
  date e +:+ "|" +:+ opponent e +:+ "|" +:+ player e +:+ "|" +:+ category e
  +:+ "|" +:+ why e.

Definition dedupeStep (st : gset string * list entry) (e : entry)
    : gset string * list entry :=
  let '(seen, out) := st in
  let key := entryKey e in
  if decide (key ∈ seen) then st else ({[key]} ∪ seen, out ++ [e]).

Definition dedupeEntries (entries : list entry) : list entry :=
  snd (fold_left dedupeStep entries (∅, [])).

Definition statLinePoints (e : entry) : Q :=
  parseNumberFromStat (Some (splitHead " pts" (stat_line e))).

Definition entryQualityScore (e : entry) : Q :=
  let score := 0%Q in
  let score := if trauma e then (score + 100)%Q else score in
  let score :=
    if String.eqb (category e) "RANDOM_EXPLOSION" || String.eqb (category e) "CHAOS"
    then (score + 25)%Q else score in
  let points := statLinePoints e in
  (score + (if Qle_bool points 60 then points else 60))%Q.

Definition CORPUS_CAP : nat := 400.

Section Curator.
Context `{Host}.

(** [(a, b) => String(b.date).localeCompare(String(a.date))]. *)
Definition byDateDescending (a b : entry) : comparison :=
  localeCompare (date b) (date a).

(** [(a, b) => entryQualityScore(b) - entryQualityScore(a)
                || String(b.date).localeCompare(String(a.date))]. *)
Definition byQualityThenDate (a b : entry) : comparison :=
  match (entryQualityScore b ?= entryQualityScore a)%Q with
  | Eq => localeCompare (date b) (date a)
  | c => c
  end.

(** The tail of [main]: from the collected candidates to the entries that
    are written out. *)
Definition curate (collected : list entry) : list entry :=
  let finalEntries := sortBy byDateDescending (dedupeEntries collected) in
  if (CORPUS_CAP <? List.length finalEntries)%nat
  then sortBy byDateDescending
         (List.firstn CORPUS_CAP (sortBy byQualityThenDate finalEntries))
  else finalEntries.

(** ** Driver *)

(** What [fetchJson] yields for one event id: a summary, or an exception
    after the retries, which the loop catches. *)
Inductive fetched :=
  | FetchFailed
  | Fetched (s : summary).

Record runState := RunState {
  runningAverages : gmap string average;
  collected : list entry
}.

(** [gameDate], and the test [!gameDate || Number(gameDate.slice(0, 4)) <
    START_SEASON] that makes the loop skip a game. *)
Definition gameDateOf (ctx : context) : string :=
  slice0 10 (orEmpty (comp_date (ctx_competition ctx))).

Definition dateSkipped (ctx : context) : bool :=
  isEmpty (gameDateOf ctx)
  || match toNumber (slice0 4 (gameDateOf ctx)) with
     | Some year => Qltb year START_SEASON
     | None => false
     end.

Definition seasonKeyOf (ctx : context) : string :=
  seasonLabelFromDate (orEmpty (comp_date (ctx_competition ctx))).

(** One turn of the loop over the ordered event ids. *)
Definition processGame (st : runState) (f : fetched) : runState :=
  match f with
  | FetchFailed => st
  | Fetched s =>
      match collectPacersTeamContext s with
      | None => st
      | Some ctx =>
          if dateSkipped ctx then st
          else
            let '(events, averages) :=
              detectPlayerMoments s ctx (runningAverages st) (seasonKeyOf ctx) in
            {| runningAverages := averages;
               collected := collected st ++ events ++ detectTeamWeirdness s ctx
                            ++ detectTrauma s ctx |}
      end
  end.

Definition traverse (fetches : list fetched) : runState :=
  fold_left processGame fetches (RunState ∅ []).

(** The entries [main] writes, given what the fetches returned in the
    ascending order of the event ids. *)
Definition main (fetches : list fetched) : list entry :=
  curate (collected (traverse fetches)).

End Curator.

(** ** A reference host

    A concrete runtime on which the definitions can be evaluated.  It
    agrees with JavaScript on what the sample games below use: integers
    print in decimal, [toFixed(1)] rounds to tenths, decimal literals
    convert to their value and every other text to [NaN], dates are read
    off the leading "YYYY-MM", and collation is the order of the character
    codes, which is how every locale orders dates written as YYYY-MM-DD. *)

Definition refNumberToString (x : Q) : string := integerToString (Qfloor x).

Definition refToFixed1 (x : Q) : string :=
  let tenths := Qfloor (mathAbs x * 10 + (1 # 2)) in
  (if Qltb x 0 then "-" else "")
  +:+ integerToString (tenths / 10) +:+ "." +:+ integerToString (tenths mod 10).

Definition refToNumber (s : string) : option Q :=
  match takeDecimal s with
  | Some (_, EmptyString) => Some (NumberOf s)
  | _ => None
  end.

Definition refUtcYearMonth (s : string) : option (Z * Z) :=
  match takeDigits s with
  | (y, String "-"%char r) =>
      match takeDigits r with
      | (m, _) =>
          if ((String.length y =? 4) && (String.length m =? 2))%nat
          then Some (digitsValue 0 y, digitsValue 0 m - 1)
          else None
      end
  | _ => None
  end.

Definition refHost : Host :=
  {| numberToString := refNumberToString;
     toFixed1 := refToFixed1;
     localeCompare := String.compare;
     utcYearMonth := refUtcYearMonth;
     toNumber := refToNumber |}.


From Stdlib Require Import DecimalPos.

(** ** Fetching

    The network is the environment of the script.  The [k]-th call of
    [fetch] on a URL is answered by a reply: the call is rejected, or it
    resolves to a response.  An error is identified with its message.  A
    run of [fetchJson] is recorded with the number of requests it made and
    the pauses it took, in milliseconds. *)

Record response (A : Type) := Response {
  ok : bool;
  status : Z;
  statusText : string;
  (** [response.json()]: the rejection, or the value parsed *)
  json : string + A
}.
Arguments Response {A}.
Arguments ok {A}.
Arguments status {A}.
Arguments statusText {A}.
Arguments json {A}.

Inductive reply (A : Type) :=
  | Rejected (error : string)
  | Responded (r : response A).
Arguments Rejected {A}.
Arguments Responded {A}.

(** The body of the [try] block of [fetchJson]: the value it returns, or
    the error it throws. *)
Definition attempt {A} (r : reply A) : string + A :=
  match r with
  | Rejected error => inl error
  | Responded response =>
      if negb (ok response)
      then inl (integerToString (status response) +:+ " " +:+ statusText response)
      else json response
  end.

(** How an asynchronous call ends; [Throws None] is [throw null]. *)
Inductive outcome (A : Type) :=
  | Returns (value : A)
  | Throws (error : option string).
Arguments Returns {A}.
Arguments Throws {A}.

Record fetchRun (A : Type) := FetchRun {
  outcome_of : outcome A;
  requests : nat;
  sleeps : list Z
}.
Arguments FetchRun {A}.
Arguments outcome_of {A}.
Arguments requests {A}.
Arguments sleeps {A}.

(** The loop of [fetchJson] from the counter [i] on, with [todo] turns
    left before [i] reaches [retries]. *)
Fixpoint fetchJsonFrom {A} (replies : nat → reply A) (i todo : nat)
    (lastError : option string) (slept : list Z) : fetchRun A :=
  match todo with
  | O => FetchRun (Throws lastError) i slept
  | S todo' =>
      match attempt (replies i) with
      | inr value => FetchRun (Returns value) (S i) slept
      | inl error =>
          fetchJsonFrom replies (S i) todo' (Some error)
            (slept ++ [(Z.of_nat i + 1) * 120])
      end
  end.

Definition fetchJson {A} (replies : nat → reply A) (retries : nat) : fetchRun A :=
  fetchJsonFrom replies 0 retries None [].

(** ** Event ids *)

Record scheduleEvent := ScheduleEvent { event_id : option string }.

(** The schedule of one season: [events] is missing when the field is not
    an array.  As for the summaries, a schedule is read at the type the feed
    gives it: an object whose events are objects. *)
Record schedule := Schedule { schedule_events : option (list scheduleEvent) }.

(** [Boolean(x)] for a text that may be missing. *)
Definition truthy (x : option string) : bool :=
  match x with
  | Some s => negb (isEmpty s)
  | None => false
  end.

(** [events.map((event) => event.id).filter(Boolean)]. *)
Definition eventIds (data : schedule) : list (option string) :=
  List.filter truthy (List.map event_id (default [] (schedule_events data))).

Definition fetchSeasonEventIds (replies : nat → reply schedule)
    : outcome (list (option string)) :=
  match outcome_of (fetchJson replies 3) with
  | Returns data => Returns (eventIds data)
  | Throws error => Throws error
  end.

(** [String(id)]. *)
Definition textOf (id : option string) : string :=
  match id with
  | Some s => s
  | None => "undefined"
  end.

(** [allIds.add(String(id))]: a [Set] keeps its elements in the order of
    their first insertion, which is the order [Array.from] reads them in. *)
Definition addId (allIds : list string) (id : option string) : list string :=
  if existsb (String.eqb (textOf id)) allIds then allIds
  else allIds ++ [textOf id].

(** [for (let season = START_SEASON; season <= CURRENT_YEAR; season += 1)]. *)
Fixpoint seasonsFrom (season : Z) (count : nat) : list Z :=
  match count with
  | O => []
  | S count' => season :: seasonsFrom (season + 1) count'
  end.

Definition seasonRequests (currentYear : Z) : list (Z * Z) :=
  flat_map (λ season, [(season, 2); (season, 3)])
    (seasonsFrom 1995 (Z.to_nat (currentYear - 1995 + 1))).

(** One turn of the inner loop: the ids of a schedule are added, and a
    schedule that could not be fetched is skipped. *)
Definition addSeason (schedules : Z → Z → nat → reply schedule)
    (allIds : list string) (request : Z * Z) : list string :=
  let '(season, seasonType) := request in
  match fetchSeasonEventIds (schedules season seasonType) with
  | Returns ids => fold_left addId ids allIds
  | Throws _ => allIds
  end.

Definition collectIds (currentYear : Z) (schedules : Z → Z → nat → reply schedule)
    : list string :=
  fold_left (addSeason schedules) (seasonRequests currentYear) [].

Section Script.
Context `{Host}.

(** [(a, b) => Number(a) - Number(b)]; a comparator that returns [NaN]
    is read as returning zero. *)
Definition byNumber (a b : string) : comparison :=
  match toNumber a, toNumber b with
  | Some x, Some y => (x ?= y)%Q
  | _, _ => Eq
  end.

Definition orderedIds (currentYear : Z) (schedules : Z → Z → nat → reply schedule)
    : list string :=
  sortBy byNumber (collectIds currentYear schedules).

(** [await fetchJson(...)] inside the [try] block of the second loop. *)
Definition fetchSummary (replies : nat → reply summary) : fetched :=
  match outcome_of (fetchJson replies 3) with
  | Returns s => Fetched s
  | Throws _ => FetchFailed
  end.

(** The script from the replies of the network to the entries written. *)
Definition script (currentYear : Z) (schedules : Z → Z → nat → reply schedule)
    (summaries : string → nat → reply summary) : list entry :=
  main (List.map (λ eventId, fetchSummary (summaries eventId))
          (orderedIds currentYear schedules)).

End Script.
(** * Notions used to state the properties *)

Definition allDigits (s : string) : bool :=
  forallb isDigit (list_ascii_of_string s).

Definition hasDigit (s : string) : bool :=
  existsb isDigit (list_ascii_of_string s).

Definition isBlank (s : string) : bool :=
  forallb Ascii.is_space (list_ascii_of_string s).

(** The shape [\d+:\d{1,2}(\.\d+)?] of a whole text. *)
Definition DisplayClock (s : string) : Prop :=
  ∃ m ss frac,
    s = m +:+ ":" +:+ ss +:+ frac
    ∧ allDigits m = true ∧ m ≠ ""
    ∧ allDigits ss = true ∧ (1 ≤ String.length ss ≤ 2)%nat
    ∧ (frac = "" ∨ ∃ f, frac = "." +:+ f ∧ allDigits f = true ∧ f ≠ "").

(** An occurrence of [\d:\d\d] inside a text. *)
Definition TextClock (s : string) : Prop :=
  ∃ pre a b c post,
    s = pre +:+ String a (String ":" (String b (String c post)))
    ∧ isDigit a = true ∧ isDigit b = true ∧ isDigit c = true.


(** The store as the loop over the athletes finds it after the rows
    [before]. *)
Definition storeAfterRows `{Host} (s : summary) (ctx : context) (seasonKey : string)
    (labels : list string) (before : list athleteRow) (store : gmap string average)
    : gmap string average :=
  snd (fold_left (playerRowStep s ctx seasonKey labels) before ([], store)).



(** Both sides of the game can be found among the competitors. *)
Definition Resolvable (s : summary) : Prop :=
  (∃ c, In c (competitors (firstCompetition s)) ∧ competitorTeamId c = PACERS_TEAM_ID)
  ∧ (∃ c, In c (competitors (firstCompetition s)) ∧ competitorTeamId c ≠ PACERS_TEAM_ID).

(** The field shape of an entry: the trauma flag goes with the TRAUMA
    category, and the trauma level is present exactly on flagged entries. *)
Definition shapeOk (e : entry) : Prop :=
  (trauma e = true ↔ category e = "TRAUMA")
  ∧ (is_Some (trauma_level e) ↔ trauma e = true).

(** What one boxscore row records: the key it is filed under and its
    points. *)
Definition rowRecord (seasonKey : string) (labels : list string) (row : athleteRow)
    : string * Q :=
  (avgKeyOf seasonKey (line_name (readRow row labels)), line_points (readRow row labels)).

Definition boxscoreLabels (s : summary) : list string :=
  match pacersPlayerBlock s with
  | Some block => List.map toUpperCase (labels (pacersStatGroup block))
  | None => []
  end.

Definition boxscoreRows (s : summary) : list athleteRow :=
  match pacersPlayerBlock s with
  | Some block => athletes (pacersStatGroup block)
  | None => []
  end.

(** The rows of a game that the loop processes, in boxscore order; none for
    a failed fetch and for a skipped game. *)
Definition gameRows `{Host} (f : fetched) : list (string * Q) :=
  match f with
  | FetchFailed => []
  | Fetched s =>
      match collectPacersTeamContext s with
      | None => []
      | Some ctx =>
          if dateSkipped ctx then []
          else List.map (rowRecord (seasonKeyOf ctx) (boxscoreLabels s)) (boxscoreRows s)
      end
  end.

Definition rowsOf `{Host} (fetches : list fetched) : list (string * Q) :=
  List.flat_map gameRows fetches.

(** The count and the point sum of the rows filed under a key; no record
    when there is no such row. *)
Definition tallyOf (rows : list (string * Q)) (key : string) : option average :=
  match List.filter (λ kv, String.eqb (fst kv) key) rows with
  | [] => None
  | mine =>
      Some {| games := Z.of_nat (List.length mine);
              points := fold_left Qplus (List.map snd mine) 0%Q |}
  end.

(** The entries the player classifier owes for the rows [rows] when each
    row is judged against the tally of the rows strictly before it. *)
Fixpoint eventsAgainst `{Host} (s : summary) (ctx : context) (seasonKey : string)
    (labels : list string) (prior : list (string * Q)) (rows : list athleteRow)
    : list entry :=
  match rows with
  | [] => []
  | row :: rest =>
      let r := readRow row labels in
      rowEvents s ctx r
        (default (Average 0 0) (tallyOf prior (avgKeyOf seasonKey (line_name r))))
      ++ eventsAgainst s ctx seasonKey labels (prior ++ [rowRecord seasonKey labels row]) rest
  end.

(** The game lists a row under the key. *)
Definition listsKey `{Host} (key : string) (f : fetched) : bool :=
  existsb (λ kv, String.eqb (fst kv) key) (gameRows f).

(** The store after filing the given rows, one after the other. *)
Definition recordRows (store : gmap string average) (rows : list (string * Q))
    : gmap string average :=
  fold_left (λ st kv, <[fst kv := recordGame (averageOf st (fst kv)) (snd kv)]> st)
    rows store.

(** The comparator of the runtime is consistent: the order it induces on
    texts is total and transitive.  This is what [Array.prototype.sort]
    asks of a comparator for its result to be defined. *)
Class ConsistentCollation `{Host} : Prop := {
  collation_total : ∀ x y, localeCompare x y ≠ Gt ∨ localeCompare y x ≠ Gt;
  collation_trans : ∀ x y z,
    localeCompare x y ≠ Gt → localeCompare y z ≠ Gt → localeCompare x z ≠ Gt
}.

(** [a] may stand before [b] in a list sorted by a comparator. *)
Definition mayPrecede {A} (cmp : A → A → comparison) (a b : A) : Prop := cmp a b ≠ Gt.

(** Every entry has a date at least as late as that of every entry after
    it. *)
Definition DateDescending `{Host} (l : list entry) : Prop :=
  StronglySorted (λ a b, localeCompare (date b) (date a) ≠ Gt) l.

(** No two entries share the tuple of date, opponent, player, category and
    rationale. *)
Definition Deduplicated (l : list entry) : Prop :=
  List.NoDup (List.map entryKey l).

(** The entries [dedupeEntries] keeps from a list when the keys [seen] have
    been met before: the first occurrence of every new key. *)
Fixpoint keptFrom (seen : gset string) (l : list entry) : list entry :=
  match l with
  | [] => []
  | e :: rest =>
      if decide (entryKey e ∈ seen) then keptFrom seen rest
      else e :: keptFrom ({[entryKey e]} ∪ seen) rest
  end.

Definition hasColon (s : string) : bool :=
  existsb (Ascii.eqb ":") (list_ascii_of_string s).

(** ** Notions used by the further properties *)

Definition hasMinus (s : string) : bool :=
  existsb (Ascii.eqb "-") (list_ascii_of_string s).

Definition noSpace (s : string) : bool :=
  forallb (λ c, negb (Ascii.is_space c)) (list_ascii_of_string s).

(** The value of a text of decimal digits. *)
Definition digitsNumber (d : string) : Q := inject_Z (digitsValue 0 d).

(** A text does not go on with a digit, nor with a point. *)
Definition endsNumber (rest : string) : bool :=
  match rest with
  | EmptyString => true
  | String c _ => negb (isDigit c) && negb (Ascii.eqb c ".")
  end.

(** The two leads the peak-lead loop reads off one win-probability sample:
    the score differential in the team's favour and the lead implied by the
    win probability. *)
Definition sampleEdge (pacersHome : bool) (wp : winProbability) : Q :=
  let diff := (numberOr0 (homeScore wp) - numberOr0 (awayScore wp))%Q in
  if pacersHome then diff else (- diff)%Q.

Definition sampleImplied (pacersHome : bool) (wp : winProbability) : Q :=
  let homeWin := numberOr0 (homeWinPercentage wp) in
  if pacersHome then mathRound ((homeWin - (1 # 2)) * 40)
  else mathRound (((1 - homeWin) - (1 # 2)) * 40).

Definition pacersAtHome (ctx : context) : bool :=
  String.eqb (toLowerCase (orEmpty (comp_homeAway (pacersComp ctx)))) "home".

(** What the three classifiers return for one game, in the order in which
    the loop appends it. *)
Definition gameEntries `{Host} (s : summary) (ctx : context)
    (store : gmap string average) : list entry :=
  fst (detectPlayerMoments s ctx store (seasonKeyOf ctx))
  ++ detectTeamWeirdness s ctx ++ detectTrauma s ctx.

(** An entry as a classifier builds it for a game: a base entry of one of
    the three plain categories, or the trauma upgrade of a base entry. *)
Definition builtFor `{Host} (s : summary) (ctx : context) (e : entry) : Prop :=
  (∃ p statLine tag why,
     e = createBaseEntry ctx s p statLine tag why
     ∧ (tag = "RANDOM_EXPLOSION" ∨ tag = "CHAOS" ∨ tag = "TEAM_WEIRDNESS"))
  ∨ (∃ p statLine tag why reason,
       e = traumaify (createBaseEntry ctx s p statLine tag why) reason).

(** The game-level fields of an entry are those of the context. *)
Definition carriesGame `{Host} (ctx : context) (e : entry) : Prop :=
  date e = gameDateOf ctx ∧ season e = seasonKeyOf ctx
  ∧ opponent e = ctx_opponent ctx ∧ homeAway e = ctx_homeAway ctx
  ∧ result e = ctx_result ctx ∧ playoffs e = ctx_playoffs ctx.

(** The fields every consumer of the corpus can rely on. *)
Definition wellFormed (e : entry) : Prop :=
  date e ≠ ""
  ∧ (category e = "RANDOM_EXPLOSION" ∨ category e = "CHAOS"
     ∨ category e = "TEAM_WEIRDNESS" ∨ category e = "TRAUMA")
  ∧ (homeAway e = "HOME" ∨ homeAway e = "AWAY")
  ∧ player e ≠ "" ∧ image e ≠ "".

(** The game is neither a failed fetch nor skipped by the loop. *)
Definition isProcessed `{Host} (f : fetched) : bool :=
  match f with
  | FetchFailed => false
  | Fetched s =>
      match collectPacersTeamContext s with
      | Some ctx => negb (dateSkipped ctx)
      | None => false
      end
  end.

(** The pauses after the failed attempts [i], [i + 1], ..., [i + n - 1]. *)
Definition backoff (i n : nat) : list Z :=
  List.map (λ k, (Z.of_nat k + 1) * 120) (List.seq i n).

Definition totalSleep (pauses : list Z) : Z := fold_right Z.add 0 pauses.

(** The error an attempt throws, if it throws. *)
Definition thrownBy {A} (r : reply A) : option string :=
  match attempt r with
  | inl error => Some error
  | inr _ => None
  end.

(** The stat a key is bound to by the loop over the labels from position
    [i] on: that of the last label whose upper-case form is the key. *)
Fixpoint lastBinding (stats labels : list string) (i : nat) (key : string)
    : option (option string) :=
  match labels with
  | [] => None
  | label :: rest =>
      match lastBinding stats rest (S i) key with
      | Some bound => Some bound
      | None => if String.eqb (toUpperCase label) key then Some (stats !! i) else None
      end
  end.

(** The numeric value of an event id, zero when it has none. *)
Definition idNumber `{Host} (id : string) : Q := numberOr0 (toNumber id).

(** The entries whose key differs from that of [e]. *)
Definition otherKey (e x : entry) : bool :=
  negb (String.eqb (entryKey x) (entryKey e)).

(** A token that starts with a digit. *)
Definition digitHead (tok : string) : Prop :=
  ∃ c t, tok = String c t ∧ isDigit c = true.

(** The fixed parts of an entry of the team classifier. *)
Definition teamEntry `{Host} (ctx : context) (e : entry) : Prop :=
  category e = "TEAM_WEIRDNESS" ∧ player e = "Team Event"
  ∧ stat_line e = teamStatLine ctx ∧ trauma e = false.

(** An id is contributed by the request for a season when the schedule was
    fetched and lists the id. *)
Definition contributes (schedules : Z → Z → nat → reply schedule)
    (request : Z * Z) (id : string) : Prop :=
  ∃ data,
    outcome_of (fetchJson (schedules request.1 request.2) 3) = Returns data
    ∧ In id (List.map textOf (eventIds data)).

(** The comparator on ids that are all numeric. *)
Definition byIdNumber `{Host} (a b : string) : comparison :=
  (idNumber a ?= idNumber b)%Q.

(** * Sample games

    Concrete summaries on which the definitions are evaluated with the
    reference host. *)

Definition indiana (score : Q) (winner : bool) : competitor :=
  Competitor (Some (TeamInfo (Some "11") (Some "IND") [] None))
    (Some score) (Some winner) (Some "home").

Definition visitor (id abbr : string) (score : Q) (winner : bool) : competitor :=
  Competitor (Some (TeamInfo (Some id) (Some abbr) [] None))
    (Some score) (Some winner) (Some "away").

Definition blankContext : context :=
  Context emptyCompetition (indiana 0 false) (visitor "0" "UNK" 0 false)
    0 0 false "AWAY" "UNK" "" false.

Definition contextOf (s : summary) : context :=
  default blankContext (collectPacersTeamContext (H := refHost) s).

(** A regular-season home win in which a starter scores 26 points in 20
    minutes and 10 seconds. *)
Definition quickScorerRow : athleteRow :=
  AthleteRow (Some "Reserve Guard") (Some "77") ["20:10"; "26"] (Some true).

Definition quickScorerBlock : playerBlock :=
  PlayerBlock (Some "11") [StatGroup ["MIN"; "PTS"] [quickScorerRow]].

Definition quickScorerGame : summary :=
  Summary [Competition [indiana 110 true; visitor "4" "CHI" 100 false]
             (Some "2024-01-10T00:00Z") (Some "Final") []]
    (Some 2%Q) [quickScorerBlock] [] [] [].

(** The same game with 0 minutes recorded for the 26 points. *)
Definition zeroMinuteRow : athleteRow :=
  AthleteRow (Some "Reserve Guard") (Some "77") ["0"; "26"] (Some true).

Definition zeroMinuteGame : summary :=
  Summary [Competition [indiana 110 true; visitor "4" "CHI" 100 false]
             (Some "2024-01-10T00:00Z") (Some "Final") []]
    (Some 2%Q) [PlayerBlock (Some "11") [StatGroup ["MIN"; "PTS"] [zeroMinuteRow]]]
    [] [] [].

(** A home win with the given text as the team's field-goal percentage. *)
Definition shootingGame (pct : string) : summary :=
  Summary [Competition [indiana 90 true; visitor "4" "CHI" 88 false]
             (Some "2024-01-12T00:00Z") (Some "Final") []]
    (Some 2%Q) []
    [TeamRow (Some "11") [TeamStat (Some "fieldGoalPct") (Some "Field Goal Pct")
                            (Some pct) None]]
    [] [].

(** A playoff home loss whose status detail names Game 7, with a win
    probability sample that implies a lead of 20, and the given series
    block. *)
Definition game7Loss_game (playoffSeries : list seriesEntry) : summary :=
  Summary [Competition [indiana 101 false; visitor "2" "BOS" 110 true]
             (Some "2024-05-19T00:00Z") (Some "Final - Game 7") playoffSeries]
    (Some 3%Q) [] [] [WinProbability (Some (99 # 100)) None None] [].

Definition decidedSeries : list seriesEntry :=
  [SeriesEntry (Some "playoff") (Some "BOS wins series 4-3") (Some "East Semifinals") None].

(** A game with one competitor only. *)
Definition oneSidedGame : summary :=
  Summary [Competition [indiana 110 true] (Some "2024-01-10T00:00Z") (Some "Final") []]
    (Some 2%Q) [quickScorerBlock] [] [] [].

(** A game whose boxscore has two rows without a display name, 10 points
    each. *)
Definition namelessRow : athleteRow := AthleteRow None None ["10"] (Some true).

Definition twoNamelessGame : summary :=
  Summary [Competition [indiana 110 true; visitor "4" "CHI" 100 false]
             (Some "2024-01-10T00:00Z") (Some "Final") []]
    (Some 2%Q) [PlayerBlock (Some "11") [StatGroup ["PTS"] [namelessRow; namelessRow]]]
    [] [] [].

(** The candidates of a short run: a fetch that failed between two games
    that were processed. *)
Definition sampleFetches : list fetched :=
  [Fetched quickScorerGame; FetchFailed; Fetched (game7Loss_game decidedSeries)].

Definition sampleCandidates : list entry :=
  collected (traverse (H := refHost) sampleFetches).

Definition blankEntry : entry :=
  Entry "" "" "" "" "" false "" "" "" false None "" "".


Definition sampleExplosion : entry := List.nth 0 sampleCandidates blankEntry.
Definition sampleTrauma : entry := List.nth 2 sampleCandidates blankEntry.

(** A pool of 401 candidates, one more than the cap: candidate [i] is dated
    [10000 + i] and has the stat line "[i] pts". *)
Definition numbered (i : nat) : entry :=
  Entry (integerToString (10000 + Z.of_nat i)) "2023-24" "CHI" "HOME" "W 1-0" false
    "Team Event" (integerToString (Z.of_nat i) +:+ " pts, opp 0 pts") "TEAM_WEIRDNESS"
    false None "Allowed 150+. Historical nonsense occurred." PACERS_LOGO_URL.

Definition crowdedCandidates : list entry := List.map numbered (List.seq 0 401).

(** A list of texts has no repetition. *)
Fixpoint distinctb (l : list string) : bool :=
  match l with
  | [] => true
  | x :: rest => negb (existsb (String.eqb x) rest) && distinctb rest
  end.

(** A summary that is served at the second request, and a service that is
    down. *)
Definition secondTry (k : nat) : reply summary :=
  match k with
  | O => Rejected "socket hang up"
  | S _ => Responded (Response true 200 "OK" (inr quickScorerGame))
  end.

Definition neverUp {A} (k : nat) : reply A :=
  Responded (Response false 503 "Service Unavailable" (inl "Unexpected token")).

(** A network on which only the regular season of 1996 has a schedule:
    three games, listed out of order, one of them twice, between an event
    without an id and an event with an empty one. *)
Definition oneSeason (season seasonType : Z) (k : nat) : reply schedule :=
  if (season =? 1996) && (seasonType =? 2)
  then Responded (Response true 200 "OK"
         (inr (Schedule (Some [ScheduleEvent (Some "960215011");
                               ScheduleEvent None;
                               ScheduleEvent (Some "960103011");
                               ScheduleEvent (Some "");
                               ScheduleEvent (Some "960215011");
                               ScheduleEvent (Some "960120011")]))))
  else neverUp k.

(** A boxscore row with three stats. *)
Definition sampleRow : athleteRow :=
  AthleteRow (Some "Reserve Guard") (Some "4567") ["28"; "30"; "31"] (Some false).
(** * Properties *)

(** ** The parsers on sample inputs *)

Example parse_pts : parseNumberFromStat (Some "34") = 34%Q.
Proof. reflexivity. Qed.
Example parse_made : parseNumberFromStat (Some "10-20") = 10%Q.
Proof. reflexivity. Qed.
Example parse_neg : Qeq_bool (parseNumberFromStat (Some "x-3.50y")) (-7 # 2) = true.
Proof. reflexivity. Qed.
Example minutes_colon : Qeq_bool (parseMinutes (Some " 24:30 ")) (49 # 2) = true.
Proof. reflexivity. Qed.
Example minutes_iso : Qeq_bool (parseMinutes (Some "pt12m30.0s")) (25 # 2) = true.
Proof. reflexivity. Qed.
Example clock_text :
  parseClockToSeconds (Some (Play None (Some "Smith makes 3 at 0:02.5")))
  = Seconds (NumberOf "0" * 60 + NumberOf "02" + NumberOf "0.5")%Q.
Proof. reflexivity. Qed.

(** ** Text *)

Lemma isEmpty_true s : isEmpty s = true ↔ s = "".
Proof. destruct s; simpl; split; congruence. Qed.

Lemma isEmpty_false s : isEmpty s = false ↔ s ≠ "".
Proof. destruct s; simpl; split; congruence. Qed.

Lemma isEmpty_app s t : isEmpty (s +:+ t) = isEmpty s && isEmpty t.
Proof. destruct s; reflexivity. Qed.

Lemma append_empty_r s : s +:+ "" = s.
Proof.
  induction s as [|c s IH]; [reflexivity|].
  change (String c (s +:+ "") = String c s). now rewrite IH.
Qed.

Lemma takeDigits_spec s d r :
  takeDigits s = (d, r) → s = d +:+ r ∧ allDigits d = true.
Proof.
  revert d r. induction s as [|c s IH]; intros d r; simpl.
  - intros [= <- <-]. split; reflexivity.
  - destruct (isDigit c) eqn:Hc.
    + destruct (takeDigits s) as [d' t]. intros [= <- <-].
      destruct (IH d' t eq_refl) as [-> Hd]. split; [reflexivity|].
      unfold allDigits. simpl. rewrite Hc. exact Hd.
    + intros [= <- <-]. split; reflexivity.
Qed.

Lemma takeDigits_nodigit s :
  hasDigit s = false → takeDigits s = ("", s).
Proof.
  destruct s as [|c s]; [reflexivity|].
  unfold hasDigit. simpl. intros [Hc _]%orb_false_iff. rewrite Hc. reflexivity.
Qed.

Lemma takeDecimal_nodigit s : hasDigit s = false → takeDecimal s = None.
Proof.
  intros Hs. unfold takeDecimal. rewrite (takeDigits_nodigit s Hs). reflexivity.
Qed.

Lemma hasDigit_tail c s : hasDigit (String c s) = false → hasDigit s = false.
Proof. unfold hasDigit. simpl. intros [_ Hs]%orb_false_iff. exact Hs. Qed.

Lemma matchNumber_nodigit s : hasDigit s = false → matchNumber s = None.
Proof.
  induction s as [|c s IH]; [reflexivity|]. intros Hs.
  pose proof (hasDigit_tail c s Hs) as Ht. simpl matchNumber.
  rewrite (takeDecimal_nodigit _ Hs), (takeDecimal_nodigit _ Ht), (IH Ht).
  destruct (Ascii.eqb c "-"); reflexivity.
Qed.

(** Conversely, a text with a digit has a numeric token. *)
Lemma matchNumber_digit s : hasDigit s = true → is_Some (matchNumber s).
Proof.
  induction s as [|c s IH]; [discriminate|]. intros Hs. simpl matchNumber.
  destruct (if Ascii.eqb c "-" then takeDecimal s else None) as [[tok ?]|]; [eauto|].
  destruct (takeDecimal (String c s)) as [[tok ?]|] eqn:Hd; [eauto|].
  apply IH. unfold hasDigit in *. simpl in Hs.
  destruct (isDigit c) eqn:Hc; [|exact Hs].
  exfalso. unfold takeDecimal in Hd. simpl in Hd. rewrite Hc in Hd.
  destruct (takeDigits s) as [d t]. simpl in Hd.
  destruct t as [|a t]; [discriminate|].
  destruct (Ascii.eqb_spec a "."%char) as [->|Hne].
  - destruct (takeDigits t) as [f r3]. destruct (isEmpty f); discriminate.
  - destruct a as [[] [] [] [] [] [] [] []]; try discriminate; congruence.
Qed.

Lemma trimStart_blank s : isBlank s = true → trimStart s = "".
Proof.
  induction s as [|c s IH]; [reflexivity|]. unfold isBlank. simpl.
  intros [Hc Hs]%andb_true_iff. rewrite Hc. apply IH, Hs.
Qed.

Lemma trim_blank s : isBlank s = true → trim s = "".
Proof. intros Hs. unfold trim. rewrite (trimStart_blank s Hs). reflexivity. Qed.

Lemma matchColonClock_sound s g : matchColonClock s = Some g → DisplayClock s.
Proof.
  unfold matchColonClock.
  destruct (takeDigits s) as [m r] eqn:Hm.
  destruct (takeDigits_spec _ _ _ Hm) as [-> Hdm].
  destruct (isEmpty m) eqn:Hem; [discriminate|].
  apply isEmpty_false in Hem.
  destruct r as [|a r2]; [discriminate|].
  destruct (Ascii.eqb_spec a ":"%char) as [->|Hne];
    [|destruct a as [[] [] [] [] [] [] [] []]; try discriminate; congruence].
  destruct (takeDigits r2) as [ss r3] eqn:Hss.
  destruct (takeDigits_spec _ _ _ Hss) as [-> Hds].
  destruct ((1 <=? String.length ss)%nat && (String.length ss <=? 2)%nat) eqn:Hlen;
    [|discriminate].
  apply andb_true_iff in Hlen as [H1%Nat.leb_le H2%Nat.leb_le].
  destruct r3 as [|b r4].
  - intros _. exists m, ss, "". repeat split; auto.
  - destruct (Ascii.eqb_spec b "."%char) as [->|Hne];
      [|destruct b as [[] [] [] [] [] [] [] []]; try discriminate; congruence].
    destruct (takeDigits r4) as [f r5] eqn:Hf.
    destruct (takeDigits_spec _ _ _ Hf) as [-> Hdf].
    destruct (isEmpty f) eqn:Hef; [discriminate|]. apply isEmpty_false in Hef.
    destruct (isEmpty r5) eqn:Her; [|discriminate]. apply isEmpty_true in Her as ->.
    rewrite append_empty_r.
    intros _. exists m, ss, ("." +:+ f). repeat split; auto.
    right. exists f. repeat split; auto.
Qed.

Lemma matchTextClock_sound s g : matchTextClock s = Some g → TextClock s.
Proof.
  induction s as [|a r IH]; [discriminate|]. simpl.
  assert (Hrec : matchTextClock r = Some g → TextClock (String a r)).
  { intros Hr. destruct (IH Hr) as (pre & a' & b & c & post & -> & Ha & Hb & Hc).
    exists (String a pre), a', b, c, post. repeat split; auto. }
  destruct r as [|x r1]; [discriminate|].
  destruct (Ascii.eqb_spec x ":"%char) as [->|Hne];
    [|destruct x as [[] [] [] [] [] [] [] []]; try exact Hrec; congruence].
  destruct r1 as [|b [|c r']]; try exact Hrec.
  destruct (isDigit a && isDigit b && isDigit c) eqn:Hd; [|exact Hrec].
  apply andb_true_iff in Hd as [[Ha Hb]%andb_true_iff Hc].
  intros _. exists "", a, b, c, r'. repeat split; auto.
Qed.

Lemma takeDigits_app d r :
  allDigits d = true → takeDigits r = ("", r) → takeDigits (d +:+ r) = (d, r).
Proof.
  intros Hd Hr. induction d as [|c d IH]; [exact Hr|].
  unfold allDigits in Hd. simpl in Hd. apply andb_true_iff in Hd as [Hc Hd].
  change (String c d +:+ r) with (String c (d +:+ r)). simpl.
  rewrite Hc, (IH Hd). reflexivity.
Qed.

Lemma matchColonClock_complete s : DisplayClock s → is_Some (matchColonClock s).
Proof.
  intros (m & ss & frac & -> & Hm & Hne & Hss & Hlen & Hfrac).
  unfold matchColonClock.
  rewrite (takeDigits_app m (":" +:+ ss +:+ frac) Hm eq_refl).
  apply isEmpty_false in Hne. rewrite Hne.
  change (":" +:+ ss +:+ frac) with (String ":" (ss +:+ frac)). cbv iota beta.
  assert (Hlenb : ((1 <=? String.length ss)%nat && (String.length ss <=? 2)%nat) = true).
  { apply andb_true_iff. split; apply Nat.leb_le; lia. }
  destruct Hfrac as [->|(f & -> & Hf & Hfne)].
  - rewrite (takeDigits_app ss "" Hss eq_refl), Hlenb. eauto.
  - rewrite (takeDigits_app ss ("." +:+ f) Hss eq_refl), Hlenb.
    change ("." +:+ f) with (String "." f). cbv iota beta.
    rewrite <- (append_empty_r f) at 1.
    rewrite (takeDigits_app f "" Hf eq_refl).
    apply isEmpty_false in Hfne. rewrite Hfne. simpl. eauto.
Qed.

Lemma matchTextClock_complete s : TextClock s → is_Some (matchTextClock s).
Proof.
  intros (pre & a & b & c & post & -> & Ha & Hb & Hc).
  induction pre as [|x pre IH].
  - simpl. rewrite Ha, Hb, Hc. simpl. eauto.
  - change (String x pre +:+ ?t) with (String x (pre +:+ t)).
    remember (pre +:+ String a (String ":" (String b (String c post)))) as r eqn:Hr.
    clear Hr. simpl.
    destruct r as [|y r1]; [exact IH|].
    destruct (Ascii.eqb_spec y ":"%char) as [->|Hne];
      [|destruct y as [[] [] [] [] [] [] [] []]; try exact IH; congruence].
    destruct r1 as [|b' [|c' r']]; try exact IH.
    destruct (isDigit x && isDigit b' && isDigit c'); [eauto|exact IH].
Qed.

(** ** Stat parsing *)

(** C8.  The three stat-parsing functions are total functions with no
    failing outcome, and take their default on uninformative input:
    [parseNumberFromStat] is 0 on an absent value and on a text without a
    digit (a text has a decimal or integer token exactly when it has a digit,
    see [matchNumber_digit]); [parseMinutes] is 0 on an absent, empty or
    blank value; [parseClockToSeconds] is [Infinity] when the display clock
    is not of the clock shape and the description contains no clock. *)
Theorem stat_parsing_defaults :
  (∀ value, (value = None ∨ ∃ s, value = Some s ∧ hasDigit s = false) →
            parseNumberFromStat value = 0%Q)
  ∧ (∀ value, isBlank (orEmpty value) = true → parseMinutes value = 0%Q)
  ∧ (∀ p, ¬ DisplayClock (trim (orEmpty (clock_displayValue (default emptyPlay p)))) →
          ¬ TextClock (toLowerCase (orEmpty (play_text (default emptyPlay p)))) →
          parseClockToSeconds p = Infinity).
Proof.
  split; [|split].
  - intros value [->|(s & -> & Hs)]; [reflexivity|].
    unfold parseNumberFromStat. rewrite (matchNumber_nodigit s Hs). reflexivity.
  - intros value Hb. unfold parseMinutes. rewrite (trim_blank _ Hb). reflexivity.
  - intros p Hd Ht. unfold parseClockToSeconds.
    destruct (matchColonClock _) as [g|] eqn:Hg.
    { exfalso. apply Hd. eapply matchColonClock_sound, Hg. }
    destruct (matchTextClock _) as [g|] eqn:Hg'; [|reflexivity].
    exfalso. apply Ht. eapply matchTextClock_sound, Hg'.
Qed.

Lemma stat_parsing_defaults_witness :
  parseNumberFromStat (Some "DNP") = 0%Q
  ∧ parseMinutes (Some "  ") = 0%Q
  ∧ parseClockToSeconds (Some (Play (Some "End of 4th") (Some "Smith makes layup")))
    = Infinity.
Proof.
  destruct stat_parsing_defaults as (H1 & H2 & H3).
  split; [|split].
  - apply H1. right. exists "DNP". split; reflexivity.
  - apply H2. reflexivity.
  - apply H3.
    + intros Hc%matchColonClock_complete. destruct Hc as [g Hg]. discriminate Hg.
    + intros Hc%matchTextClock_complete. destruct Hc as [g Hg]. discriminate Hg.
Defined.

(** ** Comparisons *)

Lemma Qgeb_spec x y : Qgeb x y = true ↔ (y <= x)%Q.
Proof. apply Qle_bool_iff. Qed.

Lemma Qltb_spec x y : Qltb x y = true ↔ (x < y)%Q.
Proof.
  unfold Qltb. rewrite negb_true_iff. split.
  - intros Hf. apply Qnot_le_lt. intros Hle. apply Qle_bool_iff in Hle. congruence.
  - intros Hlt. destruct (Qle_bool y x) eqn:Hb; [|reflexivity].
    apply Qle_bool_iff in Hb. exfalso. exact (Qlt_not_le _ _ Hlt Hb).
Qed.

Lemma Qgtb_spec x y : Qgtb x y = true ↔ (y < x)%Q.
Proof. apply Qltb_spec. Qed.

Lemma Qgeb_false x y : Qgeb x y = false ↔ ¬ (y <= x)%Q.
Proof. rewrite <- Qgeb_spec. destruct (Qgeb x y); split; congruence. Qed.

Lemma Qltb_false x y : Qltb x y = false ↔ ¬ (x < y)%Q.
Proof. rewrite <- Qltb_spec. destruct (Qltb x y); split; congruence. Qed.

Lemma orElse_nonempty x d : d ≠ "" → isEmpty (orElse x d) = false.
Proof.
  intros Hd. unfold orElse. destruct x as [s|]; [destruct (isEmpty s) eqn:Hs|];
    try assumption; apply isEmpty_false, Hd.
Qed.

(** ** Player classifier *)

Section PlayerClassifier.
Context `{Host}.
Variables (s : summary) (ctx : context) (seasonKey : string) (labels : list string).

Lemma playerRowStep_events events store row :
  fst (playerRowStep s ctx seasonKey labels (events, store) row)
  = events ++ rowEvents s ctx (readRow row labels)
                (averageOf store (avgKeyOf seasonKey (line_name (readRow row labels)))).
Proof. reflexivity. Qed.

Lemma playerRowStep_store events store row :
  snd (playerRowStep s ctx seasonKey labels (events, store) row)
  = <[avgKeyOf seasonKey (line_name (readRow row labels)) :=
        recordGame (averageOf store (avgKeyOf seasonKey (line_name (readRow row labels))))
          (line_points (readRow row labels))]> store.
Proof. reflexivity. Qed.

Lemma playerRows_events_grow rows events store :
  ∃ more,
    fst (fold_left (playerRowStep s ctx seasonKey labels) rows (events, store))
    = events ++ more.
Proof.
  revert events store. induction rows as [|row rows IH]; intros events store.
  - exists []. symmetry. apply app_nil_r.
  - cbn [fold_left].
    destruct (playerRowStep s ctx seasonKey labels (events, store) row)
      as [events' store'] eqn:Hstep.
    apply (f_equal fst) in Hstep. rewrite playerRowStep_events in Hstep.
    cbn [fst] in Hstep. subst events'.
    destruct (IH (events ++ rowEvents s ctx (readRow row labels)
                    (averageOf store (avgKeyOf seasonKey (line_name (readRow row labels)))))
                 store') as [more Hmore].
    rewrite Hmore, <- app_assoc. eauto.
Qed.

Lemma playerRows_row_events before row after store e :
  In e (rowEvents s ctx (readRow row labels)
          (averageOf (storeAfterRows s ctx seasonKey labels before store)
             (avgKeyOf seasonKey (line_name (readRow row labels))))) →
  In e (fst (fold_left (playerRowStep s ctx seasonKey labels)
               (before ++ row :: after) ([], store))).
Proof.
  intros He. rewrite fold_left_app. unfold storeAfterRows in He.
  destruct (fold_left _ before ([], store)) as [events store'] eqn:Hb.
  cbn [snd] in He. cbn [fold_left].
  destruct (playerRowStep s ctx seasonKey labels (events, store') row)
    as [events' store''] eqn:Hstep.
  apply (f_equal fst) in Hstep. rewrite playerRowStep_events in Hstep.
  cbn [fst] in Hstep. subst events'.
  destruct (playerRows_events_grow after
              (events ++ rowEvents s ctx (readRow row labels)
                 (averageOf store' (avgKeyOf seasonKey (line_name (readRow row labels)))))
              store'') as [more Hmore].
  rewrite Hmore. apply in_or_app. left. apply in_or_app. right. exact He.
Qed.

End PlayerClassifier.

Lemma readRow_name_nonempty row labels : isEmpty (line_name (readRow row labels)) = false.
Proof. apply orElse_nonempty. discriminate. Qed.

Section Eruption.
Context `{Host}.

(** C5, as the code has it.  An athlete of a processed game who scores at
    least 25 points in more than 0 and fewer than 25 minutes, and matches
    none of the three explosion rules of higher priority, gets a
    RANDOM_EXPLOSION entry with the "scored .. in .. minutes" rationale.
    The average of the third rule is the one read from the store when the
    loop reaches the athlete's row. *)
Theorem efficient_eruption_emitted
    (s : summary) (ctx : context) (store : gmap string average) (seasonKey : string)
    (block : playerBlock) (before : list athleteRow) (row : athleteRow)
    (after : list athleteRow) :
  pacersPlayerBlock s = Some block →
  athletes (pacersStatGroup block) = before ++ row :: after →
  let labels := List.map toUpperCase (labels (pacersStatGroup block)) in
  let r := readRow row labels in
  let avg := averageOf (storeAfterRows s ctx seasonKey labels before store)
               (avgKeyOf seasonKey (line_name r)) in
  (25 <= line_points r)%Q →
  (0 < line_minutes r)%Q → (line_minutes r < 25)%Q →
  ¬ (line_isBench r = true ∧ (30 <= line_points r)%Q) →
  ¬ (45 <= line_points r)%Q →
  ¬ ((35 <= line_points r)%Q ∧ (preGameAverageOf avg < 12)%Q ∧ 8 ≤ games avg) →
  In (createBaseEntry ctx s (line_player r) (statLineOf r) "RANDOM_EXPLOSION"
        (line_name r +:+ " scored " +:+ numberToString (line_points r) +:+ " in "
         +:+ toFixed1 (line_minutes r) +:+ " minutes."))
     (fst (detectPlayerMoments s ctx store seasonKey)).
Proof.
  intros Hblock Hrows labels0 r avg Hpts Hmin0 Hmin25 Hbench Horbital Hbreakout.
  unfold detectPlayerMoments. rewrite Hblock. cbv zeta. rewrite Hrows.
  apply playerRows_row_events. fold labels0 r avg.
  assert (Hwhy : randomWhyOf r avg
                 = line_name r +:+ " scored " +:+ numberToString (line_points r)
                   +:+ " in " +:+ toFixed1 (line_minutes r) +:+ " minutes.").
  { unfold randomWhyOf.
    destruct (line_isBench r && Qgeb (line_points r) 30) eqn:H1.
    { exfalso. apply Hbench. apply andb_true_iff in H1 as [? ?%Qgeb_spec]. auto. }
    destruct (Qgeb (line_points r) 45) eqn:H2.
    { exfalso. apply Horbital, Qgeb_spec, H2. }
    destruct (Qgeb (line_points r) 35 && Qltb (preGameAverageOf avg) 12
              && (8 <=? games avg)) eqn:H3.
    { exfalso. apply Hbreakout.
      apply andb_true_iff in H3 as [[?%Qgeb_spec ?%Qltb_spec]%andb_true_iff ?%Z.leb_le].
      auto. }
    apply Qgeb_spec in Hpts. apply Qgtb_spec in Hmin0. apply Qltb_spec in Hmin25.
    rewrite Hpts, Hmin0, Hmin25. reflexivity. }
  unfold rowEvents. rewrite Hwhy.
  assert (Hname : isEmpty (line_name r) = false) by apply readRow_name_nonempty.
  rewrite isEmpty_app, Hname. cbn [andb negb].
  apply in_or_app. left. left. reflexivity.
Qed.

End Eruption.

Ltac Qcheck :=
  match goal with
  | |- (_ <= _)%Q => apply Qle_bool_iff; reflexivity
  | |- (_ < _)%Q => apply Qltb_spec; reflexivity
  | |- ¬ (_ <= _)%Q => apply Qgeb_false; reflexivity
  | |- ¬ (_ < _)%Q => apply Qltb_false; reflexivity
  end.

Lemma efficient_eruption_witness :
  In (createBaseEntry (H := refHost) (contextOf quickScorerGame) quickScorerGame
        (PlayerRef "Reserve Guard" "77") "26 pts, 0 reb, 0 ast" "RANDOM_EXPLOSION"
        "Reserve Guard scored 26 in 20.2 minutes.")
     (fst (detectPlayerMoments (H := refHost) quickScorerGame (contextOf quickScorerGame)
             ∅ "2023-24")).
Proof.
  apply (efficient_eruption_emitted (H := refHost) quickScorerGame
           (contextOf quickScorerGame) ∅ "2023-24" quickScorerBlock [] quickScorerRow []).
  - reflexivity.
  - reflexivity.
  - Qcheck.
  - Qcheck.
  - Qcheck.
  - intros [Hbench _]. discriminate Hbench.
  - Qcheck.
  - intros [Hpts _]. apply Qgeb_spec in Hpts. discriminate Hpts.
Defined.

(** C5, as the specification words it, fails: the athlete of [zeroMinuteGame]
    scores 26 points in 0 minutes, which is under 25, matches none of the
    three higher rules, and the processed game yields no entry at all. *)
Lemma efficient_eruption_counterexample :
  let r := readRow zeroMinuteRow ["MIN"; "PTS"] in
  ((25 <= line_points r)%Q ∧ (line_minutes r < 25)%Q
   ∧ line_isBench r = false ∧ ¬ (45 <= line_points r)%Q ∧ ¬ (35 <= line_points r)%Q)
  ∧ runningAverages (traverse (H := refHost) [Fetched zeroMinuteGame])
      !! "2023-24:Reserve Guard" = Some (Average 1 26)
  ∧ collected (traverse (H := refHost) [Fetched zeroMinuteGame]) = [].
Proof.
  split; [|split].
  - repeat split; try Qcheck.
  - vm_compute. reflexivity.
  - vm_compute. reflexivity.
Qed.

(** ** Team classifier *)

Section TeamClassifier.
Context `{Host}.

(** C6, as the code has it.  For a game the team won with a field-goal
    percentage above 0 and below 35, the team classifier emits a
    TEAM_WEIRDNESS entry with the "won while shooting" rationale. *)
Theorem cold_win_emitted (s : summary) (ctx : context) :
  won ctx = true →
  (0 < fgPct (parseTeamStats s ctx))%Q →
  (fgPct (parseTeamStats s ctx) < 35)%Q →
  In (createBaseEntry ctx s teamEvent (teamStatLine ctx) "TEAM_WEIRDNESS"
        ("Pacers won while shooting " +:+ toFixed1 (fgPct (parseTeamStats s ctx))
         +:+ "%. Basketball is fake."))
     (detectTeamWeirdness s ctx).
Proof.
  intros Hwon Hpos Hlow. unfold detectTeamWeirdness. cbv zeta.
  change (ts_won (parseTeamStats s ctx)) with (won ctx).
  apply Qgtb_spec in Hpos. apply Qltb_spec in Hlow.
  rewrite Hwon, Hpos, Hlow. cbn [andb]. apply in_or_app. left. left. reflexivity.
Qed.


End TeamClassifier.

Lemma cold_win_witness :
  In (createBaseEntry (H := refHost) (contextOf (shootingGame "33.3"))
        (shootingGame "33.3") teamEvent "90 pts, opp 88 pts" "TEAM_WEIRDNESS"
        "Pacers won while shooting 33.3%. Basketball is fake.")
     (detectTeamWeirdness (H := refHost) (shootingGame "33.3")
        (contextOf (shootingGame "33.3"))).
Proof.
  apply (cold_win_emitted (H := refHost) (shootingGame "33.3")
           (contextOf (shootingGame "33.3"))).
  - reflexivity.
  - Qcheck.
  - Qcheck.
Defined.

(** C6, as the specification words it, fails: [shootingGame "0.0"] is a win
    with a field-goal percentage of 0, which is below 35, and the processed
    game yields no entry. *)
Lemma cold_win_counterexample :
  won (contextOf (shootingGame "0.0")) = true
  ∧ (fgPct (parseTeamStats (shootingGame "0.0")
              (contextOf (shootingGame "0.0"))) < 35)%Q
  ∧ collectPacersTeamContext (H := refHost) (shootingGame "0.0")
    = Some (contextOf (shootingGame "0.0"))
  ∧ detectTeamWeirdness (H := refHost) (shootingGame "0.0")
      (contextOf (shootingGame "0.0")) = []
  ∧ main (H := refHost) [Fetched (shootingGame "0.0")] = [].
Proof.
  split; [reflexivity|]. split; [Qcheck|]. split; [reflexivity|].
  split; vm_compute; reflexivity.
Qed.



(** ** Context extraction and skipped games *)

Section Skipping.
Context `{Host}.

Lemma collect_resolvable s : Resolvable s → is_Some (collectPacersTeamContext s).
Proof.
  intros [(c1 & Hin1 & Hid1) (c2 & Hin2 & Hid2)]. unfold collectPacersTeamContext.
  destruct (List.find _ (competitors (firstCompetition s))) as [p|] eqn:Hp.
  - destruct (List.find (λ team, negb _) (competitors (firstCompetition s))) as [o|] eqn:Ho;
      [eauto|].
    exfalso. apply (find_none _ _ Ho) in Hin2.
    apply negb_false_iff, String.eqb_eq in Hin2. contradiction.
  - exfalso. apply (find_none _ _ Hp) in Hin1.
    apply String.eqb_neq in Hin1. contradiction.
Qed.

(** C7.  When the team's competitor and an opponent competitor cannot both
    be found in a fetched summary, context extraction yields no context and
    the turn of the loop for that game leaves the run state as it was: no
    entry is collected and the running-average store is not written. *)
Theorem unresolved_game_skipped (s : summary) :
  ¬ Resolvable s →
  collectPacersTeamContext s = None
  ∧ ∀ st, processGame st (Fetched s) = st.
Proof.
  intros Hno.
  assert (Hnone : collectPacersTeamContext s = None).
  { destruct (collectPacersTeamContext s) as [ctx|] eqn:Hctx; [|reflexivity].
    exfalso. apply Hno. unfold collectPacersTeamContext in Hctx.
    destruct (List.find _ (competitors (firstCompetition s))) as [p|] eqn:Hp;
      [|discriminate].
    destruct (List.find (λ team, negb _) (competitors (firstCompetition s))) as [o|] eqn:Ho;
      [|discriminate].
    apply find_some in Hp as [Hinp Hidp]. apply find_some in Ho as [Hino Hido].
    split; [exists p|exists o]; split; auto.
    - apply String.eqb_eq, Hidp.
    - apply String.eqb_neq, negb_true_iff, Hido. }
  split; [exact Hnone|]. intros st. unfold processGame. rewrite Hnone. reflexivity.
Qed.

End Skipping.

Lemma unresolved_game_skipped_witness :
  collectPacersTeamContext (H := refHost) oneSidedGame = None
  ∧ processGame (H := refHost) (RunState {["2023-24:Reserve Guard" := Average 3 40]} [])
      (Fetched oneSidedGame)
    = RunState {["2023-24:Reserve Guard" := Average 3 40]} [].
Proof.
  destruct (unresolved_game_skipped (H := refHost) oneSidedGame) as [Hnone Hsame].
  - intros [_ (c & Hin & Hid)]. destruct Hin as [<-|[]]. apply Hid. reflexivity.
  - split; [exact Hnone|apply Hsame].
Defined.

(** ** The running-average store along the traversal *)

(** A season label has no colon, so that the key [season:name] determines
    the season and the name. *)

Lemma hasColon_app a b : hasColon (a +:+ b) = hasColon a || hasColon b.
Proof.
  induction a as [|c a IH]; [reflexivity|].
  change (String c a +:+ b) with (String c (a +:+ b)).
  unfold hasColon in *. cbn [list_ascii_of_string existsb]. rewrite IH.
  apply orb_assoc.
Qed.

Lemma uint_no_colon d : hasColon (NilEmpty.string_of_uint d) = false.
Proof. induction d; cbn [NilEmpty.string_of_uint]; auto. Qed.

Lemma integerToString_no_colon z : hasColon (integerToString z) = false.
Proof.
  unfold integerToString. destruct (Z.to_int z) as [d|d];
    cbn [NilZero.string_of_int NilZero.string_of_uint];
    destruct d; try reflexivity; apply uint_no_colon.
Qed.

Lemma padStart2_no_colon s : hasColon s = false → hasColon (padStart2 s) = false.
Proof.
  intros Hs. unfold padStart2. destruct (String.length s) as [|[|n]];
    [reflexivity| |exact Hs].
  rewrite hasColon_app, Hs. reflexivity.
Qed.

Lemma seasonLabel_no_colon `{Host} dateStr : hasColon (seasonLabelFromDate dateStr) = false.
Proof.
  unfold seasonLabelFromDate. destruct (utcYearMonth dateStr) as [[year month0]|];
    [|reflexivity].
  cbv zeta. rewrite !hasColon_app, integerToString_no_colon.
  rewrite padStart2_no_colon by apply integerToString_no_colon. reflexivity.
Qed.

Lemma avgKeyOf_inj season1 name1 season2 name2 :
  hasColon season1 = false → hasColon season2 = false →
  avgKeyOf season1 name1 = avgKeyOf season2 name2 →
  season1 = season2 ∧ name1 = name2.
Proof.
  change (avgKeyOf season1 name1) with (season1 +:+ String ":" name1).
  change (avgKeyOf season2 name2) with (season2 +:+ String ":" name2).
  revert season2.
  induction season1 as [|c s1 IH]; intros [|c' s2] H1 H2 Heq;
    repeat match type of Heq with
           | context [String ?a ?s +:+ ?t] =>
               change (String a s +:+ t) with (String a (s +:+ t)) in Heq
           | context [EmptyString +:+ ?t] => change (EmptyString +:+ t) with t in Heq
           end.
  - injection Heq as ->. split; reflexivity.
  - exfalso. injection Heq as <- _. discriminate H2.
  - exfalso. injection Heq as -> _. discriminate H1.
  - injection Heq as -> Heq. unfold hasColon in H1, H2.
    cbn [list_ascii_of_string existsb] in H1, H2.
    apply orb_false_iff in H1 as [_ H1]. apply orb_false_iff in H2 as [_ H2].
    destruct (IH s2 H1 H2 Heq) as [-> ->]. split; reflexivity.
Qed.

Lemma recordRows_app store rows1 rows2 :
  recordRows store (rows1 ++ rows2) = recordRows (recordRows store rows1) rows2.
Proof. apply fold_left_app. Qed.

Lemma recordRows_lookup rows key : recordRows ∅ rows !! key = tallyOf rows key.
Proof.
  induction rows as [|kv rows IH] using rev_ind; [reflexivity|].
  rewrite recordRows_app. cbn [recordRows fold_left].
  unfold tallyOf in *. rewrite List.filter_app. cbn [List.filter].
  destruct (String.eqb_spec (fst kv) key) as [->|Hne].
  - rewrite lookup_insert_eq. unfold averageOf. rewrite IH.
    destruct (List.filter _ rows) as [|m mine]; [reflexivity|].
    cbn [app default]. unfold recordGame. cbn [games points]. f_equal.
    change (m :: mine ++ [kv]) with ((m :: mine) ++ [kv]).
    rewrite List.map_app, fold_left_app, List.length_app. cbn [List.map fold_left List.length].
    cbv [id]. cbn [games points]. f_equal. lia.
  - rewrite lookup_insert_ne by exact Hne. rewrite app_nil_r. exact IH.
Qed.

Section Traversal.
Context `{Host}.

Lemma playerRows_store s ctx seasonKey labels rows events store :
  snd (fold_left (playerRowStep s ctx seasonKey labels) rows (events, store))
  = recordRows store (List.map (rowRecord seasonKey labels) rows).
Proof.
  revert events store. induction rows as [|row rows IH]; intros events store;
    [reflexivity|].
  cbn [fold_left List.map].
  destruct (playerRowStep s ctx seasonKey labels (events, store) row)
    as [events' store'] eqn:Hstep.
  apply (f_equal snd) in Hstep. rewrite playerRowStep_store in Hstep.
  cbn [snd] in Hstep. subst store'. rewrite IH. reflexivity.
Qed.

Lemma detectPlayerMoments_store s ctx store seasonKey :
  snd (detectPlayerMoments s ctx store seasonKey)
  = recordRows store (List.map (rowRecord seasonKey (boxscoreLabels s)) (boxscoreRows s)).
Proof.
  unfold detectPlayerMoments, boxscoreLabels, boxscoreRows.
  destruct (pacersPlayerBlock s) as [block|]; [|reflexivity].
  apply playerRows_store.
Qed.

Lemma processGame_store st f :
  runningAverages (processGame st f) = recordRows (runningAverages st) (gameRows f).
Proof.
  destruct f as [|s]; [reflexivity|]. unfold processGame, gameRows.
  destruct (collectPacersTeamContext s) as [ctx|]; [|reflexivity].
  destruct (dateSkipped ctx); [reflexivity|].
  rewrite <- (detectPlayerMoments_store s ctx).
  destruct (detectPlayerMoments s ctx (runningAverages st) (seasonKeyOf ctx)).
  reflexivity.
Qed.

(** A processed game appends what the three classifiers return, in the
    order player, team, trauma. *)
Lemma processGame_processed st s ctx :
  collectPacersTeamContext s = Some ctx → dateSkipped ctx = false →
  collected (processGame st (Fetched s))
  = collected st
    ++ fst (detectPlayerMoments s ctx (runningAverages st) (seasonKeyOf ctx))
    ++ detectTeamWeirdness s ctx ++ detectTrauma s ctx.
Proof.
  intros Hctx Hdate. unfold processGame. rewrite Hctx, Hdate.
  destruct (detectPlayerMoments s ctx (runningAverages st) (seasonKeyOf ctx)).
  reflexivity.
Qed.

Lemma traverse_store_from st fetches :
  runningAverages (fold_left processGame fetches st)
  = recordRows (runningAverages st) (List.flat_map gameRows fetches).
Proof.
  revert st. induction fetches as [|f fetches IH]; intros st; [reflexivity|].
  cbn [fold_left List.flat_map]. rewrite IH, processGame_store, recordRows_app.
  reflexivity.
Qed.

Lemma traverse_store fetches :
  runningAverages (traverse fetches) = recordRows ∅ (rowsOf fetches).
Proof. apply traverse_store_from. Qed.

Lemma playerRows_eventsAgainst s ctx seasonKey labels rows prior events :
  fst (fold_left (playerRowStep s ctx seasonKey labels) rows
         (events, recordRows ∅ prior))
  = events ++ eventsAgainst s ctx seasonKey labels prior rows.
Proof.
  revert prior events. induction rows as [|row rows IH]; intros prior events.
  - cbn. symmetry. apply app_nil_r.
  - cbn [fold_left eventsAgainst].
    destruct (playerRowStep s ctx seasonKey labels (events, recordRows ∅ prior) row)
      as [events' store'] eqn:Hstep.
    pose proof (f_equal fst Hstep) as Hev. pose proof (f_equal snd Hstep) as Hst.
    rewrite playerRowStep_events in Hev. rewrite playerRowStep_store in Hst.
    cbn [fst snd] in Hev, Hst. subst events' store'.
    change (<[ _ := _ ]> (recordRows ∅ prior))
      with (recordRows (recordRows ∅ prior) [rowRecord seasonKey labels row]).
    rewrite <- recordRows_app, IH.
    unfold averageOf. rewrite recordRows_lookup, <- app_assoc. reflexivity.
Qed.

Lemma filter_key_once (rows : list (string * Q)) key :
  List.NoDup (List.map fst rows) →
  List.length (List.filter (λ kv, String.eqb (fst kv) key) rows)
  = if existsb (λ kv, String.eqb (fst kv) key) rows then 1%nat else 0%nat.
Proof.
  induction rows as [|kv rows IH]; [reflexivity|].
  cbn [List.map]. intros Hnd. apply NoDup_cons_iff in Hnd as [Hfresh Hnd].
  cbn [List.filter existsb]. specialize (IH Hnd).
  destruct (String.eqb_spec (fst kv) key) as [Heq|Hne]; [|exact IH].
  cbn [orb List.length]. rewrite IH.
  destruct (existsb _ rows) eqn:Hex; [|reflexivity].
  exfalso. apply Hfresh. apply existsb_exists in Hex as (kv' & Hin & Hk).
  apply String.eqb_eq in Hk. rewrite Heq, <- Hk. apply in_map, Hin.
Qed.

Lemma rows_per_game fetches key :
  (∀ f, In f fetches → List.NoDup (List.map fst (gameRows f))) →
  List.length (List.filter (λ kv, String.eqb (fst kv) key) (rowsOf fetches))
  = List.length (List.filter (listsKey key) fetches).
Proof.
  induction fetches as [|f fetches IH]; intros Hnd; [reflexivity|].
  unfold rowsOf in *. cbn [List.flat_map List.filter].
  rewrite List.filter_app, List.length_app, IH by (intros g Hg; apply Hnd; right; exact Hg).
  rewrite filter_key_once by (apply Hnd; left; reflexivity).
  unfold listsKey at 2. destruct (existsb _ (gameRows f)); reflexivity.
Qed.

(** C1, as the code has it.  After any prefix of the sequence of fetches,
    the record the store holds under a key is the count and the point sum
    of exactly the boxscore rows filed under that key by the processed games
    of the prefix; the player classifier run on a further game judges every
    row against the tally of the rows strictly before it (the rows of the
    prefix and the earlier rows of the same boxscore), because the store is
    read before it is written; and when no boxscore of the prefix files two
    rows under one key, the count of a record is the number of games of the
    prefix that list the key.  A key is the season label and the display
    name joined by a colon, and determines both. *)
Theorem running_average_tally (fetches : list fetched) :
  (∀ date1 name1 date2 name2,
     avgKeyOf (seasonLabelFromDate date1) name1 = avgKeyOf (seasonLabelFromDate date2) name2 →
     seasonLabelFromDate date1 = seasonLabelFromDate date2 ∧ name1 = name2)
  ∧ (∀ key, runningAverages (traverse fetches) !! key = tallyOf (rowsOf fetches) key)
  ∧ (∀ s ctx,
       fst (detectPlayerMoments s ctx (runningAverages (traverse fetches)) (seasonKeyOf ctx))
       = eventsAgainst s ctx (seasonKeyOf ctx) (boxscoreLabels s) (rowsOf fetches)
           (boxscoreRows s))
  ∧ ((∀ f, In f fetches → List.NoDup (List.map fst (gameRows f))) →
     ∀ key avg, runningAverages (traverse fetches) !! key = Some avg →
                games avg = Z.of_nat (List.length (List.filter (listsKey key) fetches))).
Proof.
  split; [|split; [|split]].
  - intros date1 name1 date2 name2. apply avgKeyOf_inj; apply seasonLabel_no_colon.
  - intros key. rewrite traverse_store. apply recordRows_lookup.
  - intros s ctx. rewrite traverse_store.
    unfold detectPlayerMoments, boxscoreLabels, boxscoreRows.
    destruct (pacersPlayerBlock s) as [block|]; [|reflexivity].
    apply (playerRows_eventsAgainst s ctx (seasonKeyOf ctx) _ _ (rowsOf fetches) []).
  - intros Hnd key avg. rewrite traverse_store, recordRows_lookup.
    rewrite <- (rows_per_game fetches key Hnd). unfold tallyOf.
    destruct (List.filter _ (rowsOf fetches)); [discriminate|].
    intros [= <-]. reflexivity.
Qed.

End Traversal.

Lemma running_average_tally_witness :
  games (Average 2 52)
  = Z.of_nat (List.length (List.filter (listsKey (H := refHost) "2023-24:Reserve Guard")
                             [Fetched quickScorerGame; FetchFailed; Fetched zeroMinuteGame])).
Proof.
  apply (running_average_tally (H := refHost)
           [Fetched quickScorerGame; FetchFailed; Fetched zeroMinuteGame]).
  - intros f [<-|[<-|[<-|[]]]]; vm_compute; repeat constructor; simpl; tauto.
  - vm_compute. reflexivity.
Defined.

(** C1, as the specification words it, fails: the one game of the prefix
    [twoNamelessGame] files two rows under one key, so that the record
    counts 2 where the prefix has 1 game, and the second row is judged
    against an average of 10 points although no game precedes it. *)
Lemma running_average_counterexample :
  runningAverages (traverse (H := refHost) [Fetched twoNamelessGame])
    !! "2023-24:Unknown" = Some (Average 2 20)
  ∧ List.length (List.filter (listsKey (H := refHost) "2023-24:Unknown")
                   [Fetched twoNamelessGame]) = 1%nat
  ∧ preGameAverageOf
      (averageOf (storeAfterRows (H := refHost) twoNamelessGame (contextOf twoNamelessGame)
                    "2023-24" ["PTS"] [namelessRow] ∅)
         "2023-24:Unknown") = (10 / 1)%Q.
Proof. split; [|split]; vm_compute; reflexivity. Qed.

(** ** Sorting *)

Section Sorting.
Context {A : Type} (cmp : A → A → comparison).

Lemma insertBy_perm x l : Permutation (insertBy cmp x l) (x :: l).
Proof.
  induction l as [|y l IH]; [reflexivity|]. cbn [insertBy].
  destruct (cmp x y); try reflexivity.
  etransitivity; [apply perm_skip, IH|apply perm_swap].
Qed.

Lemma sortBy_perm l : Permutation (sortBy cmp l) l.
Proof.
  induction l as [|x l IH]; [reflexivity|]. cbn [sortBy foldr].
  etransitivity; [apply insertBy_perm|apply perm_skip, IH].
Qed.

Lemma sortBy_In l x : In x (sortBy cmp l) ↔ In x l.
Proof.
  split; apply Permutation_in; [|symmetry]; apply sortBy_perm.
Qed.

Lemma sortBy_length l : List.length (sortBy cmp l) = List.length l.
Proof. apply Permutation_length, sortBy_perm. Qed.

(** A list in which every element may precede its successor is left as it
    is. *)
Lemma sortBy_sorted_id l : Sorted (mayPrecede cmp) l → sortBy cmp l = l.
Proof.
  induction 1 as [|x l Hl IH Hhd]; [reflexivity|]. cbn [sortBy foldr].
  fold (sortBy cmp l). rewrite IH.
  destruct Hhd as [|y l Hxy]; [reflexivity|]. cbn [insertBy].
  unfold mayPrecede in Hxy. destruct (cmp x y); congruence.
Qed.

Hypothesis cmp_total : ∀ a b, mayPrecede cmp a b ∨ mayPrecede cmp b a.
Hypothesis cmp_trans : ∀ a b c,
  mayPrecede cmp a b → mayPrecede cmp b c → mayPrecede cmp a c.

Lemma insertBy_sorted x l :
  StronglySorted (mayPrecede cmp) l → StronglySorted (mayPrecede cmp) (insertBy cmp x l).
Proof.
  induction 1 as [|y l Hl IH Hy]; cbn [insertBy].
  - repeat constructor.
  - destruct (cmp x y) eqn:Hxy.
    + constructor; [constructor; assumption|]. constructor.
      * unfold mayPrecede. congruence.
      * eapply List.Forall_impl; [|exact Hy]. intros z Hz. apply (cmp_trans x y z); [|exact Hz].
        unfold mayPrecede. congruence.
    + constructor; [constructor; assumption|]. constructor.
      * unfold mayPrecede. congruence.
      * eapply List.Forall_impl; [|exact Hy]. intros z Hz. apply (cmp_trans x y z); [|exact Hz].
        unfold mayPrecede. congruence.
    + constructor; [exact IH|].
      apply (Permutation_Forall (symmetry (insertBy_perm x l))).
      constructor; [|exact Hy].
      destruct (cmp_total x y) as [Hle|Hle]; [|exact Hle].
      unfold mayPrecede in Hle. congruence.
Qed.

Lemma sortBy_sorted l : StronglySorted (mayPrecede cmp) (sortBy cmp l).
Proof.
  induction l as [|x l IH]; [constructor|]. cbn [sortBy foldr].
  apply insertBy_sorted, IH.
Qed.

End Sorting.

Lemma StronglySorted_split {A} (R : A → A → Prop) (l : list A) n a b :
  StronglySorted R l → In a (List.firstn n l) → In b (List.skipn n l) → R a b.
Proof.
  intros Hs. revert n. induction Hs as [|x l Hl IH Hx]; intros n Ha Hb.
  - destruct n; destruct Ha.
  - destruct n as [|n]; [destruct Ha|]. cbn [List.firstn List.skipn] in Ha, Hb.
    destruct Ha as [<-|Ha].
    + rewrite List.Forall_forall in Hx. apply Hx.
      rewrite <- (firstn_skipn n l). apply in_or_app. right. exact Hb.
    + eapply IH; eassumption.
Qed.

Lemma firstn_In {A} (l : list A) n x : In x (List.firstn n l) → In x l.
Proof.
  intros Hx. rewrite <- (firstn_skipn n l). apply in_or_app. left. exact Hx.
Qed.

(** ** Deduplication *)

Lemma dedupe_fold l seen out :
  snd (fold_left dedupeStep l (seen, out)) = out ++ keptFrom seen l.
Proof.
  revert seen out. induction l as [|e l IH]; intros seen out.
  - cbn. symmetry. apply app_nil_r.
  - cbn [fold_left keptFrom]. unfold dedupeStep at 2. cbv zeta.
    destruct (decide (entryKey e ∈ seen)); [apply IH|].
    rewrite IH, <- app_assoc. reflexivity.
Qed.

Lemma dedupeEntries_kept l : dedupeEntries l = keptFrom ∅ l.
Proof. unfold dedupeEntries. rewrite dedupe_fold. reflexivity. Qed.

Lemma keptFrom_In seen l e : In e (keptFrom seen l) → In e l.
Proof.
  revert seen. induction l as [|x l IH]; intros seen; [intros []|]. cbn [keptFrom].
  destruct (decide (entryKey x ∈ seen)).
  - intros He. right. eapply IH, He.
  - intros [<-|He]; [left; reflexivity|right; eapply IH, He].
Qed.

Lemma keptFrom_fresh seen l e : In e (keptFrom seen l) → entryKey e ∉ seen.
Proof.
  revert seen. induction l as [|x l IH]; intros seen; [intros []|]. cbn [keptFrom].
  destruct (decide (entryKey x ∈ seen)) as [|Hx]; [apply IH|].
  intros [<-|He]; [exact Hx|]. apply IH in He. set_solver.
Qed.

Lemma keptFrom_deduplicated seen l : Deduplicated (keptFrom seen l).
Proof.
  revert seen. unfold Deduplicated.
  induction l as [|x l IH]; intros seen; [constructor|]. cbn [keptFrom].
  destruct (decide (entryKey x ∈ seen)); [apply IH|]. cbn [List.map].
  constructor; [|apply IH].
  intros (e & Hk & He)%in_map_iff. apply keptFrom_fresh in He. set_solver.
Qed.

Lemma keptFrom_id seen l :
  Deduplicated l → (∀ e, In e l → entryKey e ∉ seen) → keptFrom seen l = l.
Proof.
  revert seen. unfold Deduplicated.
  induction l as [|x l IH]; intros seen Hnd Hseen; [reflexivity|]. cbn [keptFrom].
  cbn [List.map] in Hnd. apply NoDup_cons_iff in Hnd as [Hx Hnd].
  destruct (decide (entryKey x ∈ seen)) as [Hin|_].
  { exfalso. apply (Hseen x); [left; reflexivity|exact Hin]. }
  f_equal. apply IH; [exact Hnd|]. intros e He.
  assert (Hne : entryKey e ≠ entryKey x).
  { intros Heq. apply Hx. rewrite <- Heq. apply in_map, He. }
  specialize (Hseen e (or_intror He)).
  rewrite not_elem_of_union, not_elem_of_singleton. split; assumption.
Qed.

(** ** The reference host is consistent *)

Lemma string_compare_le x y : String.compare x y ≠ Gt ↔ String.le x y.
Proof.
  unfold String.le, String.leb. destruct (String.compare x y); simpl; split;
    intros; try congruence; try exact I; contradiction.
Qed.

#[local] Instance refHost_consistent : ConsistentCollation (H := refHost).
Proof.
  split; cbn [localeCompare refHost].
  { intros x y. rewrite !string_compare_le. exact (String.le_total x y). }
  { intros x y z. rewrite !string_compare_le. intros Hxy Hyz.
    exact (PreOrder_Transitive (R := String.le) x y z Hxy Hyz). }
Qed.

(** ** Field shape of the entries *)

Section Shape.
Context `{Host}.

Lemma createBaseEntry_shape ctx s p statLine tag why :
  tag ≠ "TRAUMA" → shapeOk (createBaseEntry ctx s p statLine tag why).
Proof.
  intros Hcat. unfold shapeOk, createBaseEntry. cbn [trauma category trauma_level].
  split; split; intros Hx; try congruence. destruct Hx as [? Hx]. discriminate Hx.
Qed.

Lemma traumaify_shape e why : shapeOk (traumaify e why).
Proof.
  unfold shapeOk, traumaify. cbn [trauma category trauma_level].
  split; split; intros _; eauto.
Qed.

Lemma rowEvents_shape s ctx r avg : Forall shapeOk (rowEvents s ctx r avg).
Proof.
  unfold rowEvents. apply Forall_app. split.
  - destruct (negb _); [|constructor]. constructor; [|constructor].
    apply createBaseEntry_shape. discriminate.
  - destruct (negb _); [|constructor]. constructor; [|constructor].
    apply createBaseEntry_shape. discriminate.
Qed.

Lemma playerRows_shape s ctx seasonKey labels rows events store :
  Forall shapeOk events →
  Forall shapeOk (fst (fold_left (playerRowStep s ctx seasonKey labels) rows (events, store))).
Proof.
  revert events store. induction rows as [|row rows IH]; intros events store Hev;
    [exact Hev|].
  cbn [fold_left].
  destruct (playerRowStep s ctx seasonKey labels (events, store) row)
    as [events' store'] eqn:Hstep.
  apply IH. apply (f_equal fst) in Hstep. rewrite playerRowStep_events in Hstep.
  cbn [fst] in Hstep. subst events'. apply Forall_app. split; [exact Hev|].
  apply rowEvents_shape.
Qed.

Lemma detectPlayerMoments_shape s ctx store seasonKey :
  Forall shapeOk (fst (detectPlayerMoments s ctx store seasonKey)).
Proof.
  unfold detectPlayerMoments. destruct (pacersPlayerBlock s); [|constructor].
  apply playerRows_shape. constructor.
Qed.

Lemma detectTeamWeirdness_shape s ctx : Forall shapeOk (detectTeamWeirdness s ctx).
Proof.
  unfold detectTeamWeirdness. cbv zeta.
  repeat (apply Forall_app; split);
    match goal with |- Forall _ (if ?b then _ else _) => destruct b end;
    first [ exact (List.Forall_nil _)
          | (constructor; [|constructor]); apply createBaseEntry_shape; discriminate ].
Qed.

Lemma detectTrauma_shape s ctx : Forall shapeOk (detectTrauma s ctx).
Proof.
  unfold detectTrauma. destruct (won ctx); [constructor|].
  destruct (traumaReasonsOf s ctx); [constructor|].
  constructor; [|constructor]. apply traumaify_shape.
Qed.

Lemma processGame_shape st f :
  Forall shapeOk (collected st) → Forall shapeOk (collected (processGame st f)).
Proof.
  intros Hst. destruct f as [|s]; [exact Hst|]. unfold processGame.
  destruct (collectPacersTeamContext s) as [ctx|]; [|exact Hst].
  destruct (dateSkipped ctx); [exact Hst|].
  pose proof (detectPlayerMoments_shape s ctx (runningAverages st) (seasonKeyOf ctx)) as Hp.
  destruct (detectPlayerMoments s ctx (runningAverages st) (seasonKeyOf ctx)) as [events ?].
  cbn [collected fst] in Hp |- *.
  apply Forall_app; split; [exact Hst|]. apply Forall_app; split; [exact Hp|].
  apply Forall_app; split; [apply detectTeamWeirdness_shape|apply detectTrauma_shape].
Qed.

Lemma traverse_shape fetches : Forall shapeOk (collected (traverse fetches)).
Proof.
  unfold traverse.
  assert (Hgen : ∀ st, Forall shapeOk (collected st) →
                       Forall shapeOk (collected (fold_left processGame fetches st))).
  { induction fetches as [|f fetches IH]; intros st Hst; [exact Hst|].
    cbn [fold_left]. apply IH, processGame_shape, Hst. }
  apply Hgen. constructor.
Qed.

Lemma curate_In candidates e : In e (curate candidates) → In e candidates.
Proof.
  unfold curate. cbv zeta. intros He.
  assert (Hd : In e (dedupeEntries candidates)).
  { destruct (CORPUS_CAP <? _)%nat.
    - apply sortBy_In, firstn_In, sortBy_In, sortBy_In in He. exact He.
    - apply sortBy_In in He. exact He. }
  rewrite dedupeEntries_kept in Hd. eapply keptFrom_In, Hd.
Qed.

(** C9.  Every entry of the final corpus has its trauma flag set exactly
    when its category is TRAUMA, and carries a trauma level exactly when
    the flag is set. *)
Theorem corpus_entries_shape (fetches : list fetched) :
  Forall shapeOk (main fetches).
Proof.
  apply List.Forall_forall. intros e He. unfold main in He. apply curate_In in He.
  pose proof (traverse_shape fetches) as Hall.
  rewrite List.Forall_forall in Hall. apply Hall, He.
Qed.

End Shape.

(** ** The comparators of the curator *)

Section Comparators.
Context `{Host} `{!ConsistentCollation}.

Lemma byDate_total a b :
  mayPrecede byDateDescending a b ∨ mayPrecede byDateDescending b a.
Proof. apply collation_total. Qed.

Lemma byDate_trans a b c :
  mayPrecede byDateDescending a b → mayPrecede byDateDescending b c →
  mayPrecede byDateDescending a c.
Proof. intros Hab Hbc. exact (collation_trans _ _ _ Hbc Hab). Qed.

Lemma byQuality_alt a b :
  mayPrecede byQualityThenDate a b
  ↔ (entryQualityScore b < entryQualityScore a)%Q
    ∨ ((entryQualityScore b == entryQualityScore a)%Q
       ∧ localeCompare (date b) (date a) ≠ Gt).
Proof.
  unfold mayPrecede, byQualityThenDate.
  destruct (Qcompare_spec (entryQualityScore b) (entryQualityScore a)) as [Heq|Hlt|Hgt].
  - split; [intros Hd; right; auto|]. intros [Hlt|[_ Hd]]; [|exact Hd].
    exfalso. rewrite Heq in Hlt. exact (Qlt_irrefl _ Hlt).
  - split; [intros _; left; exact Hlt|intros _; discriminate].
  - split; [intros Hd; congruence|]. intros [Hlt|[Heq _]]; exfalso.
    + exact (Qlt_irrefl _ (Qlt_trans _ _ _ Hlt Hgt)).
    + rewrite Heq in Hgt. exact (Qlt_irrefl _ Hgt).
Qed.

Lemma byQuality_total a b :
  mayPrecede byQualityThenDate a b ∨ mayPrecede byQualityThenDate b a.
Proof.
  rewrite !byQuality_alt.
  destruct (Qcompare_spec (entryQualityScore b) (entryQualityScore a)) as [Heq|Hlt|Hgt].
  - destruct (collation_total (date b) (date a)) as [Hd|Hd].
    + left. right. auto.
    + right. right. split; [symmetry; exact Heq|exact Hd].
  - left. left. exact Hlt.
  - right. left. exact Hgt.
Qed.

Lemma byQuality_trans a b c :
  mayPrecede byQualityThenDate a b → mayPrecede byQualityThenDate b c →
  mayPrecede byQualityThenDate a c.
Proof.
  rewrite !byQuality_alt. intros [Hab|[Hab Dab]] [Hbc|[Hbc Dbc]].
  - left. exact (Qlt_trans _ _ _ Hbc Hab).
  - left. rewrite Hbc. exact Hab.
  - left. rewrite <- Hab. exact Hbc.
  - right. split; [rewrite Hbc; exact Hab|]. exact (collation_trans _ _ _ Dbc Dab).
Qed.

End Comparators.

(** ** Quality score *)

Lemma quality_of_trauma e :
  trauma e = true → (0 <= statLinePoints e)%Q → (100 <= entryQualityScore e)%Q.
Proof.
  intros Ht Hp. unfold entryQualityScore. cbv zeta. rewrite Ht.
  destruct (String.eqb _ _ || String.eqb _ _);
    destruct (Qle_bool (statLinePoints e) 60); lra.
Qed.

Lemma quality_of_other e : trauma e = false → (entryQualityScore e <= 85)%Q.
Proof.
  intros Ht. unfold entryQualityScore. cbv zeta. rewrite Ht.
  destruct (String.eqb _ _ || String.eqb _ _);
    destruct (Qle_bool (statLinePoints e) 60) eqn:Hcap;
    try apply Qle_bool_iff in Hcap; lra.
Qed.

(** ** The final corpus *)

Section Corpus.
Context `{Host}.

Lemma curate_small candidates :
  (List.length (dedupeEntries candidates) ≤ CORPUS_CAP)%nat →
  curate candidates = sortBy byDateDescending (dedupeEntries candidates).
Proof.
  intros Hlen. unfold curate. cbv zeta. rewrite sortBy_length.
  destruct (Nat.ltb_spec CORPUS_CAP (List.length (dedupeEntries candidates)));
    [lia|reflexivity].
Qed.

Lemma dedupeEntries_id l : Deduplicated l → dedupeEntries l = l.
Proof.
  intros Hdedup. rewrite dedupeEntries_kept. apply keptFrom_id; [exact Hdedup|].
  intros e _. apply not_elem_of_empty.
Qed.

Lemma sortByDate_id l : DateDescending l → sortBy byDateDescending l = l.
Proof. intros Hsorted. apply sortBy_sorted_id, StronglySorted_Sorted, Hsorted. Qed.

Lemma curate_length candidates : (List.length (curate candidates) ≤ CORPUS_CAP)%nat.
Proof.
  unfold curate. cbv zeta. rewrite sortBy_length.
  destruct (Nat.ltb_spec CORPUS_CAP (List.length (dedupeEntries candidates))).
  - rewrite sortBy_length, List.length_firstn. lia.
  - rewrite sortBy_length. lia.
Qed.


Context `{!ConsistentCollation}.

Lemma sortByDate_descending l : DateDescending (sortBy byDateDescending l).
Proof. apply (sortBy_sorted byDateDescending byDate_total byDate_trans). Qed.

(** The same with positions: of two entries, the one at the smaller index
    has the date that is at least as late. *)
Lemma DateDescending_lookup (l : list entry) i j a b :
  DateDescending l → (i < j)%nat → l !! i = Some a → l !! j = Some b →
  localeCompare (date b) (date a) ≠ Gt.
Proof.
  intros Hs. revert i j. induction Hs as [|x l Hl IH Hx]; intros i j Hij Ha Hb.
  - destruct i; discriminate Ha.
  - destruct j as [|j]; [lia|]. cbn in Hb. destruct i as [|i].
    + injection Ha as <-. rewrite List.Forall_forall in Hx. apply Hx.
      apply list_elem_of_In. eapply list_elem_of_lookup_2, Hb.
    + cbn in Ha. apply (IH i j); [lia|exact Ha|exact Hb].
Qed.

Lemma curate_descending candidates : DateDescending (curate candidates).
Proof.
  unfold curate. cbv zeta. destruct (CORPUS_CAP <? _)%nat; apply sortByDate_descending.
Qed.


(** The curator applied to its own output returns it. *)
Lemma curate_Deduplicated candidates : Deduplicated (curate candidates).
Proof.
  assert (Hd : Deduplicated (dedupeEntries candidates)).
  { rewrite dedupeEntries_kept. apply keptFrom_deduplicated. }
  assert (Hsort : ∀ cmp l, Deduplicated l → Deduplicated (sortBy cmp l)).
  { intros cmp l. unfold Deduplicated.
    apply Permutation_NoDup, Permutation_map. symmetry. apply sortBy_perm. }
  unfold curate. cbv zeta. destruct (CORPUS_CAP <? _)%nat; [|apply Hsort, Hd].
  apply Hsort. unfold Deduplicated. rewrite <- List.firstn_map.
  assert (Hq : Deduplicated (sortBy byQualityThenDate
                               (sortBy byDateDescending (dedupeEntries candidates))))
    by (apply Hsort, Hsort, Hd).
  unfold Deduplicated in Hq. revert Hq.
  generalize (List.map entryKey (sortBy byQualityThenDate
                (sortBy byDateDescending (dedupeEntries candidates)))).
  intros keys Hk. rewrite <- (firstn_skipn CORPUS_CAP keys) in Hk.
  eapply NoDup_app_remove_r, Hk.
Qed.

Lemma curate_idempotent candidates : curate (curate candidates) = curate candidates.
Proof.
  pose proof (dedupeEntries_id _ (curate_Deduplicated candidates)) as Hkept.
  rewrite curate_small by (rewrite Hkept; apply curate_length).
  rewrite Hkept. apply sortByDate_id, curate_descending.
Qed.

(** C10.  With nonnegative points figures a trauma-flagged entry scores at
    least 100 and an entry without the flag at most 85, so the first
    outscores the second; hence, of the deduplicated candidates, a
    trauma-flagged entry is in the final corpus whenever an entry without
    the flag is: truncation at the cap never drops the first and keeps the
    second. *)
Theorem trauma_outranks :
  (∀ t n, trauma t = true → trauma n = false →
          (0 <= statLinePoints t)%Q → (0 <= statLinePoints n)%Q →
          (100 <= entryQualityScore t)%Q ∧ (entryQualityScore n <= 85)%Q
          ∧ (entryQualityScore n < entryQualityScore t)%Q)
  ∧ (∀ candidates t n,
       In t (dedupeEntries candidates) → trauma t = true → (0 <= statLinePoints t)%Q →
       In n (curate candidates) → trauma n = false → (0 <= statLinePoints n)%Q →
       In t (curate candidates)).
Proof.
  assert (Hscore : ∀ t n, trauma t = true → trauma n = false →
            (0 <= statLinePoints t)%Q →
            (100 <= entryQualityScore t)%Q ∧ (entryQualityScore n <= 85)%Q
            ∧ (entryQualityScore n < entryQualityScore t)%Q).
  { intros t n Ht Hn Hp. pose proof (quality_of_trauma t Ht Hp).
    pose proof (quality_of_other n Hn). repeat split; lra. }
  split; [intros t n Ht Hn Hp _; apply Hscore; assumption|].
  intros candidates t n Hin Ht Hp Hkept Hn _. unfold curate in *. cbv zeta in *.
  destruct (CORPUS_CAP <? _)%nat; [|apply sortBy_In; exact Hin].
  apply sortBy_In in Hkept. apply sortBy_In.
  set (ranked := sortBy byQualityThenDate
                   (sortBy byDateDescending (dedupeEntries candidates))) in *.
  assert (Hranked : In t ranked) by (apply sortBy_In, sortBy_In, Hin).
  rewrite <- (firstn_skipn CORPUS_CAP ranked) in Hranked.
  apply in_app_or in Hranked as [Hfirst|Hdropped]; [exact Hfirst|].
  exfalso.
  pose proof (StronglySorted_split _ ranked CORPUS_CAP n t
                (sortBy_sorted byQualityThenDate byQuality_total byQuality_trans _)
                Hkept Hdropped) as Hnt.
  apply byQuality_alt in Hnt. destruct (Hscore t n Ht Hn Hp) as (_ & _ & Hlt).
  destruct Hnt as [Hgt|[Heq _]].
  - exact (Qlt_irrefl _ (Qlt_trans _ _ _ Hlt Hgt)).
  - rewrite Heq in Hlt. exact (Qlt_irrefl _ Hlt).
Qed.

End Corpus.



Lemma trauma_outranks_witness :
  (entryQualityScore sampleExplosion < entryQualityScore sampleTrauma)%Q
  ∧ In sampleTrauma (curate (H := refHost) sampleCandidates).
Proof.
  destruct (trauma_outranks (H := refHost)) as [Hscore Hkept].
  split.
  - apply (Hscore sampleTrauma sampleExplosion).
    + vm_compute. reflexivity.
    + vm_compute. reflexivity.
    + Qcheck.
    + Qcheck.
  - apply (Hkept sampleCandidates sampleTrauma sampleExplosion).
    + vm_compute. tauto.
    + vm_compute. reflexivity.
    + Qcheck.
    + vm_compute. tauto.
    + vm_compute. reflexivity.
    + Qcheck.
Defined.

(** * Further properties of the code *)

(** ** Deduplication keeps first occurrences *)

Lemma keptFrom_filter_id seen l k :
  k ∈ seen → List.filter (λ x, negb (String.eqb (entryKey x) k)) (keptFrom seen l)
             = keptFrom seen l.
Proof.
  intros Hk. apply List.forallb_filter_id. apply List.forallb_forall.
  intros x Hx. apply keptFrom_fresh in Hx. apply negb_true_iff, String.eqb_neq.
  intros Heq. apply Hx. rewrite Heq. exact Hk.
Qed.

Lemma keptFrom_seen_more seen l k :
  keptFrom ({[k]} ∪ seen) l
  = List.filter (λ x, negb (String.eqb (entryKey x) k)) (keptFrom seen l).
Proof.
  revert seen. induction l as [|x l IH]; intros seen; [reflexivity|].
  cbn [keptFrom].
  destruct (decide (entryKey x ∈ seen)) as [Hin|Hout].
  - destruct (decide (entryKey x ∈ {[k]} ∪ seen)) as [_|Hno]; [apply IH|].
    exfalso. apply Hno. apply elem_of_union. right. exact Hin.
  - cbn [List.filter]. destruct (String.eqb_spec (entryKey x) k) as [Heq|Hne]; cbn [negb].
    + destruct (decide (entryKey x ∈ {[k]} ∪ seen)) as [_|Hno].
      * rewrite Heq. symmetry. apply keptFrom_filter_id.
        apply elem_of_union. left. apply elem_of_singleton. reflexivity.
      * exfalso. apply Hno. apply elem_of_union. left. apply elem_of_singleton, Heq.
    + destruct (decide (entryKey x ∈ {[k]} ∪ seen)) as [Hyes|_].
      * exfalso. apply elem_of_union in Hyes as [Hyes|Hyes]; [|contradiction].
        apply elem_of_singleton in Hyes. contradiction.
      * f_equal. rewrite <- IH. f_equal.
        rewrite !(assoc_L (∪)), (comm_L (∪) {[entryKey x]} {[k]}). reflexivity.
Qed.

Lemma keptFrom_sublist seen l : sublist (keptFrom seen l) l.
Proof.
  revert seen. induction l as [|x l IH]; intros seen; [constructor|]. cbn [keptFrom].
  destruct (decide (entryKey x ∈ seen)); [apply sublist_cons, IH|apply sublist_skip, IH].
Qed.

Lemma keptFrom_covers seen l e :
  In e l → entryKey e ∉ seen →
  ∃ e', In e' (keptFrom seen l) ∧ entryKey e' = entryKey e.
Proof.
  revert seen. induction l as [|x l IH]; intros seen; [intros []|].
  intros [->|He] Hfresh; cbn [keptFrom].
  - destruct (decide (entryKey e ∈ seen)); [contradiction|].
    exists e. split; [left; reflexivity|reflexivity].
  - destruct (decide (entryKey x ∈ seen)) as [Hx|Hx]; [apply IH; assumption|].
    destruct (String.eqb_spec (entryKey x) (entryKey e)) as [Heq|Hne].
    + exists x. split; [left; reflexivity|exact Heq].
    + destruct (IH ({[entryKey x]} ∪ seen) He) as (e' & Hin & Hk).
      * rewrite not_elem_of_union, not_elem_of_singleton. split; [congruence|exact Hfresh].
      * exists e'. split; [right; exact Hin|exact Hk].
Qed.

(** X1.  [dedupeEntries] keeps, in their order, the first entry of every
    key: the head of a list is kept and removes the later entries of its
    key from what is kept of the tail; the result is a sublist of the
    input without repeated keys, in which every key of the input is
    present. *)
Theorem dedupeEntries_first_occurrences :
  dedupeEntries [] = []
  ∧ (∀ e l, dedupeEntries (e :: l) = e :: List.filter (otherKey e) (dedupeEntries l))
  ∧ (∀ l, sublist (dedupeEntries l) l)
  ∧ (∀ l, Deduplicated (dedupeEntries l))
  ∧ (∀ l e, In e l → ∃ e', In e' (dedupeEntries l) ∧ entryKey e' = entryKey e).
Proof.
  split; [reflexivity|]. split; [|split; [|split]].
  - intros e l. rewrite !dedupeEntries_kept. cbn [keptFrom].
    destruct (decide (entryKey e ∈ (∅ : gset string))) as [Hin|_];
      [exfalso; exact (not_elem_of_empty _ Hin)|].
    f_equal. apply keptFrom_seen_more.
  - intros l. rewrite dedupeEntries_kept. apply keptFrom_sublist.
  - intros l. rewrite dedupeEntries_kept. apply keptFrom_deduplicated.
  - intros l e He. rewrite dedupeEntries_kept. apply keptFrom_covers; [exact He|].
    apply not_elem_of_empty.
Qed.

Lemma dedupeEntries_first_occurrences_witness :
  ∃ e', In e' (dedupeEntries (sampleCandidates ++ sampleCandidates))
        ∧ entryKey e' = entryKey sampleTrauma.
Proof.
  apply dedupeEntries_first_occurrences. vm_compute. tauto.
Defined.

(** X2.  Deduplicating twice is deduplicating once. *)
Theorem dedupeEntries_idempotent (l : list entry) :
  dedupeEntries (dedupeEntries l) = dedupeEntries l.
Proof.
  apply dedupeEntries_id. rewrite dedupeEntries_kept. apply keptFrom_deduplicated.
Qed.

(** ** Selection under the cap *)

Section Selection.
Context `{Host}.

Lemma curate_large candidates :
  (CORPUS_CAP < List.length (dedupeEntries candidates))%nat →
  curate candidates
  = sortBy byDateDescending
      (List.firstn CORPUS_CAP
         (sortBy byQualityThenDate (sortBy byDateDescending (dedupeEntries candidates)))).
Proof.
  intros Hlen. unfold curate. cbv zeta. rewrite sortBy_length.
  destruct (Nat.ltb_spec CORPUS_CAP (List.length (dedupeEntries candidates)));
    [reflexivity|lia].
Qed.

(** X3.  The final corpus holds the smaller of 400 and the number of
    deduplicated candidates: the cap never leaves fewer than 400 entries
    when more are available. *)
Theorem corpus_length (candidates : list entry) :
  List.length (curate candidates)
  = Nat.min CORPUS_CAP (List.length (dedupeEntries candidates)).
Proof.
  destruct (Nat.le_gt_cases (List.length (dedupeEntries candidates)) CORPUS_CAP) as [Hle|Hgt].
  - rewrite (curate_small _ Hle), sortBy_length. lia.
  - rewrite (curate_large _ Hgt), sortBy_length, List.length_firstn, !sortBy_length. lia.
Qed.

(** X4.  The entries of the final corpus are candidates, and no two of
    them share the tuple of date, opponent, player, category and
    rationale. *)
Theorem corpus_distinct_candidates (candidates : list entry) :
  Deduplicated (curate candidates)
  ∧ Forall (λ e, In e candidates) (curate candidates).
Proof.
  split; [apply curate_Deduplicated|].
  apply List.Forall_forall. intros e He. eapply curate_In, He.
Qed.

Context `{!ConsistentCollation}.

(** X5.  When the cap drops candidates it drops the worst: a deduplicated
    candidate that is left out of the final corpus scores no more than any
    entry that is kept, and when it scores the same its date is no later. *)
Theorem cap_keeps_best (candidates : list entry) (kept dropped : entry) :
  In kept (curate candidates) →
  In dropped (dedupeEntries candidates) → ¬ In dropped (curate candidates) →
  (entryQualityScore dropped <= entryQualityScore kept)%Q
  ∧ ((entryQualityScore dropped == entryQualityScore kept)%Q →
     localeCompare (date dropped) (date kept) ≠ Gt).
Proof.
  intros Hkept Hcand Hdropped.
  destruct (Nat.le_gt_cases (List.length (dedupeEntries candidates)) CORPUS_CAP) as [Hle|Hgt].
  { exfalso. apply Hdropped. rewrite (curate_small _ Hle). apply sortBy_In, Hcand. }
  rewrite (curate_large _ Hgt) in Hkept, Hdropped.
  set (ranked := sortBy byQualityThenDate
                   (sortBy byDateDescending (dedupeEntries candidates))) in *.
  apply sortBy_In in Hkept.
  assert (Hranked : In dropped ranked) by (apply sortBy_In, sortBy_In, Hcand).
  rewrite <- (firstn_skipn CORPUS_CAP ranked) in Hranked.
  apply in_app_or in Hranked as [Hfirst|Hrest].
  { exfalso. apply Hdropped, sortBy_In, Hfirst. }
  pose proof (StronglySorted_split _ ranked CORPUS_CAP kept dropped
                (sortBy_sorted byQualityThenDate byQuality_total byQuality_trans _)
                Hkept Hrest) as Horder.
  apply byQuality_alt in Horder. destruct Horder as [Hlt|[Heq Hdate]].
  - split; [apply Qlt_le_weak, Hlt|]. intros Heq. rewrite Heq in Hlt.
    exfalso. exact (Qlt_irrefl _ Hlt).
  - split; [rewrite Heq; apply Qle_refl|]. intros _. exact Hdate.
Qed.

(** X6.  Running the curator on its own output changes nothing, whatever
    the candidates were. *)
Theorem curate_twice (candidates : list entry) :
  curate (curate candidates) = curate candidates.
Proof.
  pose proof (dedupeEntries_id _ (curate_Deduplicated candidates)) as Hkept.
  rewrite curate_small by (rewrite Hkept; apply curate_length).
  rewrite Hkept. apply sortByDate_id, curate_descending.
Qed.

End Selection.

Lemma lookup_In {A} (l : list A) i x : l !! i = Some x → In x l.
Proof. intros Hx. apply list_elem_of_In. eapply list_elem_of_lookup_2, Hx. Qed.

Lemma absent_stat_line (l : list entry) e :
  existsb (String.eqb (stat_line e)) (List.map stat_line l) = false → ¬ In e l.
Proof.
  intros Hno Hin. apply (in_map stat_line) in Hin.
  assert (Hyes : existsb (String.eqb (stat_line e)) (List.map stat_line l) = true).
  { apply existsb_exists. exists (stat_line e). split; [exact Hin|apply String.eqb_refl]. }
  congruence.
Qed.

Lemma distinctb_NoDup l : distinctb l = true → List.NoDup l.
Proof.
  induction l as [|x l IH]; [constructor|]. cbn [distinctb].
  intros [Hx Hl]%andb_true_iff. constructor; [|apply IH, Hl].
  intros Hin. apply negb_true_iff in Hx.
  assert (Hyes : existsb (String.eqb x) l = true).
  { apply existsb_exists. exists x. split; [exact Hin|apply String.eqb_refl]. }
  congruence.
Qed.

(** The three premises of the statement above, from facts that can be
    computed on a concrete list of candidates. *)
Lemma dropped_by_cap `{Host} (candidates final : list entry) (kept dropped : entry) :
  distinctb (List.map entryKey candidates) = true →
  (CORPUS_CAP <? List.length candidates)%nat = true →
  sortBy byDateDescending
    (List.firstn CORPUS_CAP
       (sortBy byQualityThenDate (sortBy byDateDescending candidates))) = final →
  final !! 0%nat = Some kept →
  candidates !! 0%nat = Some dropped →
  existsb (String.eqb (stat_line dropped)) (List.map stat_line final) = false →
  In kept (curate candidates) ∧ In dropped (dedupeEntries candidates)
  ∧ ¬ In dropped (curate candidates).
Proof.
  intros Hdistinct Hlen Hfinal Hkept Hdropped Habsent.
  pose proof (dedupeEntries_id _ (distinctb_NoDup _ Hdistinct)) as Hsame.
  apply Nat.ltb_lt in Hlen.
  rewrite curate_large by (rewrite Hsame; exact Hlen). rewrite Hsame, Hfinal.
  split; [eapply lookup_In, Hkept|]. split; [eapply lookup_In, Hdropped|].
  apply absent_stat_line, Habsent.
Qed.

Lemma cap_keeps_best_witness :
  (entryQualityScore (numbered 0) <= entryQualityScore (numbered 400))%Q
  ∧ ((entryQualityScore (numbered 0) == entryQualityScore (numbered 400))%Q →
     localeCompare (Host := refHost) (date (numbered 0)) (date (numbered 400)) ≠ Gt).
Proof.
  destruct (dropped_by_cap (H := refHost) crowdedCandidates
              (List.rev (List.skipn 1 crowdedCandidates)) (numbered 400) (numbered 0))
    as (Hkept & Hcandidate & Hdropped); try (vm_compute; reflexivity).
  exact (cap_keeps_best (H := refHost) crowdedCandidates (numbered 400) (numbered 0)
           Hkept Hcandidate Hdropped).
Defined.

Lemma curate_twice_witness :
  curate (H := refHost) (curate (H := refHost) sampleCandidates)
  = curate (H := refHost) sampleCandidates.
Proof. apply (curate_twice (H := refHost)). Defined.

(** ** What the parsers read *)

Lemma digitsValue_nonneg d acc : 0 ≤ acc → 0 ≤ digitsValue acc d.
Proof.
  revert acc. induction d as [|c d IH]; intros acc Hacc; [exact Hacc|]. cbn [digitsValue].
  apply IH. unfold digitValue. destruct (Ascii.is_nat c); lia.
Qed.

Lemma unsignedValue_nonneg tok : (0 <= unsignedValue tok)%Q.
Proof.
  unfold unsignedValue. destruct (takeDigits tok) as [int r].
  assert (Hint : (0 <= inject_Z (digitsValue 0 int))%Q).
  { change 0%Q with (inject_Z 0). rewrite <- Zle_Qle. apply digitsValue_nonneg. lia. }
  destruct r as [|c f]; [exact Hint|].
  destruct (Ascii.eqb_spec c "."%char) as [->|Hne];
    [|destruct c as [[] [] [] [] [] [] [] []]; try exact Hint; congruence].
  assert (Hfrac : (0 <= inject_Z (digitsValue 0 f) / inject_Z (10 ^ Z.of_nat (String.length f)))%Q).
  { apply Qle_shift_div_l.
    - change 0%Q with (inject_Z 0). rewrite <- Zlt_Qlt. apply Z.pow_pos_nonneg; lia.
    - rewrite Qmult_0_l. change 0%Q with (inject_Z 0). rewrite <- Zle_Qle.
      apply digitsValue_nonneg. lia. }
  lra.
Qed.

Lemma takeDecimal_head s tok rest :
  takeDecimal s = Some (tok, rest) → ∃ c t, tok = String c t ∧ isDigit c = true.
Proof.
  unfold takeDecimal. destruct s as [|c s]; [discriminate|]. cbn [takeDigits].
  destruct (isDigit c) eqn:Hc; [|discriminate].
  destruct (takeDigits s) as [d t]. cbn [isEmpty].
  destruct t as [|a t'].
  - intros [= <- <-]. eauto.
  - destruct (Ascii.eqb_spec a "."%char) as [->|Hne].
    + destruct (takeDigits t') as [f r3]. destruct (isEmpty f); intros [= <- <-]; eauto.
    + destruct a as [[] [] [] [] [] [] [] []];
        try (exfalso; apply Hne; reflexivity); intros [= <- <-]; eauto.
Qed.

Lemma NumberOf_digit_head c t : isDigit c = true → NumberOf (String c t) = unsignedValue (String c t).
Proof.
  intros Hc. unfold NumberOf.
  destruct (Ascii.eqb_spec c "-"%char) as [->|Hne]; [discriminate Hc|].
  destruct c as [[] [] [] [] [] [] [] []]; try reflexivity; congruence.
Qed.

Lemma NumberOf_token_nonneg s tok rest :
  takeDecimal s = Some (tok, rest) → (0 <= NumberOf tok)%Q.
Proof.
  intros (c & t & -> & Hc)%takeDecimal_head. rewrite (NumberOf_digit_head c t Hc).
  apply unsignedValue_nonneg.
Qed.

Lemma matchNumber_no_minus s tok :
  hasMinus s = false → matchNumber s = Some tok → (0 <= NumberOf tok)%Q.
Proof.
  induction s as [|c s IH]; [discriminate|]. unfold hasMinus. cbn [list_ascii_of_string existsb].
  intros [Hc Hs]%orb_false_iff. cbn [matchNumber]. rewrite Ascii.eqb_sym in Hc. rewrite Hc.
  destruct (takeDecimal (String c s)) as [[tok' r]|] eqn:Hd.
  - intros [= <-]. eapply NumberOf_token_nonneg, Hd.
  - apply IH, Hs.
Qed.

(** X7.  A stat text without a minus sign never parses to a negative
    number; in particular the points figure that the quality score reads
    off a stat line without a minus sign is not negative. *)
Theorem parseNumberFromStat_nonneg :
  (∀ s, hasMinus s = false → (0 <= parseNumberFromStat (Some s))%Q)
  ∧ (∀ e, hasMinus (stat_line e) = false → (0 <= statLinePoints e)%Q).
Proof.
  assert (Hparse : ∀ s, hasMinus s = false → (0 <= parseNumberFromStat (Some s))%Q).
  { intros s Hs. unfold parseNumberFromStat.
    destruct (matchNumber s) as [tok|] eqn:Hm; [|apply Qle_refl].
    eapply matchNumber_no_minus; eassumption. }
  split; [exact Hparse|]. intros e He. unfold statLinePoints. apply Hparse.
  revert He. generalize (stat_line e). intros s.
  induction s as [|c s IH]; [reflexivity|]. cbn [splitHead].
  destruct (String.prefix " pts" (String c s)); [reflexivity|].
  unfold hasMinus in *. cbn [list_ascii_of_string existsb].
  intros [Hc Hs]%orb_false_iff. rewrite Hc. apply IH, Hs.
Qed.

Lemma parseNumberFromStat_nonneg_witness :
  (0 <= parseNumberFromStat (Some "10 of 20"))%Q ∧ (0 <= statLinePoints sampleTrauma)%Q.
Proof.
  destruct parseNumberFromStat_nonneg as [Hparse Hpoints].
  split; [apply Hparse|apply Hpoints]; vm_compute; reflexivity.
Defined.

Lemma takeDigits_all d : allDigits d = true → takeDigits d = (d, "").
Proof.
  intros Hd. rewrite <- (append_empty_r d) at 1. apply (takeDigits_app d "" Hd eq_refl).
Qed.

Lemma takeDigits_stop rest : endsNumber rest = true → takeDigits rest = ("", rest).
Proof.
  destruct rest as [|c r]; [reflexivity|]. cbn [endsNumber takeDigits].
  intros [Hc _]%andb_true_iff. apply negb_true_iff in Hc. rewrite Hc. reflexivity.
Qed.

Lemma allDigits_head d :
  allDigits d = true → d ≠ "" → ∃ c t, d = String c t ∧ isDigit c = true.
Proof.
  destruct d as [|c t]; [congruence|]. unfold allDigits. cbn [list_ascii_of_string forallb].
  intros [Hc _]%andb_true_iff _. eauto.
Qed.

Lemma takeDecimal_int d rest :
  allDigits d = true → d ≠ "" → endsNumber rest = true →
  takeDecimal (d +:+ rest) = Some (d, rest).
Proof.
  intros Hd Hne Hrest. unfold takeDecimal.
  rewrite (takeDigits_app d rest Hd (takeDigits_stop rest Hrest)).
  apply isEmpty_false in Hne. rewrite Hne.
  destruct rest as [|c r]; [reflexivity|]. cbn [endsNumber] in Hrest.
  apply andb_true_iff in Hrest as [_ Hpoint]. apply negb_true_iff in Hpoint.
  destruct (Ascii.eqb_spec c "."%char) as [->|Hc]; [discriminate Hpoint|].
  destruct c as [[] [] [] [] [] [] [] []]; try reflexivity; congruence.
Qed.

Lemma NumberOf_digits d : allDigits d = true → d ≠ "" → NumberOf d = digitsNumber d.
Proof.
  intros Hd Hne. destruct (allDigits_head d Hd Hne) as (c & t & -> & Hc).
  rewrite (NumberOf_digit_head c t Hc). unfold unsignedValue.
  rewrite (takeDigits_all _ Hd). reflexivity.
Qed.

Lemma matchNumber_int d rest :
  allDigits d = true → d ≠ "" → endsNumber rest = true →
  matchNumber (d +:+ rest) = Some d.
Proof.
  intros Hd Hne Hrest. pose proof (takeDecimal_int d rest Hd Hne Hrest) as Htake.
  destruct (allDigits_head d Hd Hne) as (c & t & -> & Hc).
  change (String c t +:+ rest) with (String c (t +:+ rest)) in Htake |- *.
  cbn [matchNumber]. rewrite Htake.
  destruct (Ascii.eqb_spec c "-"%char) as [->|_]; [discriminate Hc|]. reflexivity.
Qed.

Lemma matchNumber_skip pre s :
  hasDigit pre = false → hasMinus pre = false → matchNumber (pre +:+ s) = matchNumber s.
Proof.
  induction pre as [|c pre IH]; [reflexivity|]. intros Hd Hm.
  pose proof (hasDigit_tail c pre Hd) as Hd'.
  unfold hasDigit in Hd. unfold hasMinus in Hm.
  cbn [list_ascii_of_string existsb] in Hd, Hm.
  apply orb_false_iff in Hd as [Hc _]. apply orb_false_iff in Hm as [Hminus Hm].
  change (String c pre +:+ s) with (String c (pre +:+ s)). cbn [matchNumber].
  rewrite Ascii.eqb_sym in Hminus. rewrite Hminus.
  unfold takeDecimal at 1. cbn [takeDigits]. rewrite Hc. cbn [isEmpty].
  apply IH; assumption.
Qed.

(** X8.  [parseNumberFromStat] reads the first number of a text: a text
    that starts with an integer which is not continued by a digit or a point
    (as the made count in "10-20") has the value of that integer, with a
    minus sign in front the negated value, and a prefix without digit and
    without minus sign is skipped. *)
Theorem parseNumberFromStat_first_number :
  (∀ d rest, allDigits d = true → d ≠ "" → endsNumber rest = true →
             parseNumberFromStat (Some (d +:+ rest)) = digitsNumber d)
  ∧ (∀ d rest, allDigits d = true → d ≠ "" → endsNumber rest = true →
               parseNumberFromStat (Some ("-" +:+ d +:+ rest)) = (- digitsNumber d)%Q)
  ∧ (∀ pre s, hasDigit pre = false → hasMinus pre = false →
              parseNumberFromStat (Some (pre +:+ s)) = parseNumberFromStat (Some s)).
Proof.
  split; [|split].
  - intros d rest Hd Hne Hrest. unfold parseNumberFromStat.
    rewrite (matchNumber_int d rest Hd Hne Hrest). apply NumberOf_digits; assumption.
  - intros d rest Hd Hne Hrest. unfold parseNumberFromStat.
    change ("-" +:+ d +:+ rest) with (String "-" (d +:+ rest)). cbn [matchNumber].
    rewrite (takeDecimal_int d rest Hd Hne Hrest). cbn [Ascii.eqb Bool.eqb].
    destruct (allDigits_head d Hd Hne) as (c & t & Heq & Hc).
    unfold NumberOf. unfold unsignedValue. rewrite (takeDigits_all _ Hd). reflexivity.
  - intros pre s Hd Hm. unfold parseNumberFromStat.
    rewrite (matchNumber_skip pre s Hd Hm). reflexivity.
Qed.

Lemma parseNumberFromStat_first_number_witness :
  parseNumberFromStat (Some "10-20") = 10%Q
  ∧ parseNumberFromStat (Some "-7 net") = (- (7))%Q
  ∧ parseNumberFromStat (Some "FG: 12") = parseNumberFromStat (Some "12").
Proof.
  destruct parseNumberFromStat_first_number as (Hint & Hneg & Hskip).
  split; [|split].
  - apply (Hint "10" "-20"); [reflexivity|discriminate|reflexivity].
  - apply (Hneg "7" " net"); [reflexivity|discriminate|reflexivity].
  - apply (Hskip "FG: " "12"); reflexivity.
Defined.

Lemma digit_not_space c : isDigit c = true → Ascii.is_space c = false.
Proof. destruct c as [[] [] [] [] [] [] [] []]; intros Hc; try reflexivity; discriminate Hc. Qed.

Lemma allDigits_noSpace d : allDigits d = true → noSpace d = true.
Proof.
  unfold allDigits, noSpace. induction (list_ascii_of_string d) as [|c l IH]; [reflexivity|].
  cbn [forallb]. intros [Hc Hl]%andb_true_iff. rewrite (digit_not_space c Hc). apply IH, Hl.
Qed.

Lemma noSpace_app a b : noSpace (a +:+ b) = noSpace a && noSpace b.
Proof.
  induction a as [|c a IH]; [reflexivity|].
  change (String c a +:+ b) with (String c (a +:+ b)).
  unfold noSpace in *. cbn [list_ascii_of_string forallb]. rewrite IH. apply andb_assoc.
Qed.

Lemma trimEnd_noSpace s : noSpace s = true → trimEnd s = s.
Proof.
  induction s as [|c s IH]; [reflexivity|]. unfold noSpace. cbn [list_ascii_of_string forallb].
  intros [Hc Hs]%andb_true_iff. apply negb_true_iff in Hc. cbn [trimEnd].
  rewrite (IH Hs), Hc. reflexivity.
Qed.

Lemma trim_noSpace s : noSpace s = true → trim s = s.
Proof.
  intros Hs. unfold trim.
  assert (Hstart : trimStart s = s).
  { destruct s as [|c s]; [reflexivity|]. unfold noSpace in Hs.
    cbn [list_ascii_of_string forallb] in Hs. apply andb_true_iff in Hs as [Hc _].
    apply negb_true_iff in Hc. cbn [trimStart]. rewrite Hc. reflexivity. }
  rewrite Hstart. apply trimEnd_noSpace, Hs.
Qed.

Lemma matchColonClock_value m ss :
  allDigits m = true → m ≠ "" → allDigits ss = true → (1 ≤ String.length ss ≤ 2)%nat →
  matchColonClock (m +:+ ":" +:+ ss) = Some (m, ss, None).
Proof.
  intros Hm Hne Hss Hlen. unfold matchColonClock.
  rewrite (takeDigits_app m (":" +:+ ss) Hm eq_refl).
  apply isEmpty_false in Hne. rewrite Hne.
  change (":" +:+ ss) with (String ":" ss). cbv iota beta.
  rewrite (takeDigits_all ss Hss).
  assert (Hlenb : ((1 <=? String.length ss)%nat && (String.length ss <=? 2)%nat) = true).
  { apply andb_true_iff. split; apply Nat.leb_le; lia. }
  rewrite Hlenb. reflexivity.
Qed.

Lemma colon_text_nonempty m ss : isEmpty (m +:+ ":" +:+ ss) = false.
Proof. rewrite isEmpty_app. destruct (isEmpty m); reflexivity. Qed.

Lemma colon_text_noSpace m ss :
  allDigits m = true → allDigits ss = true → noSpace (m +:+ ":" +:+ ss) = true.
Proof.
  intros Hm Hss. rewrite noSpace_app, (allDigits_noSpace m Hm).
  change (":" +:+ ss) with (String ":" ss). unfold noSpace. cbn [list_ascii_of_string forallb].
  apply (allDigits_noSpace ss Hss).
Qed.

(** X9.  [parseMinutes] reads the notations of a minutes column: a text of
    digits is that many minutes, "M:SS" is M minutes and SS sixtieths, and
    the duration "PTmMsS" is m minutes and s sixtieths. *)
Theorem parseMinutes_notations :
  (∀ d, allDigits d = true → d ≠ "" → parseMinutes (Some d) = digitsNumber d)
  ∧ (∀ m ss, allDigits m = true → m ≠ "" → allDigits ss = true →
             (1 ≤ String.length ss ≤ 2)%nat →
             parseMinutes (Some (m +:+ ":" +:+ ss))
             = (digitsNumber m + digitsNumber ss / 60)%Q)
  ∧ (∀ m sec, allDigits m = true → m ≠ "" → allDigits sec = true → sec ≠ "" →
              parseMinutes (Some ("PT" +:+ m +:+ "M" +:+ sec +:+ "S"))
              = (digitsNumber m + digitsNumber sec / 60)%Q).
Proof.
  split; [|split].
  - intros d Hd Hne. unfold parseMinutes, orEmpty, orElse.
    apply isEmpty_false in Hne. rewrite Hne, (trim_noSpace d (allDigits_noSpace d Hd)), Hne.
    rewrite <- (append_empty_r d) at 1.
    rewrite (takeDecimal_int d "" Hd (proj1 (isEmpty_false d) Hne) eq_refl).
    apply NumberOf_digits; [exact Hd|apply isEmpty_false, Hne].
  - intros m ss Hm Hne Hss Hlen. unfold parseMinutes, orEmpty, orElse.
    rewrite (colon_text_nonempty m ss), (trim_noSpace _ (colon_text_noSpace m ss Hm Hss)).
    rewrite (colon_text_nonempty m ss).
    rewrite (takeDecimal_int m (":" +:+ ss) Hm Hne eq_refl).
    change (":" +:+ ss) with (String ":" ss) at 1. cbv iota beta.
    rewrite (matchColonClock_value m ss Hm Hne Hss Hlen).
    rewrite (NumberOf_digits m Hm Hne).
    assert (Hssne : ss ≠ "") by (intros ->; cbn in Hlen; lia).
    rewrite (NumberOf_digits ss Hss Hssne). reflexivity.
  - intros m sec Hm Hne Hsec Hsecne. unfold parseMinutes, orEmpty, orElse.
    assert (Hclean : noSpace ("PT" +:+ m +:+ "M" +:+ sec +:+ "S") = true).
    { change ("PT" +:+ m +:+ "M" +:+ sec +:+ "S")
        with (String "P" (String "T" (m +:+ String "M" (sec +:+ "S")))).
      unfold noSpace. cbn [list_ascii_of_string forallb Ascii.is_space negb andb].
      fold (noSpace (m +:+ String "M" (sec +:+ "S"))).
      rewrite noSpace_app, (allDigits_noSpace m Hm).
      unfold noSpace. cbn [list_ascii_of_string forallb Ascii.is_space negb andb].
      fold (noSpace (sec +:+ "S")). rewrite noSpace_app, (allDigits_noSpace sec Hsec).
      reflexivity. }
    change (isEmpty ("PT" +:+ m +:+ "M" +:+ sec +:+ "S")) with false. cbv iota.
    rewrite (trim_noSpace _ Hclean).
    change ("PT" +:+ m +:+ "M" +:+ sec +:+ "S")
      with (String "P" (String "T" (m +:+ String "M" (sec +:+ "S")))).
    cbn [isEmpty]. unfold takeDecimal at 1. cbn [takeDigits isDigit Ascii.is_nat isEmpty].
    unfold matchColonClock. cbn [takeDigits isDigit Ascii.is_nat isEmpty].
    unfold matchIsoDuration.
    change (sameLetter "P" "P") with true. change (sameLetter "T" "T") with true.
    cbn [andb].
    rewrite (takeDigits_app m (String "M" (sec +:+ "S")) Hm eq_refl).
    apply isEmpty_false in Hne. rewrite Hne.
    change (sameLetter "M" "M") with true. cbn [negb andb].
    rewrite (takeDecimal_int sec "S" Hsec Hsecne eq_refl).
    change (sameLetter "S" "S") with true. cbn [isEmpty numberOrZero].
    rewrite (NumberOf_digits m Hm (proj1 (isEmpty_false m) Hne)).
    rewrite (NumberOf_digits sec Hsec Hsecne). reflexivity.
Qed.

Lemma parseMinutes_notations_witness :
  parseMinutes (Some "34") = 34%Q
  ∧ parseMinutes (Some "24:30") = (24 + 30 / 60)%Q
  ∧ parseMinutes (Some "PT12M05S") = (12 + 5 / 60)%Q.
Proof.
  destruct parseMinutes_notations as (Hplain & Hclock & Hiso).
  split; [|split].
  - apply (Hplain "34"); [reflexivity|discriminate].
  - apply (Hclock "24" "30"); [reflexivity|discriminate|reflexivity|cbn; lia].
  - apply (Hiso "12" "05"); [reflexivity|discriminate|reflexivity|discriminate].
Defined.

Lemma NumberOf_digitHead_nonneg tok : digitHead tok → (0 <= NumberOf tok)%Q.
Proof.
  intros (c & t & -> & Hc). rewrite (NumberOf_digit_head c t Hc). apply unsignedValue_nonneg.
Qed.

Lemma clockValue_nonneg m ss f :
  digitHead m → digitHead ss → (0 <= clockValue (m, ss, f))%Q.
Proof.
  intros Hm Hss. unfold clockValue.
  pose proof (NumberOf_digitHead_nonneg m Hm). pose proof (NumberOf_digitHead_nonneg ss Hss).
  assert (Hf : (0 <= match f with Some d => NumberOf ("0." +:+ d) | None => 0 end)%Q).
  { destruct f as [d|]; [|apply Qle_refl]. apply NumberOf_digitHead_nonneg.
    exists "0"%char, (String "." d). split; reflexivity. }
  nra.
Qed.

Lemma matchColonClock_heads s m ss f :
  matchColonClock s = Some (m, ss, f) → digitHead m ∧ digitHead ss.
Proof.
  unfold matchColonClock.
  destruct (takeDigits s) as [m' r] eqn:Hm.
  destruct (takeDigits_spec _ _ _ Hm) as [_ Hdm].
  destruct (isEmpty m') eqn:Hem; [discriminate|]. apply isEmpty_false in Hem.
  destruct r as [|a r2]; [discriminate|].
  destruct (Ascii.eqb_spec a ":"%char) as [->|Hne];
    [|destruct a as [[] [] [] [] [] [] [] []]; try discriminate; congruence].
  destruct (takeDigits r2) as [ss' r3] eqn:Hss.
  destruct (takeDigits_spec _ _ _ Hss) as [_ Hds].
  destruct ((1 <=? String.length ss')%nat && (String.length ss' <=? 2)%nat) eqn:Hlen;
    [|discriminate].
  apply andb_true_iff in Hlen as [H1%Nat.leb_le _].
  assert (Hssne : ss' ≠ "") by (intros ->; cbn in H1; lia).
  assert (Hres : digitHead m' ∧ digitHead ss')
    by (split; apply allDigits_head; assumption).
  destruct r3 as [|b r4].
  - intros [= <- <- _]. exact Hres.
  - destruct (Ascii.eqb_spec b "."%char) as [->|Hne];
      [|destruct b as [[] [] [] [] [] [] [] []]; try discriminate; congruence].
    destruct (takeDigits r4) as [f' r5]. destruct (negb (isEmpty f') && isEmpty r5);
      [|discriminate].
    intros [= <- <- _]. exact Hres.
Qed.

Lemma matchTextClock_heads s m ss f :
  matchTextClock s = Some (m, ss, f) → digitHead m ∧ digitHead ss.
Proof.
  induction s as [|a r IH]; [discriminate|]. cbn [matchTextClock].
  destruct r as [|x r1]; [exact IH|].
  destruct (Ascii.eqb_spec x ":"%char) as [->|Hne];
    [|destruct x as [[] [] [] [] [] [] [] []]; try exact IH; congruence].
  destruct r1 as [|b [|c r']]; try exact IH.
  destruct (isDigit a && isDigit b && isDigit c) eqn:Hd; [|exact IH].
  apply andb_true_iff in Hd as [[Ha Hb]%andb_true_iff Hc].
  intros [= <- <- _]. split; [exists a, ""|exists b, (String c "")]; auto.
Qed.

(** X10.  [parseClockToSeconds] never yields a negative time; a display
    clock "M:SS" is 60 M + SS seconds whatever the description says; and
    whenever the display clock has the shape of a clock the description is
    not consulted. *)
Theorem parseClockToSeconds_display :
  (∀ p q, parseClockToSeconds p = Seconds q → (0 <= q)%Q)
  ∧ (∀ m ss text, allDigits m = true → m ≠ "" → allDigits ss = true →
                  (1 ≤ String.length ss ≤ 2)%nat →
                  parseClockToSeconds (Some (Play (Some (m +:+ ":" +:+ ss)) text))
                  = Seconds (digitsNumber m * 60 + digitsNumber ss + 0)%Q)
  ∧ (∀ display text1 text2, DisplayClock (trim (orEmpty display)) →
                            parseClockToSeconds (Some (Play display text1))
                            = parseClockToSeconds (Some (Play display text2))).
Proof.
  split; [|split].
  - intros p q. unfold parseClockToSeconds.
    destruct (matchColonClock _) as [[[m ss] f]|] eqn:Hd.
    { intros [= <-]. apply matchColonClock_heads in Hd as [Hm Hss].
      apply clockValue_nonneg; assumption. }
    destruct (matchTextClock _) as [[[m ss] f]|] eqn:Ht; [|discriminate].
    intros [= <-]. apply matchTextClock_heads in Ht as [Hm Hss].
    apply clockValue_nonneg; assumption.
  - intros m ss text Hm Hne Hss Hlen. unfold parseClockToSeconds.
    change (clock_displayValue (default emptyPlay (Some (Play (Some (m +:+ ":" +:+ ss)) text))))
      with (Some (m +:+ ":" +:+ ss)).
    unfold orEmpty, orElse.
    rewrite (colon_text_nonempty m ss), (trim_noSpace _ (colon_text_noSpace m ss Hm Hss)).
    rewrite (matchColonClock_value m ss Hm Hne Hss Hlen). unfold clockValue.
    assert (Hssne : ss ≠ "") by (intros ->; cbn in Hlen; lia).
    rewrite (NumberOf_digits m Hm Hne), (NumberOf_digits ss Hss Hssne). reflexivity.
  - intros display text1 text2 Hshape. unfold parseClockToSeconds.
    change (clock_displayValue (default emptyPlay (Some (Play display text1)))) with display.
    change (clock_displayValue (default emptyPlay (Some (Play display text2)))) with display.
    destruct (matchColonClock_complete _ Hshape) as [g Hg]. rewrite Hg. reflexivity.
Qed.

Lemma parseClockToSeconds_display_witness :
  parseClockToSeconds (Some (Play (Some "0:02") (Some "made at 9:59")))
  = Seconds (0 * 60 + 2 + 0)%Q.
Proof.
  destruct parseClockToSeconds_display as (_ & Hdisplay & _).
  apply (Hdisplay "0" "02"); [reflexivity|discriminate|reflexivity|cbn; lia].
Defined.

(** ** Context extraction *)

Section ContextFacts.
Context `{Host}.

(** X11.  Context extraction succeeds exactly when a competitor of the team
    and a competitor of another team are listed.  The context then holds
    the first competition of the summary, the first competitor of either
    kind, their scores, the winner flag of the team's competitor (scores are
    not compared), and HOME or AWAY as the side. *)
Theorem context_resolution (s : summary) :
  (is_Some (collectPacersTeamContext s) ↔ Resolvable s)
  ∧ ∀ ctx, collectPacersTeamContext s = Some ctx →
      ctx_competition ctx = firstCompetition s
      ∧ List.find (λ c, String.eqb (competitorTeamId c) PACERS_TEAM_ID)
          (competitors (firstCompetition s)) = Some (pacersComp ctx)
      ∧ List.find (λ c, negb (String.eqb (competitorTeamId c) PACERS_TEAM_ID))
          (competitors (firstCompetition s)) = Some (oppComp ctx)
      ∧ competitorTeamId (pacersComp ctx) = PACERS_TEAM_ID
      ∧ competitorTeamId (oppComp ctx) ≠ PACERS_TEAM_ID
      ∧ pacersScore ctx = numberOr0 (comp_score (pacersComp ctx))
      ∧ oppScore ctx = numberOr0 (comp_score (oppComp ctx))
      ∧ (won ctx = true ↔ comp_winner (pacersComp ctx) = Some true)
      ∧ (ctx_homeAway ctx = "HOME" ∨ ctx_homeAway ctx = "AWAY").
Proof.
  split.
  - split; [|apply collect_resolvable].
    intros [ctx Hctx]. unfold collectPacersTeamContext in Hctx.
    destruct (List.find _ (competitors (firstCompetition s))) as [p|] eqn:Hp;
      [|discriminate].
    destruct (List.find (λ team, negb _) (competitors (firstCompetition s))) as [o|] eqn:Ho;
      [|discriminate].
    apply find_some in Hp as [Hinp Hidp]. apply find_some in Ho as [Hino Hido].
    split; [exists p|exists o]; split; auto.
    + apply String.eqb_eq, Hidp.
    + apply String.eqb_neq, negb_true_iff, Hido.
  - intros ctx. unfold collectPacersTeamContext.
    destruct (List.find _ (competitors (firstCompetition s))) as [p|] eqn:Hp;
      [|discriminate].
    destruct (List.find (λ team, negb _) (competitors (firstCompetition s))) as [o|] eqn:Ho;
      [|discriminate].
    intros [= <-]. cbn [ctx_competition pacersComp oppComp pacersScore oppScore won ctx_homeAway].
    apply find_some in Hp as [_ Hidp]. apply find_some in Ho as [_ Hido].
    repeat split; try reflexivity.
    + apply String.eqb_eq, Hidp.
    + apply String.eqb_neq, negb_true_iff, Hido.
    + destruct (comp_winner p) as [[]|]; congruence.
    + destruct (comp_winner p) as [[]|]; congruence.
    + destruct (String.eqb _ "HOME"); auto.
Qed.

End ContextFacts.

Lemma context_resolution_witness :
  pacersScore (contextOf quickScorerGame) = 110%Q
  ∧ (ctx_homeAway (contextOf quickScorerGame) = "HOME"
     ∨ ctx_homeAway (contextOf quickScorerGame) = "AWAY").
Proof.
  destruct (context_resolution (H := refHost) quickScorerGame) as [_ Hfacts].
  destruct (Hfacts (contextOf quickScorerGame) eq_refl)
    as (_ & _ & _ & _ & _ & Hscore & _ & _ & Hside).
  split; [exact Hscore|exact Hside].
Defined.

(** ** Peak lead *)

Lemma Qgtb_max x y : Qgtb x y = true ∨ Qgtb x y = false.
Proof. destruct (Qgtb x y); auto. Qed.

Lemma peakLeadStep_bounds pacersHome lead wp :
  (lead <= peakLeadStep pacersHome lead wp)%Q
  ∧ (sampleEdge pacersHome wp <= peakLeadStep pacersHome lead wp)%Q
  ∧ (sampleImplied pacersHome wp <= peakLeadStep pacersHome lead wp)%Q
  ∧ (peakLeadStep pacersHome lead wp = lead
     ∨ peakLeadStep pacersHome lead wp = sampleEdge pacersHome wp
     ∨ peakLeadStep pacersHome lead wp = sampleImplied pacersHome wp).
Proof.
  unfold peakLeadStep. cbv zeta.
  fold (sampleEdge pacersHome wp). fold (sampleImplied pacersHome wp).
  set (edge := sampleEdge pacersHome wp). set (implied := sampleImplied pacersHome wp).
  destruct (Qgtb edge lead) eqn:He.
  - apply Qgtb_spec in He. destruct (Qgtb implied edge) eqn:Hi.
    + apply Qgtb_spec in Hi. repeat split; try lra. auto.
    + apply Qltb_false in Hi. repeat split; try lra. auto.
  - apply Qltb_false in He. destruct (Qgtb implied lead) eqn:Hi.
    + apply Qgtb_spec in Hi. repeat split; try lra. auto.
    + apply Qltb_false in Hi. repeat split; try lra. auto.
Qed.

Lemma peakLead_fold_bounds pacersHome samples lead :
  (lead <= fold_left (peakLeadStep pacersHome) samples lead)%Q
  ∧ Forall (λ wp, (sampleEdge pacersHome wp
                   <= fold_left (peakLeadStep pacersHome) samples lead)%Q
                  ∧ (sampleImplied pacersHome wp
                     <= fold_left (peakLeadStep pacersHome) samples lead)%Q) samples
  ∧ (fold_left (peakLeadStep pacersHome) samples lead = lead
     ∨ Exists (λ wp, fold_left (peakLeadStep pacersHome) samples lead
                     = sampleEdge pacersHome wp
                     ∨ fold_left (peakLeadStep pacersHome) samples lead
                       = sampleImplied pacersHome wp) samples).
Proof.
  revert lead. induction samples as [|wp samples IH]; intros lead.
  - cbn. split; [apply Qle_refl|]. split; [constructor|left; reflexivity].
  - cbn [fold_left].
    destruct (peakLeadStep_bounds pacersHome lead wp) as (Hlead & Hedge & Himp & Hwhich).
    destruct (IH (peakLeadStep pacersHome lead wp)) as (Hgrow & Hall & Hattained).
    split; [lra|]. split.
    + constructor; [split; lra|exact Hall].
    + destruct Hattained as [Hsame|Hlater].
      * rewrite Hsame. destruct Hwhich as [->|Hwhich]; [left; reflexivity|].
        right. apply Exists_cons_hd. destruct Hwhich; auto.
      * right. apply Exists_cons_tl, Hlater.
Qed.

(** X12.  The peak lead is never negative, is at least the score
    differential and the implied lead of every win-probability sample, and
    is 0 unless one of the samples attains it (so without samples it is
    0). *)
Theorem peak_lead_is_maximum (s : summary) (ctx : context) :
  (0 <= getPacersPeakLead s ctx)%Q
  ∧ Forall (λ wp, (sampleEdge (pacersAtHome ctx) wp <= getPacersPeakLead s ctx)%Q
                  ∧ (sampleImplied (pacersAtHome ctx) wp <= getPacersPeakLead s ctx)%Q)
      (winprobability s)
  ∧ (getPacersPeakLead s ctx = 0%Q
     ∨ Exists (λ wp, getPacersPeakLead s ctx = sampleEdge (pacersAtHome ctx) wp
                     ∨ getPacersPeakLead s ctx = sampleImplied (pacersAtHome ctx) wp)
         (winprobability s)).
Proof.
  unfold getPacersPeakLead. cbv zeta. fold (pacersAtHome ctx).
  destruct (peakLead_fold_bounds (pacersAtHome ctx) (winprobability s) 0)
    as (Hgrow & Hall & Hattained).
  split; [exact Hgrow|]. split; [exact Hall|exact Hattained].
Qed.

(** ** What the classifiers emit *)

Section ClassifierFacts.
Context `{Host}.

Lemma rowEvents_length s ctx r avg : (List.length (rowEvents s ctx r avg) ≤ 2)%nat.
Proof.
  unfold rowEvents. rewrite List.length_app.
  destruct (negb (isEmpty (randomWhyOf r avg))), (negb (isEmpty (chaosWhyOf r)));
    cbn [List.length]; lia.
Qed.

Lemma rowEvents_categories s ctx r avg :
  Forall (λ e, (category e = "RANDOM_EXPLOSION" ∨ category e = "CHAOS") ∧ trauma e = false)
    (rowEvents s ctx r avg).
Proof.
  unfold rowEvents. apply Forall_app. split.
  - destruct (negb _); [|exact (List.Forall_nil _)].
    constructor; [|exact (List.Forall_nil _)]. split; [left|]; reflexivity.
  - destruct (negb _); [|exact (List.Forall_nil _)].
    constructor; [|exact (List.Forall_nil _)]. split; [right|]; reflexivity.
Qed.

Lemma playerRows_length s ctx seasonKey labels rows events store :
  (List.length (fst (fold_left (playerRowStep s ctx seasonKey labels) rows (events, store)))
   ≤ List.length events + 2 * List.length rows)%nat.
Proof.
  revert events store. induction rows as [|row rows IH]; intros events store.
  - cbn. lia.
  - cbn [fold_left].
    destruct (playerRowStep s ctx seasonKey labels (events, store) row)
      as [events' store'] eqn:Hstep.
    apply (f_equal fst) in Hstep. rewrite playerRowStep_events in Hstep.
    cbn [fst] in Hstep. subst events'.
    etransitivity; [apply IH|]. rewrite List.length_app. cbn [List.length].
    pose proof (rowEvents_length s ctx (readRow row labels)
                  (averageOf store (avgKeyOf seasonKey (line_name (readRow row labels))))).
    lia.
Qed.

Lemma playerRows_categories s ctx seasonKey labels rows events store :
  Forall (λ e, (category e = "RANDOM_EXPLOSION" ∨ category e = "CHAOS") ∧ trauma e = false)
    events →
  Forall (λ e, (category e = "RANDOM_EXPLOSION" ∨ category e = "CHAOS") ∧ trauma e = false)
    (fst (fold_left (playerRowStep s ctx seasonKey labels) rows (events, store))).
Proof.
  revert events store. induction rows as [|row rows IH]; intros events store Hev;
    [exact Hev|].
  cbn [fold_left].
  destruct (playerRowStep s ctx seasonKey labels (events, store) row)
    as [events' store'] eqn:Hstep.
  apply IH. apply (f_equal fst) in Hstep. rewrite playerRowStep_events in Hstep.
  cbn [fst] in Hstep. subst events'. apply Forall_app. split; [exact Hev|].
  apply rowEvents_categories.
Qed.

(** X13.  The player classifier emits at most two entries per boxscore
    row, each a RANDOM_EXPLOSION or a CHAOS entry without the trauma flag;
    when the boxscore has no block for the team it emits nothing and leaves
    the store as it is. *)
Theorem player_entries_bounded (s : summary) (ctx : context)
    (store : gmap string average) (seasonKey : string) :
  (List.length (fst (detectPlayerMoments s ctx store seasonKey))
   ≤ 2 * List.length (boxscoreRows s))%nat
  ∧ Forall (λ e, (category e = "RANDOM_EXPLOSION" ∨ category e = "CHAOS")
                 ∧ trauma e = false)
      (fst (detectPlayerMoments s ctx store seasonKey))
  ∧ (pacersPlayerBlock s = None → detectPlayerMoments s ctx store seasonKey = ([], store)).
Proof.
  unfold detectPlayerMoments, boxscoreRows.
  destruct (pacersPlayerBlock s) as [block|].
  - split; [|split].
    + etransitivity; [apply playerRows_length|]. cbn [List.length]. lia.
    + apply playerRows_categories. exact (List.Forall_nil _).
    + discriminate.
  - split; [cbn; lia|]. split; [exact (List.Forall_nil _)|reflexivity].
Qed.

(** X14.  The store matters to the explosion rules only through the
    breakout rule: a row whose player has fewer than 8 recorded games is
    judged as that of a player without any record, and a row with fewer
    than 35 points, or with 45 or more, is judged the same whatever the
    record is. *)
Theorem breakout_needs_history (s : summary) (ctx : context) (r : rowLine) :
  (∀ avg, games avg < 8 → rowEvents s ctx r avg = rowEvents s ctx r (Average 0 0))
  ∧ (∀ avg avg', (line_points r < 35)%Q ∨ (45 <= line_points r)%Q →
                 rowEvents s ctx r avg = rowEvents s ctx r avg').
Proof.
  split.
  - intros avg Hfew. unfold rowEvents.
    assert (Hwhy : randomWhyOf r avg = randomWhyOf r (Average 0 0)).
    { unfold randomWhyOf. cbv zeta. cbn [games].
      destruct (Z.leb_spec 8 (games avg)) as [Hmany|_]; [lia|].
      change (8 <=? 0) with false. rewrite !andb_false_r. reflexivity. }
    rewrite Hwhy. reflexivity.
  - intros avg avg' Hpoints. unfold rowEvents.
    assert (Hwhy : randomWhyOf r avg = randomWhyOf r avg').
    { unfold randomWhyOf. cbv zeta.
      destruct (line_isBench r && Qgeb (line_points r) 30); [reflexivity|].
      destruct (Qgeb (line_points r) 45) eqn:H45; [reflexivity|].
      destruct (Qgeb (line_points r) 35) eqn:H35; [|reflexivity].
      exfalso. apply Qgeb_spec in H35. apply Qgeb_false in H45.
      destruct Hpoints as [Hlow|Hhigh]; [lra|contradiction]. }
    rewrite Hwhy. reflexivity.
Qed.

End ClassifierFacts.

Lemma player_entries_bounded_witness :
  detectPlayerMoments (H := refHost) (shootingGame "33.3") (contextOf (shootingGame "33.3"))
    {["2023-24:Reserve Guard" := Average 3 40]} "2023-24"
  = ([], {["2023-24:Reserve Guard" := Average 3 40]}).
Proof.
  apply (player_entries_bounded (H := refHost)). reflexivity.
Defined.

Lemma breakout_needs_history_witness :
  rowEvents (H := refHost) quickScorerGame (contextOf quickScorerGame)
    (readRow (AthleteRow (Some "Rookie") (Some "9") ["30:00"; "40"] (Some true)) ["MIN"; "PTS"])
    (Average 7 35)
  = [].
Proof.
  destruct (breakout_needs_history (H := refHost) quickScorerGame (contextOf quickScorerGame)
              (readRow (AthleteRow (Some "Rookie") (Some "9") ["30:00"; "40"] (Some true))
                 ["MIN"; "PTS"])) as [Hfew _].
  rewrite (Hfew (Average 7 35)); [vm_compute; reflexivity|cbn; lia].
Defined.

Lemma prefix_of_append p s : String.prefix p (p +:+ s) = true.
Proof.
  induction p as [|c p IH]; [destruct s; reflexivity|].
  change (String c p +:+ s) with (String c (p +:+ s)). cbn [String.prefix].
  destruct (ascii_dec c c); [exact IH|congruence].
Qed.

Section TeamFacts.
Context `{Host}.

Lemma team_item_entry ctx s why :
  teamEntry ctx (createBaseEntry ctx s teamEvent (teamStatLine ctx) "TEAM_WEIRDNESS" why).
Proof. repeat split. Qed.

(** X15.  The team classifier emits at most five entries, all
    TEAM_WEIRDNESS entries of the "Team Event" player with the score line of
    the game; for a game the team won only the cold-shooting and the
    150-points-allowed rules can fire, and for a game it did not win the
    cold-shooting entry is never emitted. *)
Theorem team_entries_by_result (s : summary) (ctx : context) :
  (List.length (detectTeamWeirdness s ctx) ≤ 5)%nat
  ∧ Forall (teamEntry ctx) (detectTeamWeirdness s ctx)
  ∧ (won ctx = true →
     (List.length (detectTeamWeirdness s ctx) ≤ 2)%nat
     ∧ Forall (λ e, String.prefix "Pacers won while shooting " (why e) = true
                    ∨ why e = "Allowed 150+. Historical nonsense occurred.")
         (detectTeamWeirdness s ctx))
  ∧ (won ctx = false →
     Forall (λ e, String.prefix "Pacers won" (why e) = false) (detectTeamWeirdness s ctx)).
Proof.
  unfold detectTeamWeirdness. cbv zeta.
  change (ts_won (parseTeamStats s ctx)) with (won ctx).
  split; [|split; [|split]].
  - rewrite !List.length_app.
    repeat match goal with |- context [if ?b then _ else _] => destruct b end;
      cbn [List.length]; lia.
  - repeat (apply Forall_app; split);
      match goal with |- Forall _ (if ?b then _ else _) => destruct b end;
      first [ exact (List.Forall_nil _)
            | constructor; [apply team_item_entry|exact (List.Forall_nil _)] ].
  - intros Hwon. rewrite Hwon. cbn [negb andb]. cbv iota.
    destruct (Qgtb _ _ && Qltb _ _); destruct (Qgeb (ts_oppScore _) 150);
      cbn [app List.length]; (split; [lia|]);
      repeat (constructor; [first [left; apply prefix_of_append|right; reflexivity]|]);
      exact (List.Forall_nil _).
  - intros Hlost. rewrite Hlost. cbn [negb andb]. cbv iota.
    repeat match goal with |- context [if ?b then _ else _] => destruct b end;
      cbn [app]; repeat (constructor; [reflexivity|]); exact (List.Forall_nil _).
Qed.

(** X16.  A lost game with a peak lead of 20 or more is reported by both
    classifiers: the team classifier emits the blown-lead entry and the
    trauma classifier emits exactly one entry. *)
Theorem blown_lead_reported (s : summary) (ctx : context) :
  won ctx = false → (20 <= getPacersPeakLead s ctx)%Q →
  In (createBaseEntry ctx s teamEvent (teamStatLine ctx) "TEAM_WEIRDNESS"
        ("Blew a " +:+ numberToString (mathRound (getPacersPeakLead s ctx))
         +:+ "-point lead."))
     (detectTeamWeirdness s ctx)
  ∧ ∃ e, detectTrauma s ctx = [e] ∧ trauma e = true.
Proof.
  intros Hlost Hlead. apply Qgeb_spec in Hlead. split.
  - unfold detectTeamWeirdness. cbv zeta.
    change (ts_won (parseTeamStats s ctx)) with (won ctx). rewrite Hlost, Hlead.
    cbn [negb andb]. apply in_or_app. right. apply in_or_app. right.
    apply in_or_app. right. apply in_or_app. left. left. reflexivity.
  - unfold detectTrauma. rewrite Hlost.
    assert (Hsome : traumaReasonsOf s ctx ≠ []).
    { unfold traumaReasonsOf, blownLead. rewrite Hlead.
      destruct (eliminationLoss ctx), (game7Loss ctx), (lateRoundLoss ctx), (rivalLoss ctx);
        discriminate. }
    destruct (traumaReasonsOf s ctx) as [|reason rest]; [congruence|].
    eexists. split; reflexivity.
Qed.

End TeamFacts.

Lemma team_entries_by_result_witness :
  (List.length (detectTeamWeirdness (H := refHost) (shootingGame "33.3")
                  (contextOf (shootingGame "33.3"))) ≤ 2)%nat
  ∧ Forall (λ e, String.prefix "Pacers won" (why e) = false)
      (detectTeamWeirdness (H := refHost) (game7Loss_game [])
         (contextOf (game7Loss_game []))).
Proof.
  split.
  - apply (team_entries_by_result (H := refHost) (shootingGame "33.3")
             (contextOf (shootingGame "33.3"))). reflexivity.
  - apply (team_entries_by_result (H := refHost) (game7Loss_game [])
             (contextOf (game7Loss_game []))). reflexivity.
Defined.

Lemma blown_lead_reported_witness :
  ∃ e, detectTrauma (H := refHost) (game7Loss_game decidedSeries)
         (contextOf (game7Loss_game decidedSeries)) = [e]
       ∧ trauma e = true.
Proof.
  apply (blown_lead_reported (H := refHost) (game7Loss_game decidedSeries)
           (contextOf (game7Loss_game decidedSeries))); [reflexivity|Qcheck].
Defined.

(** ** Entries and the game they come from *)

Section GameEntries.
Context `{Host}.

Lemma rowEvents_built s ctx r avg : Forall (builtFor s ctx) (rowEvents s ctx r avg).
Proof.
  unfold rowEvents. apply Forall_app. split;
    (destruct (negb _); [|exact (List.Forall_nil _)]);
    (constructor; [|exact (List.Forall_nil _)]); left; do 4 eexists; split;
    [reflexivity|auto|reflexivity|auto].
Qed.

Lemma playerRows_built s ctx seasonKey labels rows events store :
  Forall (builtFor s ctx) events →
  Forall (builtFor s ctx)
    (fst (fold_left (playerRowStep s ctx seasonKey labels) rows (events, store))).
Proof.
  revert events store. induction rows as [|row rows IH]; intros events store Hev;
    [exact Hev|].
  cbn [fold_left].
  destruct (playerRowStep s ctx seasonKey labels (events, store) row)
    as [events' store'] eqn:Hstep.
  apply IH. apply (f_equal fst) in Hstep. rewrite playerRowStep_events in Hstep.
  cbn [fst] in Hstep. subst events'. apply Forall_app. split; [exact Hev|].
  apply rowEvents_built.
Qed.

Lemma detectPlayerMoments_built s ctx store seasonKey :
  Forall (builtFor s ctx) (fst (detectPlayerMoments s ctx store seasonKey)).
Proof.
  unfold detectPlayerMoments. destruct (pacersPlayerBlock s); [|exact (List.Forall_nil _)].
  apply playerRows_built. exact (List.Forall_nil _).
Qed.

Lemma detectTeamWeirdness_built s ctx : Forall (builtFor s ctx) (detectTeamWeirdness s ctx).
Proof.
  unfold detectTeamWeirdness. cbv zeta.
  repeat (apply Forall_app; split);
    match goal with |- Forall _ (if ?b then _ else _) => destruct b end;
    first [ exact (List.Forall_nil _)
          | constructor; [|exact (List.Forall_nil _)]; left; do 4 eexists;
            split; [reflexivity|auto] ].
Qed.

Lemma detectTrauma_built s ctx : Forall (builtFor s ctx) (detectTrauma s ctx).
Proof.
  unfold detectTrauma. destruct (won ctx); [exact (List.Forall_nil _)|].
  destruct (traumaReasonsOf s ctx); [exact (List.Forall_nil _)|].
  constructor; [|exact (List.Forall_nil _)]. right. unfold traumaBase.
  do 5 eexists. reflexivity.
Qed.

Lemma gameEntries_built s ctx store : Forall (builtFor s ctx) (gameEntries s ctx store).
Proof.
  unfold gameEntries. apply Forall_app. split; [apply detectPlayerMoments_built|].
  apply Forall_app. split; [apply detectTeamWeirdness_built|apply detectTrauma_built].
Qed.

Lemma collect_competition s ctx :
  collectPacersTeamContext s = Some ctx → ctx_competition ctx = firstCompetition s.
Proof.
  unfold collectPacersTeamContext.
  destruct (List.find _ _); [|discriminate]. destruct (List.find _ _); [|discriminate].
  intros [= <-]. reflexivity.
Qed.

Lemma collect_side s ctx :
  collectPacersTeamContext s = Some ctx →
  ctx_homeAway ctx = "HOME" ∨ ctx_homeAway ctx = "AWAY".
Proof.
  unfold collectPacersTeamContext.
  destruct (List.find _ _); [|discriminate]. destruct (List.find _ _); [|discriminate].
  intros [= <-]. cbn [ctx_homeAway]. destruct (String.eqb _ "HOME"); auto.
Qed.

Lemma builtFor_carriesGame s ctx e :
  collectPacersTeamContext s = Some ctx → builtFor s ctx e → carriesGame ctx e.
Proof.
  intros Hctx Hbuilt. pose proof (collect_competition s ctx Hctx) as Hcomp.
  unfold carriesGame, gameDateOf, seasonKeyOf. rewrite Hcomp.
  destruct Hbuilt as [(p & sl & tag & why & -> & _)|(p & sl & tag & why & reason & ->)];
    repeat split.
Qed.

(** X17.  All the entries the classifiers return for a game carry the
    fields of that game: the date and season of the first competition, and
    the opponent, side, result and playoff flag of the extracted context. *)
Theorem game_entries_carry_game (s : summary) (ctx : context)
    (store : gmap string average) :
  collectPacersTeamContext s = Some ctx →
  Forall (carriesGame ctx) (gameEntries s ctx store).
Proof.
  intros Hctx. eapply List.Forall_impl; [|apply gameEntries_built].
  intros e. apply builtFor_carriesGame, Hctx.
Qed.

Lemma getOpponentLogo_nonempty ctx : getOpponentLogo ctx ≠ "".
Proof.
  unfold getOpponentLogo. cbv zeta.
  match goal with |- (if negb (isEmpty ?h) then _ else _) ≠ _ => destruct (isEmpty h) eqn:Hh end;
    cbn [negb]; [|apply isEmpty_false, Hh].
  match goal with |- (if negb (isEmpty ?h) then _ else _) ≠ _ => destruct (isEmpty h) eqn:Hl end;
    cbn [negb]; [|apply isEmpty_false, Hl].
  destruct (teamIdByAbbr _); discriminate.
Qed.

Lemma createBaseEntry_present ctx s p statLine tag why :
  player (createBaseEntry ctx s p statLine tag why) ≠ ""
  ∧ image (createBaseEntry ctx s p statLine tag why) ≠ "".
Proof.
  cbn [player image createBaseEntry]. split.
  - destruct (isEmpty (player_name p)) eqn:Hn; [discriminate|apply isEmpty_false, Hn].
  - destruct (negb (isEmpty (player_id p)) && negb (String.eqb (player_id p) "0"));
      [discriminate|apply getOpponentLogo_nonempty].
Qed.

Lemma builtFor_wellFormed s ctx e :
  collectPacersTeamContext s = Some ctx → dateSkipped ctx = false →
  builtFor s ctx e → wellFormed e.
Proof.
  intros Hctx Hdate Hbuilt.
  destruct (builtFor_carriesGame s ctx e Hctx Hbuilt) as (Hd & _ & _ & Hside & _).
  unfold dateSkipped in Hdate. apply orb_false_iff in Hdate as [Hgame _].
  apply isEmpty_false in Hgame.
  unfold wellFormed. rewrite Hd, Hside.
  split; [exact Hgame|]. split; [|split; [exact (collect_side s ctx Hctx)|]].
  - destruct Hbuilt as [(p & sl & tag & why & -> & Htag)|(p & sl & tag & why & reason & ->)].
    + cbn [category createBaseEntry]. tauto.
    + cbn [category traumaify]. tauto.
  - destruct Hbuilt as [(p & sl & tag & why & -> & _)|(p & sl & tag & why & reason & ->)].
    + apply createBaseEntry_present.
    + cbn [player image traumaify]. apply createBaseEntry_present.
Qed.

Lemma processGame_wellFormed st f :
  Forall wellFormed (collected st) → Forall wellFormed (collected (processGame st f)).
Proof.
  intros Hst. destruct f as [|s]; [exact Hst|]. unfold processGame.
  destruct (collectPacersTeamContext s) as [ctx|] eqn:Hctx; [|exact Hst].
  destruct (dateSkipped ctx) eqn:Hdate; [exact Hst|].
  pose proof (gameEntries_built s ctx (runningAverages st)) as Hbuilt.
  unfold gameEntries in Hbuilt.
  destruct (detectPlayerMoments s ctx (runningAverages st) (seasonKeyOf ctx)) as [events ?].
  cbn [collected fst] in Hbuilt |- *. apply Forall_app. split; [exact Hst|].
  eapply List.Forall_impl; [|exact Hbuilt]. intros e.
  apply (builtFor_wellFormed s ctx e Hctx Hdate).
Qed.

(** X18.  Every entry of the final corpus has a date that is not empty,
    one of the four categories, HOME or AWAY as the side, a player name and
    an image reference. *)
Theorem corpus_entries_well_formed (fetches : list fetched) :
  Forall wellFormed (main fetches).
Proof.
  assert (Hall : Forall wellFormed (collected (traverse fetches))).
  { unfold traverse.
    assert (Hgen : ∀ st, Forall wellFormed (collected st) →
                         Forall wellFormed (collected (fold_left processGame fetches st))).
    { induction fetches as [|f fetches IH]; intros st Hst; [exact Hst|].
      cbn [fold_left]. apply IH, processGame_wellFormed, Hst. }
    apply Hgen. exact (List.Forall_nil _). }
  apply List.Forall_forall. intros e He. unfold main in He. apply curate_In in He.
  rewrite List.Forall_forall in Hall. apply Hall, He.
Qed.

End GameEntries.

Lemma game_entries_carry_game_witness :
  Forall (carriesGame (H := refHost) (contextOf (game7Loss_game decidedSeries)))
    (gameEntries (H := refHost) (game7Loss_game decidedSeries)
       (contextOf (game7Loss_game decidedSeries)) ∅).
Proof.
  apply (game_entries_carry_game (H := refHost)). reflexivity.
Defined.

(** ** The traversal *)

Lemma recordRows_other store rows key :
  existsb (λ kv, String.eqb (fst kv) key) rows = false →
  recordRows store rows !! key = store !! key.
Proof.
  revert store. induction rows as [|kv rows IH]; intros store; [reflexivity|].
  cbn [existsb]. intros [Hkv Hrows]%orb_false_iff. cbn [recordRows fold_left].
  fold (recordRows (<[fst kv := recordGame (averageOf store (fst kv)) (snd kv)]> store) rows).
  rewrite (IH _ Hrows). apply lookup_insert_ne. apply String.eqb_neq, Hkv.
Qed.

Lemma recordRows_grows store rows key avg :
  store !! key = Some avg →
  ∃ avg', recordRows store rows !! key = Some avg' ∧ games avg ≤ games avg'.
Proof.
  revert store avg. induction rows as [|kv rows IH]; intros store avg Hkey.
  - exists avg. split; [exact Hkey|lia].
  - cbn [recordRows fold_left].
    fold (recordRows (<[fst kv := recordGame (averageOf store (fst kv)) (snd kv)]> store) rows).
    destruct (String.eqb_spec (fst kv) key) as [Heq|Hne].
    + destruct (IH (<[fst kv := recordGame (averageOf store (fst kv)) (snd kv)]> store)
                  (recordGame avg (snd kv))) as (avg' & Hlook & Hle).
      { rewrite Heq, lookup_insert_eq. unfold averageOf. rewrite Hkey. reflexivity. }
      exists avg'. split; [exact Hlook|]. cbn [games recordGame] in Hle. lia.
    + apply IH. rewrite lookup_insert_ne by exact Hne. exact Hkey.
Qed.

Section TraversalFacts.
Context `{Host}.

Lemma processGame_unprocessed st f : isProcessed f = false → processGame st f = st.
Proof.
  destruct f as [|s]; [reflexivity|]. unfold isProcessed, processGame.
  destruct (collectPacersTeamContext s) as [ctx|]; [|reflexivity].
  destruct (dateSkipped ctx); [reflexivity|discriminate].
Qed.

Lemma traverse_filter_from st fetches :
  fold_left processGame fetches st
  = fold_left processGame (List.filter isProcessed fetches) st.
Proof.
  revert st. induction fetches as [|f fetches IH]; intros st; [reflexivity|].
  cbn [fold_left List.filter]. destruct (isProcessed f) eqn:Hf.
  - cbn [fold_left]. apply IH.
  - rewrite (processGame_unprocessed st f Hf). apply IH.
Qed.

(** X19.  Failed fetches and skipped games are transparent: a run yields
    the state, and so the corpus, of the run over the processed games
    alone, in the same order. *)
Theorem unprocessed_games_transparent (fetches : list fetched) :
  traverse fetches = traverse (List.filter isProcessed fetches)
  ∧ main fetches = main (List.filter isProcessed fetches).
Proof.
  assert (Hsame : traverse fetches = traverse (List.filter isProcessed fetches))
    by apply traverse_filter_from.
  split; [exact Hsame|]. unfold main. rewrite Hsame. reflexivity.
Qed.

(** X20.  The store only grows: every record it holds after a run counts
    at least one game; a further fetch keeps every key and never lowers its
    count, and leaves the record of a key it does not list as it is. *)
Theorem store_only_grows (fetches : list fetched) (f : fetched) (key : string) :
  (∀ avg, runningAverages (traverse fetches) !! key = Some avg → 1 ≤ games avg)
  ∧ (∀ avg, runningAverages (traverse fetches) !! key = Some avg →
            ∃ avg', runningAverages (traverse (fetches ++ [f])) !! key = Some avg'
                    ∧ games avg ≤ games avg')
  ∧ (listsKey key f = false →
     runningAverages (traverse (fetches ++ [f])) !! key
     = runningAverages (traverse fetches) !! key).
Proof.
  assert (Hnext : runningAverages (traverse (fetches ++ [f]))
                  = recordRows (runningAverages (traverse fetches)) (gameRows f)).
  { unfold traverse. rewrite fold_left_app. cbn [fold_left]. apply processGame_store. }
  split; [|split].
  - intros avg. rewrite traverse_store, recordRows_lookup. unfold tallyOf.
    destruct (List.filter _ (rowsOf fetches)) as [|m mine]; [discriminate|].
    intros [= <-]. cbn [games List.length]. lia.
  - intros avg Hkey. rewrite Hnext. apply recordRows_grows, Hkey.
  - intros Hlists. rewrite Hnext. apply recordRows_other, Hlists.
Qed.

(** X21.  Later games never touch what earlier games produced: the entries
    collected over a prefix of the fetches are an initial segment of the
    entries collected over the whole sequence. *)
Theorem collected_extends (fetches more : list fetched) :
  ∃ later, collected (traverse (fetches ++ more)) = collected (traverse fetches) ++ later.
Proof.
  unfold traverse. rewrite fold_left_app. generalize (fold_left processGame fetches (RunState ∅ [])).
  induction more as [|f more IH]; intros st.
  - exists []. cbn. symmetry. apply app_nil_r.
  - cbn [fold_left]. destruct (IH (processGame st f)) as [later Hlater].
    assert (Hstep : ∃ new, collected (processGame st f) = collected st ++ new).
    { destruct f as [|s]; [exists []; symmetry; apply app_nil_r|]. unfold processGame.
      destruct (collectPacersTeamContext s) as [ctx|];
        [|exists []; symmetry; apply app_nil_r].
      destruct (dateSkipped ctx); [exists []; symmetry; apply app_nil_r|].
      destruct (detectPlayerMoments s ctx (runningAverages st) (seasonKeyOf ctx)) as [events ?].
      cbn [collected]. eauto. }
    destruct Hstep as [new Hnew]. exists (new ++ later).
    rewrite Hlater, Hnew, <- app_assoc. reflexivity.
Qed.

End TraversalFacts.

Lemma store_only_grows_witness :
  runningAverages (traverse (H := refHost) ([Fetched quickScorerGame] ++ [Fetched (shootingGame "33.3")]))
    !! "2023-24:Reserve Guard"
  = runningAverages (traverse (H := refHost) [Fetched quickScorerGame]) !! "2023-24:Reserve Guard".
Proof.
  apply (store_only_grows (H := refHost) [Fetched quickScorerGame]
           (Fetched (shootingGame "33.3")) "2023-24:Reserve Guard").
  reflexivity.
Defined.

(** * Fetching with retries *)

Lemma backoff_step i n :
  backoff i (S n) = ((Z.of_nat i + 1) * 120) :: backoff (S i) n.
Proof. reflexivity. Qed.

Lemma backoff_length i n : List.length (backoff i n) = n.
Proof. unfold backoff. rewrite List.length_map. apply List.length_seq. Qed.

Lemma totalSleep_backoff i n :
  2 * totalSleep (backoff i n)
  = 120 * Z.of_nat n * (2 * Z.of_nat i + Z.of_nat n + 1).
Proof.
  revert i. induction n as [|n IH]; intros i; [reflexivity|].
  rewrite backoff_step. cbn [totalSleep fold_right].
  fold (totalSleep (backoff (S i) n)).
  specialize (IH (S i)). nia.
Qed.

Section FetchLoop.
Context {A : Type} (replies : nat → reply A).

(** The loop returns at the first attempt that does not throw. *)
Lemma fetchJsonFrom_answer k : ∀ i todo lastError slept value,
  (k < todo)%nat →
  attempt (replies (i + k)) = inr value →
  (∀ j, (j < k)%nat → thrownBy (replies (i + j)) ≠ None) →
  fetchJsonFrom replies i todo lastError slept
  = FetchRun (Returns value) (S (i + k)) (slept ++ backoff i k).
Proof.
  induction k as [|k IH]; intros i todo lastError slept value Hk Hok Hbad.
  - destruct todo as [|todo]; [lia|]. cbn [fetchJsonFrom].
    rewrite Nat.add_0_r in Hok. rewrite Hok, Nat.add_0_r.
    cbn [backoff List.seq List.map]. now rewrite app_nil_r.
  - destruct todo as [|todo]; [lia|]. cbn [fetchJsonFrom].
    pose proof (Hbad 0%nat ltac:(lia)) as H0. rewrite Nat.add_0_r in H0.
    unfold thrownBy in H0. destruct (attempt (replies i)) as [error|v]; [|congruence].
    rewrite (IH (S i) todo _ _ value).
    + rewrite backoff_step, <- app_assoc. cbn [app].
      now replace (S i + k)%nat with (i + S k)%nat by lia.
    + lia.
    + now replace (S i + k)%nat with (i + S k)%nat by lia.
    + intros j Hj. replace (S i + j)%nat with (i + S j)%nat by lia.
      apply Hbad. lia.
Qed.

(** When every attempt throws, the loop ends by throwing the last error. *)
Lemma fetchJsonFrom_exhausted todo : ∀ i lastError slept,
  (∀ j, (j < todo)%nat → thrownBy (replies (i + j)) ≠ None) →
  fetchJsonFrom replies i todo lastError slept
  = FetchRun
      (Throws (match todo with
               | O => lastError
               | S last => thrownBy (replies (i + last))
               end))
      (i + todo) (slept ++ backoff i todo).
Proof.
  induction todo as [|todo IH]; intros i lastError slept Hbad.
  - cbn [fetchJsonFrom backoff List.seq List.map].
    now rewrite Nat.add_0_r, app_nil_r.
  - cbn [fetchJsonFrom].
    pose proof (Hbad 0%nat ltac:(lia)) as H0. rewrite Nat.add_0_r in H0.
    unfold thrownBy in H0.
    destruct (attempt (replies i)) as [error|v] eqn:Hi; [|congruence].
    rewrite IH.
    + rewrite backoff_step, <- app_assoc. cbn [app].
      replace (S i + todo)%nat with (i + S todo)%nat by lia.
      destruct todo as [|last].
      * rewrite Nat.add_0_r. unfold thrownBy. now rewrite Hi.
      * now replace (S i + last)%nat with (i + S last)%nat by lia.
    + intros j Hj. replace (S i + j)%nat with (i + S j)%nat by lia.
      apply Hbad. lia.
Qed.

(** What every run looks like: [n] attempts threw and were each followed by
    a pause; then the loop returned the value of attempt [n], or gave up
    because no turn was left. *)
Lemma fetchJsonFrom_run todo : ∀ i lastError slept,
  ∃ n, (n <= todo)%nat
    ∧ sleeps (fetchJsonFrom replies i todo lastError slept) = slept ++ backoff i n
    ∧ (∀ j, (j < n)%nat → thrownBy (replies (i + j)) ≠ None)
    ∧ match outcome_of (fetchJsonFrom replies i todo lastError slept) with
      | Returns value =>
          (n < todo)%nat ∧ attempt (replies (i + n)) = inr value
          ∧ requests (fetchJsonFrom replies i todo lastError slept) = S (i + n)
      | Throws _ =>
          n = todo
          ∧ requests (fetchJsonFrom replies i todo lastError slept) = (i + n)%nat
      end.
Proof.
  induction todo as [|todo IH]; intros i lastError slept.
  - exists 0%nat. cbn. rewrite app_nil_r, Nat.add_0_r.
    repeat split; intros; try lia; reflexivity.
  - cbn [fetchJsonFrom]. destruct (attempt (replies i)) as [error|value] eqn:Hi.
    + destruct (IH (S i) (Some error) (slept ++ [(Z.of_nat i + 1) * 120]))
        as (n & Hn & Hsl & Hbad & Hout).
      exists (S n). split; [lia|]. split.
      { rewrite Hsl, backoff_step, <- app_assoc. reflexivity. }
      split.
      { intros [|j] Hj.
        - rewrite Nat.add_0_r. unfold thrownBy. now rewrite Hi.
        - replace (i + S j)%nat with (S i + j)%nat by lia. apply Hbad. lia. }
      destruct (outcome_of _) as [value|thrown].
      * destruct Hout as (Hlt & Hval & Hreq).
        replace (i + S n)%nat with (S i + n)%nat by lia.
        repeat split; [lia|exact Hval|exact Hreq].
      * destruct Hout as (-> & Hreq).
        replace (i + S todo)%nat with (S i + todo)%nat by lia.
        split; [reflexivity|exact Hreq].
    + exists 0%nat. cbn. rewrite app_nil_r, Nat.add_0_r.
      repeat split; intros; try lia; try assumption; reflexivity.
Qed.

End FetchLoop.

(** X22.  [fetchJson] returns the value of the first attempt that does not
    throw, provided it is among the first [retries]; it has then made one
    request per attempt and has paused 120 ms, 240 ms, ... after the failed
    ones.  The replies after that attempt are not looked at. *)
Theorem fetchJson_first_answer {A} (replies : nat → reply A) (retries k : nat) (value : A) :
  (k < retries)%nat →
  attempt (replies k) = inr value →
  (∀ j, (j < k)%nat → thrownBy (replies j) ≠ None) →
  fetchJson replies retries = FetchRun (Returns value) (S k) (backoff 0 k)
  ∧ ∀ others : nat → reply A,
      (∀ j, (j <= k)%nat → others j = replies j) →
      fetchJson others retries = fetchJson replies retries.
Proof.
  intros Hk Hok Hbad.
  assert (Hrun : ∀ r : nat → reply A, (∀ j, (j <= k)%nat → r j = replies j) →
            fetchJson r retries = FetchRun (Returns value) (S k) (backoff 0 k)).
  { intros r Hr. unfold fetchJson.
    rewrite (fetchJsonFrom_answer r k 0 retries None [] value); try assumption.
    - reflexivity.
    - cbn [Nat.add]. rewrite Hr by lia. exact Hok.
    - intros j Hj. cbn [Nat.add]. unfold thrownBy. rewrite Hr by lia.
      apply Hbad, Hj. }
  split.
  - apply Hrun. reflexivity.
  - intros others Hothers. rewrite (Hrun others Hothers).
    symmetry. apply Hrun. reflexivity.
Qed.

Lemma fetchJson_first_answer_witness :
  fetchJson secondTry 3 = FetchRun (Returns quickScorerGame) 2 [120].
Proof.
  refine (proj1 (fetchJson_first_answer secondTry 3 1 quickScorerGame _ _ _)).
  - lia.
  - reflexivity.
  - intros [|j] Hj; [discriminate|lia].
Defined.

(** X23.  When each of the first [retries] attempts throws, [fetchJson]
    throws the error of the last of them, after [retries] requests and a
    pause after every one of them, 60 * retries * (retries + 1) ms in all;
    with no retries allowed it throws null without a request. *)
Theorem fetchJson_gives_up {A} (replies : nat → reply A) (retries : nat) :
  (∀ j, (j < retries)%nat → thrownBy (replies j) ≠ None) →
  fetchJson replies retries
  = FetchRun (Throws (match retries with
                      | O => None
                      | S last => thrownBy (replies last)
                      end))
      retries (backoff 0 retries)
  ∧ totalSleep (sleeps (fetchJson replies retries))
    = 60 * Z.of_nat retries * (Z.of_nat retries + 1).
Proof.
  intros Hbad.
  assert (Hrun : fetchJson replies retries
                 = FetchRun (Throws (match retries with
                                     | O => None
                                     | S last => thrownBy (replies last)
                                     end))
                     retries (backoff 0 retries)).
  { unfold fetchJson. rewrite fetchJsonFrom_exhausted by exact Hbad. reflexivity. }
  split; [exact Hrun|]. rewrite Hrun. cbn [sleeps].
  pose proof (totalSleep_backoff 0 retries). lia.
Qed.

Lemma fetchJson_gives_up_witness :
  fetchJson (A := summary) neverUp 3
  = FetchRun (Throws (Some "503 Service Unavailable")) 3 [120; 240; 360].
Proof.
  refine (proj1 (fetchJson_gives_up neverUp 3 _)).
  intros j Hj. destruct j as [|[|[|j]]]; [discriminate..|lia].
Defined.

(** X24.  Whatever the network replies, [fetchJson] makes at most
    [retries] requests, pauses once after each attempt that threw and for
    no more than 60 * retries * (retries + 1) ms in all; a value it returns
    is the body of an ok response it received, and when it throws it has
    used up all its attempts. *)
Theorem fetchJson_bounded {A} (replies : nat → reply A) (retries : nat) :
  let run := fetchJson replies retries in
  (requests run <= retries)%nat
  ∧ sleeps run = backoff 0 (List.length (sleeps run))
  ∧ totalSleep (sleeps run) <= 60 * Z.of_nat retries * (Z.of_nat retries + 1)
  ∧ match outcome_of run with
    | Returns value =>
        requests run = S (List.length (sleeps run))
        ∧ ∃ r, replies (List.length (sleeps run)) = Responded r
              ∧ ok r = true ∧ json r = inr value
    | Throws _ =>
        requests run = retries ∧ List.length (sleeps run) = retries
    end.
Proof.
  intros run. subst run. unfold fetchJson.
  destruct (fetchJsonFrom_run replies retries 0 None []) as (n & Hn & Hsl & _ & Hout).
  cbn [app Nat.add] in Hsl, Hout.
  rewrite Hsl, backoff_length.
  assert (Htotal : totalSleep (backoff 0 n) <= 60 * Z.of_nat retries * (Z.of_nat retries + 1)).
  { pose proof (totalSleep_backoff 0 n). nia. }
  destruct (outcome_of _) as [value|thrown].
  - destruct Hout as (Hlt & Hval & Hreq). rewrite Hreq.
    repeat split; try lia; try assumption.
    unfold attempt in Hval. destruct (replies n) as [error|r]; [discriminate|].
    exists r. destruct (ok r); [|discriminate]. auto.
  - destruct Hout as (-> & Hreq). rewrite Hreq.
    repeat split; try lia; assumption.
Qed.

(** * Collecting and ordering the event ids *)

Lemma known_id t l : existsb (String.eqb t) l = true ↔ In t l.
Proof.
  rewrite existsb_exists. split.
  - intros (x & Hx & Heq). apply String.eqb_eq in Heq. now subst.
  - intros Hin. exists t. split; [exact Hin|apply String.eqb_refl].
Qed.

Lemma addId_In l id x : In x (addId l id) ↔ In x l ∨ x = textOf id.
Proof.
  unfold addId. destruct (existsb _ l) eqn:Hknown.
  - apply known_id in Hknown. split; [auto|]. intros [Hin| ->]; assumption.
  - rewrite in_app_iff. cbn [In]. intuition.
Qed.

Lemma addId_NoDup l id : List.NoDup l → List.NoDup (addId l id).
Proof.
  intros Hl. unfold addId. destruct (existsb _ l) eqn:Hknown; [exact Hl|].
  apply List.NoDup_app.
  - exact Hl.
  - repeat constructor. intros [].
  - intros x Hx [<-|[]]. apply known_id in Hx. congruence.
Qed.

Lemma addIds_In ids : ∀ l x,
  In x (fold_left addId ids l) ↔ In x l ∨ In x (List.map textOf ids).
Proof.
  induction ids as [|id ids IH]; intros l x; cbn [fold_left List.map In].
  - tauto.
  - rewrite IH, addId_In. intuition.
Qed.

Lemma addIds_NoDup ids : ∀ l, List.NoDup l → List.NoDup (fold_left addId ids l).
Proof.
  induction ids as [|id ids IH]; intros l Hl; [exact Hl|].
  cbn [fold_left]. apply IH, addId_NoDup, Hl.
Qed.

(** The ids a schedule contributes are the ids of its events that are
    present and not empty. *)
Lemma eventIds_In data x :
  In x (List.map textOf (eventIds data))
  ↔ x ≠ "" ∧ ∃ e, In e (default [] (schedule_events data)) ∧ event_id e = Some x.
Proof.
  unfold eventIds. rewrite in_map_iff. split.
  - intros (id & <- & Hid). apply filter_In in Hid. destruct Hid as [Hin Htruthy].
    apply in_map_iff in Hin. destruct Hin as (e & He & Hine).
    destruct id as [s|]; [|discriminate]. cbn in Htruthy |- *.
    split.
    + intros ->. discriminate.
    + exists e. now split.
  - intros (Hne & e & Hine & He). exists (Some x). split; [reflexivity|].
    apply filter_In. split.
    + apply in_map_iff. exists e. now split.
    + cbn. destruct x; [congruence|reflexivity].
Qed.

Lemma seasonsFrom_In count : ∀ first season,
  In season (seasonsFrom first count) ↔ first <= season < first + Z.of_nat count.
Proof.
  induction count as [|count IH]; intros first season; cbn [seasonsFrom In].
  - lia.
  - rewrite IH. lia.
Qed.

Lemma seasonRequests_In currentYear season seasonType :
  In (season, seasonType) (seasonRequests currentYear)
  ↔ 1995 <= season <= currentYear ∧ (seasonType = 2 ∨ seasonType = 3).
Proof.
  unfold seasonRequests. rewrite in_flat_map. split.
  - intros (y & Hy & Hin). apply seasonsFrom_In in Hy.
    cbn [In] in Hin. destruct Hin as [[= <- <-]|[[= <- <-]|[]]]; lia.
  - intros (Hseason & Htype). exists season. split.
    + apply seasonsFrom_In. lia.
    + cbn [In]. destruct Htype as [-> | ->]; auto.
Qed.

Section CollectedIds.
Context (schedules : Z → Z → nat → reply schedule).

Lemma addSeason_In l request x :
  In x (addSeason schedules l request) ↔ In x l ∨ contributes schedules request x.
Proof.
  destruct request as [season seasonType]. unfold addSeason, fetchSeasonEventIds, contributes.
  cbn [fst snd].
  destruct (outcome_of (fetchJson (schedules season seasonType) 3)) as [data|error].
  - rewrite addIds_In. split; (intros [Hin|Hin]; [left; exact Hin|right]).
    + exists data. now split.
    + destruct Hin as (data' & [= <-] & Hin). exact Hin.
  - split; [auto|]. intros [Hin|(data & Hdata & _)]; [exact Hin|discriminate].
Qed.

Lemma addSeason_NoDup l request : List.NoDup l → List.NoDup (addSeason schedules l request).
Proof.
  intros Hl. destruct request as [season seasonType]. unfold addSeason, fetchSeasonEventIds.
  destruct (outcome_of _); [apply addIds_NoDup, Hl|exact Hl].
Qed.

Lemma addSeasons_In requests : ∀ l x,
  In x (fold_left (addSeason schedules) requests l)
  ↔ In x l ∨ ∃ request, In request requests ∧ contributes schedules request x.
Proof.
  induction requests as [|request requests IH]; intros l x; cbn [fold_left].
  - split; [auto|]. intros [Hin|(request & [] & _)]. exact Hin.
  - rewrite IH, addSeason_In. split.
    + intros [[Hin|Hc]|(r & Hr & Hc)]; [left; exact Hin|right..].
      * exists request. split; [left; reflexivity|exact Hc].
      * exists r. split; [right; exact Hr|exact Hc].
    + intros [Hin|(r & [<-|Hr] & Hc)]; [left; left; exact Hin|left; right; exact Hc|].
      right. exists r. now split.
Qed.

Lemma addSeasons_NoDup requests : ∀ l,
  List.NoDup l → List.NoDup (fold_left (addSeason schedules) requests l).
Proof.
  induction requests as [|request requests IH]; intros l Hl; [exact Hl|].
  cbn [fold_left]. apply IH, addSeason_NoDup, Hl.
Qed.

End CollectedIds.

(** X25.  The ordered event ids hold no id twice, and they are exactly the
    ids, present and not empty, of the events of the schedules that could
    be fetched for the seasons from 1995 to the current year, regular
    season and playoffs. *)
Theorem orderedIds_complete `{Host} (currentYear : Z)
    (schedules : Z → Z → nat → reply schedule) :
  List.NoDup (orderedIds currentYear schedules)
  ∧ ∀ id, In id (orderedIds currentYear schedules)
      ↔ id ≠ ""
        ∧ ∃ season seasonType data e,
            1995 <= season <= currentYear ∧ (seasonType = 2 ∨ seasonType = 3)
            ∧ outcome_of (fetchJson (schedules season seasonType) 3) = Returns data
            ∧ In e (default [] (schedule_events data)) ∧ event_id e = Some id.
Proof.
  unfold orderedIds, collectIds. split.
  - apply (Permutation_NoDup (symmetry (sortBy_perm byNumber _))).
    apply addSeasons_NoDup. constructor.
  - intros id. rewrite sortBy_In, addSeasons_In. split.
    + intros [[]|([season seasonType] & Hreq & data & Hdata & Hin)].
      apply seasonRequests_In in Hreq. apply eventIds_In in Hin.
      destruct Hin as (Hne & e & He & Hid). split; [exact Hne|].
      exists season, seasonType, data, e. cbn [fst snd] in Hdata. tauto.
    + intros (Hne & season & seasonType & data & e & Hseason & Htype & Hdata & He & Hid).
      right. exists (season, seasonType). split.
      * apply seasonRequests_In. tauto.
      * exists data. split; [exact Hdata|]. apply eventIds_In. split; [exact Hne|].
        exists e. now split.
Qed.

(** ** Numeric order *)

Section NumericOrder.
Context `{Host}.

Lemma insertBy_agree {A} (cmp cmp' : A → A → comparison) x l :
  (∀ y, In y l → cmp x y = cmp' x y) → insertBy cmp x l = insertBy cmp' x l.
Proof.
  induction l as [|y l IH]; intros Hagree; [reflexivity|]. cbn [insertBy].
  rewrite <- (Hagree y) by (left; reflexivity).
  destruct (cmp x y); try reflexivity.
  f_equal. apply IH. intros z Hz. apply Hagree. now right.
Qed.

Lemma sortBy_agree {A} (cmp cmp' : A → A → comparison) l :
  (∀ x y, In x l → In y l → cmp x y = cmp' x y) → sortBy cmp l = sortBy cmp' l.
Proof.
  induction l as [|x l IH]; intros Hagree; [reflexivity|].
  cbn [sortBy foldr]. fold (sortBy cmp l). fold (sortBy cmp' l).
  rewrite <- IH by (intros a b Ha Hb; apply Hagree; now right).
  apply insertBy_agree. intros y Hy. apply sortBy_In in Hy.
  apply Hagree; [now left|now right].
Qed.

Lemma byNumber_numeric a b :
  toNumber a ≠ None → toNumber b ≠ None → byNumber a b = byIdNumber a b.
Proof.
  unfold byNumber, byIdNumber, idNumber, numberOr0.
  destruct (toNumber a), (toNumber b); try congruence. reflexivity.
Qed.

Lemma byIdNumber_le a b : mayPrecede byIdNumber a b ↔ (idNumber a <= idNumber b)%Q.
Proof. unfold mayPrecede, byIdNumber. symmetry. apply Qle_alt. Qed.

Lemma sortBy_byIdNumber l :
  StronglySorted (λ a b, (idNumber a <= idNumber b)%Q) (sortBy byIdNumber l).
Proof.
  assert (Hsorted : StronglySorted (mayPrecede byIdNumber) (sortBy byIdNumber l)).
  { apply sortBy_sorted.
    - intros a b. rewrite !byIdNumber_le.
      destruct (Qlt_le_dec (idNumber b) (idNumber a)) as [Hlt|Hle]; [right|left; exact Hle].
      apply Qlt_le_weak, Hlt.
    - intros a b c. rewrite !byIdNumber_le. apply Qle_trans. }
  induction Hsorted as [|x l' Hl' IH Hx]; constructor; [exact IH|].
  eapply List.Forall_impl; [|exact Hx]. intros y. apply byIdNumber_le.
Qed.

(** X26.  When every collected id reads as a number, the games are visited
    in the ascending order of their ids. *)
Theorem orderedIds_ascending (currentYear : Z)
    (schedules : Z → Z → nat → reply schedule) :
  (∀ id, In id (collectIds currentYear schedules) → toNumber id ≠ None) →
  StronglySorted (λ a b, (idNumber a <= idNumber b)%Q)
    (orderedIds currentYear schedules).
Proof.
  intros Hnumeric. unfold orderedIds.
  rewrite (sortBy_agree byNumber byIdNumber).
  - apply sortBy_byIdNumber.
  - intros a b Ha Hb. apply byNumber_numeric; apply Hnumeric; assumption.
Qed.

End NumericOrder.

Lemma orderedIds_ascending_witness :
  StronglySorted (λ a b, (idNumber (H := refHost) a <= idNumber (H := refHost) b)%Q)
    (orderedIds (H := refHost) 1996 oneSeason).
Proof.
  apply (orderedIds_ascending (H := refHost) 1996 oneSeason).
  intros id Hid. vm_compute in Hid.
  destruct Hid as [<-|[<-|[<-|[]]]]; discriminate.
Defined.

(** * Stat maps *)

Lemma statMapLoop_lookup stats labels : ∀ i out key,
  statMapLoop stats labels i out !! key
  = match lastBinding stats labels i key with
    | Some bound => Some bound
    | None => out !! key
    end.
Proof.
  induction labels as [|label rest IH]; intros i out key; [reflexivity|].
  cbn [statMapLoop lastBinding]. rewrite IH.
  destruct (lastBinding stats rest (S i) key) as [bound|]; [reflexivity|].
  destruct (String.eqb_spec (toUpperCase label) key) as [<-|Hne].
  - apply lookup_insert_eq.
  - apply lookup_insert_ne, Hne.
Qed.

Lemma lastBinding_none stats labels : ∀ i key,
  (∀ label, In label labels → toUpperCase label ≠ key) →
  lastBinding stats labels i key = None.
Proof.
  induction labels as [|label rest IH]; intros i key Hnone; [reflexivity|].
  cbn [lastBinding]. rewrite IH by (intros l Hl; apply Hnone; now right).
  destruct (String.eqb_spec (toUpperCase label) key) as [Heq|_]; [|reflexivity].
  exfalso. apply (Hnone label); [now left|exact Heq].
Qed.

Lemma lastBinding_last stats labels : ∀ i0 i label,
  List.nth_error labels i = Some label →
  (∀ j later, (i < j)%nat → List.nth_error labels j = Some later →
              toUpperCase later ≠ toUpperCase label) →
  lastBinding stats labels i0 (toUpperCase label) = Some (stats !! (i0 + i)%nat).
Proof.
  induction labels as [|first rest IH]; intros i0 i label Hi Hlast.
  - destruct i; discriminate Hi.
  - cbn [lastBinding]. destruct i as [|i].
    + cbn in Hi. injection Hi as ->.
      rewrite lastBinding_none.
      * rewrite String.eqb_refl, Nat.add_0_r. reflexivity.
      * intros later Hin. apply In_nth_error in Hin. destruct Hin as [j Hj].
        apply (Hlast (S j)); [lia|exact Hj].
    + cbn in Hi. rewrite (IH (S i0) i label Hi).
      * now replace (S i0 + i)%nat with (i0 + S i)%nat by lia.
      * intros j later Hj Hlater. apply (Hlast (S j)); [lia|exact Hlater].
Qed.

Lemma toUpperChar_idempotent c : toUpperChar (toUpperChar c) = toUpperChar c.
Proof. destruct c as [[] [] [] [] [] [] [] []]; reflexivity. Qed.

Lemma toUpperCase_idempotent s : toUpperCase (toUpperCase s) = toUpperCase s.
Proof.
  induction s as [|c s IH]; [reflexivity|]. unfold toUpperCase in *.
  cbn [mapChars]. now rewrite toUpperChar_idempotent, IH.
Qed.

Lemma statMapLoop_upper stats labels : ∀ i out,
  statMapLoop stats (List.map toUpperCase labels) i out = statMapLoop stats labels i out.
Proof.
  induction labels as [|label rest IH]; intros i out; [reflexivity|].
  cbn [List.map statMapLoop]. now rewrite toUpperCase_idempotent, IH.
Qed.

(** X27.  The stat map of a boxscore row binds the upper-case form of
    label [i] to the stat at position [i], which is undefined past the end
    of the stats; of two labels with the same upper-case form the later one
    wins; a key that is the upper-case form of no label reads as undefined;
    and the map is the same whether the labels come in upper case or
    not. *)
Theorem statMapForAthlete_lookup (row : athleteRow) (labels : list string) :
  (∀ i label,
     List.nth_error labels i = Some label →
     (∀ j later, (i < j)%nat → List.nth_error labels j = Some later →
                 toUpperCase later ≠ toUpperCase label) →
     statOf (statMapForAthlete row labels) (toUpperCase label) = stats row !! i)
  ∧ (∀ key, (∀ label, In label labels → toUpperCase label ≠ key) →
            statOf (statMapForAthlete row labels) key = None)
  ∧ statMapForAthlete row (List.map toUpperCase labels) = statMapForAthlete row labels.
Proof.
  unfold statOf, statMapForAthlete. split; [|split].
  - intros i label Hi Hlast. rewrite statMapLoop_lookup.
    rewrite (lastBinding_last (stats row) labels 0 i label Hi Hlast). reflexivity.
  - intros key Hnone. rewrite statMapLoop_lookup, lastBinding_none by exact Hnone.
    rewrite lookup_empty. reflexivity.
  - apply statMapLoop_upper.
Qed.

Lemma statMapForAthlete_lookup_witness :
  statOf (statMapForAthlete sampleRow ["min"; "PTS"; "Pts"; "reb"]) "PTS" = Some "31"
  ∧ statOf (statMapForAthlete sampleRow ["min"; "PTS"; "Pts"; "reb"]) "REB" = None
  ∧ statOf (statMapForAthlete sampleRow ["min"; "PTS"; "Pts"; "reb"]) "AST" = None.
Proof.
  destruct (statMapForAthlete_lookup sampleRow ["min"; "PTS"; "Pts"; "reb"])
    as (Hbound & Hfree & _).
  split; [|split].
  - apply (Hbound 2%nat "Pts"); [reflexivity|].
    intros [|[|[|[|[|j]]]]] later Hj Hlater; try lia; try discriminate Hlater.
    injection Hlater as <-. discriminate.
  - apply (Hbound 3%nat "reb"); [reflexivity|].
    intros [|[|[|[|[|j]]]]] later Hj Hlater; try lia; discriminate Hlater.
  - apply Hfree. intros label [<-|[<-|[<-|[<-|[]]]]]; discriminate.
Defined.

(** * Numbers printed and read back *)












Section ReadBack.
Context `{Host}.
Hypothesis integers_in_decimal : ∀ z, numberToString (inject_Z z) = integerToString z.



End ReadBack.


(** * The script under an outage *)

Lemma fetchJson_unreachable {A} (replies : nat → reply A) (retries : nat) :
  (∀ j, (j < retries)%nat → thrownBy (replies j) ≠ None) →
  ∃ error, outcome_of (fetchJson replies retries) = Throws error.
Proof.
  intros Hbad. unfold fetchJson. rewrite fetchJsonFrom_exhausted by exact Hbad.
  eauto.
Qed.

Lemma traverse_all_failed `{Host} (fetches : list fetched) :
  Forall (λ f, f = FetchFailed) fetches → traverse fetches = RunState ∅ [].
Proof.
  unfold traverse. generalize (RunState ∅ []).
  induction fetches as [|f fetches IH]; intros st Hall; [reflexivity|].
  apply List.Forall_cons_iff in Hall as [-> Hall]. cbn [fold_left processGame].
  apply IH, Hall.
Qed.

(** X30.  An outage leaves an empty corpus rather than a failure: when no
    schedule can be fetched in three attempts no game is visited, and when
    no summary can be fetched in three attempts no entry is collected; in
    both cases the script writes the empty list. *)
Theorem script_outage `{Host} (currentYear : Z)
    (schedules : Z → Z → nat → reply schedule)
    (summaries : string → nat → reply summary) :
  ((∀ season seasonType j, (j < 3)%nat → thrownBy (schedules season seasonType j) ≠ None) →
   orderedIds currentYear schedules = [] ∧ script currentYear schedules summaries = [])
  ∧ ((∀ eventId j, (j < 3)%nat → thrownBy (summaries eventId j) ≠ None) →
     script currentYear schedules summaries = []).
Proof.
  split.
  - intros Hdown.
    assert (Hnone : collectIds currentYear schedules = []).
    { destruct (collectIds currentYear schedules) as [|id ids] eqn:Hids; [reflexivity|].
      assert (Hin : In id (collectIds currentYear schedules)) by (rewrite Hids; now left).
      unfold collectIds in Hin. apply addSeasons_In in Hin.
      destruct Hin as [[]|([season seasonType] & _ & data & Hdata & _)].
      cbn [fst snd] in Hdata.
      destruct (fetchJson_unreachable (schedules season seasonType) 3 (Hdown season seasonType))
        as [error Herror].
      congruence. }
    assert (Hordered : orderedIds currentYear schedules = []).
    { unfold orderedIds. rewrite Hnone. reflexivity. }
    split; [exact Hordered|]. unfold script. rewrite Hordered. reflexivity.
  - intros Hdown. unfold script, main. rewrite traverse_all_failed; [reflexivity|].
    apply List.Forall_forall. intros f Hf. apply in_map_iff in Hf.
    destruct Hf as (eventId & <- & _). unfold fetchSummary.
    destruct (fetchJson_unreachable (summaries eventId) 3 (Hdown eventId)) as [error ->].
    reflexivity.
Qed.

Lemma script_outage_witness :
  (orderedIds (H := refHost) 2024 (λ _ _, neverUp) = []
   ∧ script (H := refHost) 2024 (λ _ _, neverUp) (λ _, secondTry) = [])
  ∧ script (H := refHost) 1996 oneSeason (λ _, neverUp) = [].
Proof.
  split.
  - refine (proj1 (script_outage (H := refHost) 2024 (λ _ _, neverUp) (λ _, secondTry)) _).
    intros season seasonType j Hj. discriminate.
  - refine (proj2 (script_outage (H := refHost) 1996 oneSeason (λ _, neverUp)) _).
    intros eventId j Hj. discriminate.
Defined.
